(** * TransPort-PH: the panel construction pipeline

    A shallow embedding of the tabular stages of the repository
    (congestion proxy estimator, panel merger, missing-value handler,
    winsorizer, panel balancer, time-based splitter) and the properties
    the specification states about them.

    Conventions of the embedding.
    - A pandas DataFrame is a list of rows (row-oriented stages) or a list
      of named columns (column-oriented stages).  The key columns
      [country] and [year] are typed [string] and [Z]: the standardizer
      (scripts/data_standardization.py, line 141) drops every row whose
      year is missing before the later stages read the file.
    - A measurement cell is [option]: [None] is NaN / a missing CSV cell.
    - float64 values are modelled by exact rationals [Q]; comparisons with a
      missing value are false, as comparisons with NaN are.
    - A script that can raise returns a [result]; a script that writes
      files returns the list of files written, in order. *)

From Stdlib Require Import String Ascii Bool Arith ZArith QArith Lia List.
From Stdlib Require Import Permutation Sorted.
From Stdlib Require Import Qminmax Qround Lqa.
Import ListNotations.

Local Open Scope string_scope.
Local Open Scope Z_scope.
Local Open Scope list_scope.

(** ** Common DataFrame vocabulary *)

Module Frame.

(** Python exceptions the scripts can raise; [ColumnsNotFound] is the
    KeyError of a grouped aggregation, which names every missing column. *)
Inductive exn : Type :=
| AssertionError (msg : string)
| NameError (name : string)
| KeyError (col : string)
| ColumnsNotFound (cols : list string)
| ValueError (msg : string)
| ZeroDivisionError.

Inductive result (A : Type) : Type :=
| Ok (a : A)
| Raise (e : exn).
Arguments Ok {A} a.
Arguments Raise {A} e.

Definition bind {A B : Type} (m : result A) (k : A -> result B) : result B :=
  match m with
  | Ok a => k a
  | Raise e => Raise e
  end.

(** The join key [(country, year)]. *)
Definition Key : Type := (string * Z)%type.

Definition key_eqb (a b : Key) : bool :=
  String.eqb (fst a) (fst b) && Z.eqb (snd a) (snd b).

(** Lexicographic order on keys: [sort_values(['country', 'year'])]. *)
Definition key_compare (a b : Key) : comparison :=
  match String.compare (fst a) (fst b) with
  | Eq => Z.compare (snd a) (snd b)
  | c => c
  end.

Definition key_leb (a b : Key) : bool :=
  match key_compare a b with Gt => false | _ => true end.

(** [DataFrame.sort_values] on several columns is a stable sort; [leb] is
    the order of the sort columns. *)
Fixpoint insert {A : Type} (leb : A -> A -> bool) (x : A) (l : list A) : list A :=
  match l with
  | [] => [x]
  | y :: t => if leb x y then x :: l else y :: insert leb x t
  end.

Fixpoint sort_values {A : Type} (leb : A -> A -> bool) (l : list A) : list A :=
  match l with
  | [] => []
  | x :: t => insert leb x (sort_values leb t)
  end.

(** [DataFrame.drop_duplicates(subset=key, keep='first')]. *)
Fixpoint drop_duplicates_from {A : Type} (key : A -> Key) (seen : list Key)
         (l : list A) : list A :=
  match l with
  | [] => []
  | r :: t =>
      if existsb (key_eqb (key r)) seen
      then drop_duplicates_from key seen t
      else r :: drop_duplicates_from key (key r :: seen) t
  end.

Definition drop_duplicates {A : Type} (key : A -> Key) (l : list A) : list A :=
  drop_duplicates_from key [] l.

(** [x in xs] for a list of strings. *)
Definition mem (x : string) (xs : list string) : bool :=
  existsb (String.eqb x) xs.

(** Arithmetic on nullable floats: NaN propagates. *)
Definition lift2 (f : Q -> Q -> Q) (a b : option Q) : option Q :=
  match a, b with
  | Some x, Some y => Some (f x y)
  | _, _ => None
  end.

(** [a < b] on nullable floats: false as soon as one side is NaN. *)
Definition nan_ltb (a b : option Q) : bool :=
  match a, b with
  | Some x, Some y => negb (Qle_bool y x)
  | _, _ => false
  end.

Definition sumQ (l : list Q) : Q := fold_right Qplus 0%Q l.

(** The non-missing values of a column. *)
Fixpoint dropna {A : Type} (l : list (option A)) : list A :=
  match l with
  | [] => []
  | Some x :: t => x :: dropna t
  | None :: t => dropna t
  end.

(** [Series.mean()]: the mean of the non-missing values, NaN when there
    is none. *)
Definition mean (l : list (option Q)) : option Q :=
  match dropna l with
  | [] => None
  | x :: t => Some (sumQ (x :: t) / inject_Z (Z.of_nat (length (x :: t))))%Q
  end.

Definition isnull {A : Type} (c : option A) : bool :=
  match c with None => true | Some _ => false end.

End Frame.

(** ** Three-way comparisons used as sort orders *)

Module Order.

(** A comparison that is antisymmetric, whose [Eq] is a congruence and
    whose [Lt] is transitive. *)
Record CmpOk {A : Type} (cmp : A -> A -> comparison) : Prop := mkCmpOk {
  cmp_antisym : forall a b, cmp a b = CompOpp (cmp b a);
  cmp_eq_l : forall a b c, cmp a b = Eq -> cmp a c = cmp b c;
  cmp_lt_trans : forall a b c, cmp a b = Lt -> cmp b c = Lt -> cmp a c = Lt
}.

(** Lexicographic combination of a comparison on [f] with one on [g]. *)
Definition lex {A X Y : Type} (f : A -> X) (g : A -> Y)
           (c1 : X -> X -> comparison) (c2 : Y -> Y -> comparison)
           (a b : A) : comparison :=
  match c1 (f a) (f b) with
  | Eq => c2 (g a) (g b)
  | c => c
  end.

Definition leb_of {A : Type} (cmp : A -> A -> comparison) (a b : A) : bool :=
  match cmp a b with Gt => false | _ => true end.

End Order.

(** ** scripts/train_test_split.py *)

Module TrainTestSplit.
Import Frame.

Record Row : Type := mkRow {
  country : string;
  year : Z;
  cells : list (option Q)
}.

Definition DataFrame : Type := list Row.

(** [split_year = 2020] (line 47). *)
Definition split_year : Z := 2020.

(** [df[df['year'] < split_year]] and [df[df['year'] >= split_year]]
    (lines 50-51 and 157-158). *)
Definition train_of (s : Z) (df : DataFrame) : DataFrame :=
  filter (fun r => year r <? s) df.

Definition test_of (s : Z) (df : DataFrame) : DataFrame :=
  filter (fun r => year r >=? s) df.

(** [df['year'].max()] and [df['year'].min()]: NaN on an empty frame. *)
Definition year_max (df : DataFrame) : option Z :=
  match df with
  | [] => None
  | r :: t => Some (fold_left Z.max (map year t) (year r))
  end.

Definition year_min (df : DataFrame) : option Z :=
  match df with
  | [] => None
  | r :: t => Some (fold_left Z.min (map year t) (year r))
  end.

(** [train['year'].max() < test['year'].min()] (line 66): a comparison
    with NaN is False. *)
Definition no_leakage (train test : DataFrame) : bool :=
  match year_max train, year_min test with
  | Some a, Some b => a <? b
  | _, _ => false
  end.

(** What the script leaves on disk. *)
Inductive Artifact : Type :=
| Csv (df : DataFrame)
| Png
| Text.

Definition Written : Type := list (string * Artifact).

(** The two files the script may find ([os.path.exists]). *)
Record Inputs : Type := mkInputs {
  worldbank_data : option DataFrame;
  clean_panel : option DataFrame
}.

(** The outcome of a run: the files written so far, in order, and the
    exception that stopped the script, if any. *)
Record Outcome : Type := mkOutcome {
  written : Written;
  raised : option exn
}.

(** Lines 150-169: the clean-panel block.  It reads [split_year], which
    is bound inside the worldbank block only. *)
Definition split_clean_panel (bound_split_year : option Z)
           (inp : Inputs) : result Written :=
  match clean_panel inp with
  | Some df_clean =>
      match bound_split_year with
      | None => Raise (NameError "split_year")
      | Some s =>
          let train_clean := train_of s df_clean in
          let test_clean := test_of s df_clean in
          Ok [("clean_panel_train.csv", Csv train_clean);
              ("clean_panel_test.csv", Csv test_clean)]
      end
  | None => Ok []
  end.

(** Lines 179-228: the report is an f-string over [split_year], [df],
    [train], [test], all bound in the worldbank block. *)
Definition split_report (bound_split_year : option Z) : result Written :=
  match bound_split_year with
  | None => Raise (NameError "split_year")
  | Some _ => Ok [("train_test_split_report.txt", Text)]
  end.

(** Lines 38-140: the worldbank block. *)
Definition split_worldbank (inp : Inputs) : result (Written * option Z) :=
  match worldbank_data inp with
  | Some df =>
      let train := train_of split_year df in
      let test := test_of split_year df in
      (* len(train) / len(df) * 100, line 57 *)
      if Nat.eqb (length df) 0 then Raise ZeroDivisionError
      else if negb (no_leakage train test)
      then Raise (AssertionError "Data leakage detected!")
      else Ok ([("worldbank_train.csv", Csv train);
                ("worldbank_test.csv", Csv test);
                ("train_test_split.png", Png)], Some split_year)
  | None => Ok ([], None)
  end.

Definition script (inp : Inputs) : Outcome :=
  match split_worldbank inp with
  | Raise e => mkOutcome [] (Some e)
  | Ok (w1, sy) =>
      match split_clean_panel sy inp with
      | Raise e => mkOutcome w1 (Some e)
      | Ok w2 =>
          match split_report sy with
          | Raise e => mkOutcome (w1 ++ w2) (Some e)
          | Ok w3 => mkOutcome (w1 ++ w2 ++ w3) None
          end
      end
  end.

(** The CSV written under a name, if any. *)
Fixpoint csv_written (name : string) (w : Written) : option DataFrame :=
  match w with
  | [] => None
  | (n, Csv df) :: t => if String.eqb n name then Some df else csv_written name t
  | _ :: t => csv_written name t
  end.

End TrainTestSplit.

(** ** scripts/panel_balance.py *)

Module PanelBalance.
Import Frame.

(** A row of worldbank_data.csv: the country, the year cell (missing when
    the field is blank) and the other cells. *)
Record Row : Type := mkRow {
  country : string;
  year : option Z;
  cells : list (option Q)
}.

Definition DataFrame : Type := list Row.

(** [groupby('country')['year'].count()] at one group: the number of
    non-missing year cells among the rows of the country. *)
Definition count (c : string) (df : DataFrame) : nat :=
  length (filter (fun r => String.eqb (country r) c && negb (isnull (year r))) df).

(** The group keys, in ascending order as [groupby] yields them. *)
Definition groups (df : DataFrame) : list string :=
  sort_values String.leb (nodup string_dec (map country df)).

(** [df.groupby('country')['year'].count().sort_values(ascending=False)]
    (line 26): a Series from country to count, largest count first. *)
Definition country_counts (df : DataFrame) : list (string * nat) :=
  sort_values (fun a b => Nat.leb (snd b) (snd a))
              (map (fun c => (c, count c df)) (groups df)).

(** [country_counts[country_counts >= min_years].index] (line 33). *)
Definition valid_countries (min_years : nat) (df : DataFrame) : list string :=
  map fst (filter (fun p => Nat.leb min_years (snd p)) (country_counts df)).

(** [country_counts[country_counts < min_years].index] (line 34). *)
Definition filtered_countries (min_years : nat) (df : DataFrame) : list string :=
  map fst (filter (fun p => Nat.ltb (snd p) min_years) (country_counts df)).

(** [df[df['country'].isin(valid_countries)]] (line 49). *)
Definition df_filtered (min_years : nat) (df : DataFrame) : DataFrame :=
  filter (fun r => mem (country r) (valid_countries min_years df)) df.

(** The script's threshold (line 32). *)
Definition min_years : nat := 10.

(** The balance report (lines 59-64): country, years of data, kept. *)
Definition balance_report (min_years : nat) (df : DataFrame)
  : list (string * nat * bool) :=
  sort_values (fun a b => Nat.leb (snd (fst b)) (snd (fst a)))
    (map (fun p => (fst p, snd p, Nat.leb min_years (snd p))) (country_counts df)).

End PanelBalance.

(** ** src/data_collection/data_gathering_congestion_proxy.py *)

Module CongestionProxy.
Import Frame.

(** *** The tables *)

(** tomtom_traffic_data.csv: one row per city and year. *)
Record CityRow : Type := mkCity {
  tt_city : string;
  tt_country : string;
  tt_year : Z;
  tt_congestion_level_pct : option Q;
  tt_travel_time_index : option Q
}.

(** worldbank_data.csv: the key and the cells of the measurement
    columns, in the order of the header [wb_columns]. *)
Record WBRow : Type := mkWB {
  wb_country : string;
  wb_year : Z;
  wb_cells : list (option Q)
}.

Record WBFrame : Type := mkWBFrame {
  wb_columns : list string;
  wb_rows : list WBRow
}.

(** [tomtom_country]: one row per (country, year) group. *)
Record GroupRow : Type := mkGroup {
  g_country : string;
  g_year : Z;
  g_congestion_level_pct : option Q;
  g_travel_time_index : option Q
}.

(** A row of [estimated_data] or of the tagged [tomtom_country]. *)
Record Estimate : Type := mkEstimate {
  e_country : string;
  e_year : Z;
  e_congestion_level_pct : option Q;
  e_travel_time_index : option Q;
  e_estimation_method : string
}.

(** A row of congestion_comprehensive.csv. *)
Record Row : Type := mkRow {
  country : string;
  year : Z;
  congestion_level_pct : option Q;
  travel_time_index : option Q;
  estimation_method : string;
  data_source : string
}.

Definition tt_key (r : CityRow) : Key := (tt_country r, tt_year r).
Definition wb_key (r : WBRow) : Key := (wb_country r, wb_year r).
Definition g_key (r : GroupRow) : Key := (g_country r, g_year r).
Definition e_key (r : Estimate) : Key := (e_country r, e_year r).
Definition key (r : Row) : Key := (country r, year r).

(** [row[col]]: [None] when the frame has no such column (KeyError). *)
Fixpoint lookup (col : string) (cols : list string) (cells : list (option Q))
  : option (option Q) :=
  match cols with
  | [] => None
  | c :: cs =>
      if String.eqb c col then Some (hd None cells)
      else lookup col cs (tl cells)
  end.

Definition getitem (cols : list string) (r : WBRow) (col : string) : result (option Q) :=
  match lookup col cols (wb_cells r) with
  | Some v => Ok v
  | None => Raise (KeyError col)
  end.

(** *** Lines 42-45: city rows to country rows *)

(** The distinct keys in ascending order, as [groupby] yields them. *)
Definition group_keys (df : list CityRow) : list Key :=
  sort_values key_leb (drop_duplicates (fun k => k) (map tt_key df)).

Definition tomtom_country (df : list CityRow) : list GroupRow :=
  map (fun k =>
         let g := filter (fun r => key_eqb (tt_key r) k) df in
         mkGroup (fst k) (snd k)
                 (mean (map tt_congestion_level_pct g))
                 (mean (map tt_travel_time_index g)))
      (group_keys df).

(** *** Lines 51-56: the training join *)

(** [pd.merge(tomtom_country, wb_df, on=['country', 'year'], how='inner')]. *)
Definition merged (tc : list GroupRow) (wb : WBFrame) : list (GroupRow * WBRow) :=
  flat_map (fun a =>
              map (pair a)
                  (filter (fun w => key_eqb (wb_key w) (g_key a)) (wb_rows wb)))
           tc.

(** *** Lines 65-139: the rule-based estimate *)

(** Python's two-argument [min] and [max]: the first argument is kept
    unless the second compares strictly below (above) it. *)
Definition py_min (a b : option Q) : option Q := if nan_ltb b a then b else a.
Definition py_max (a b : option Q) : option Q := if nan_ltb a b then b else a.

Definition asia_high_congestion : list string :=
  ["Philippines"; "Thailand"; "Indonesia"; "Vietnam"; "India"; "Bangladesh"; "Pakistan"].
Definition developed_good_transit : list string :=
  ["Singapore"; "Japan"; "South Korea"; "Germany"; "Netherlands"; "Denmark"; "Switzerland"].
Definition car_dependent : list string := ["United States"; "Australia"; "Canada"].
Definition latam_megacities : list string :=
  ["Colombia"; "Brazil"; "Mexico"; "Peru"; "Argentina"].

Definition num (z : Z) : option Q := Some (inject_Z z).

Definition gdp_effect (gdp_per_cap : option Q) : Q :=
  if nan_ltb gdp_per_cap (num 5000) then 5%Q
  else if nan_ltb gdp_per_cap (num 15000) then 20%Q
  else if nan_ltb gdp_per_cap (num 40000) then 12%Q
  else 5%Q.

Definition urban_effect (urban_pct : option Q) : option Q :=
  lift2 Qmult (lift2 Qdiv urban_pct (num 100)) (num 15).

Definition road_effect (road_per_cap : option Q) : option Q :=
  if nan_ltb (num 0) road_per_cap
  then py_max (num 0) (lift2 Qminus (num 10) (lift2 Qmult road_per_cap (num 3)))
  else num 10.

Definition pop_effect (population : option Q) : Q :=
  if nan_ltb (num 100000000) population then 8%Q
  else if nan_ltb (num 50000000) population then 5%Q
  else if nan_ltb (num 10000000) population then 3%Q
  else 0%Q.

Definition regional_effect (country : string) (urban_pct : option Q) : Q :=
  let e := 0%Q in
  let e := if mem country asia_high_congestion then 15%Q else e in
  let e := if mem country developed_good_transit then (-10)%Q else e in
  let e := if mem country car_dependent then 5%Q else e in
  if mem country latam_megacities && nan_ltb (num 70) urban_pct then 12%Q else e.

(** [estimate_congestion(row)]; [noise] is the draw
    [np.random.normal(0, 2)] of this call. *)
Definition estimate_congestion (cols : list string) (row : WBRow) (noise : Q)
  : result (option Q) :=
  let base_congestion := num 25 in
  bind (getitem cols row "gdp_per_capita") (fun gdp_per_cap =>
  bind (getitem cols row "urban_population_pct") (fun urban_pct =>
  let road_per_cap :=
    match lookup "road_per_capita" cols (wb_cells row) with
    | Some v => v
    | None => Some 1%Q
    end in
  bind (getitem cols row "population") (fun population =>
  let estimated :=
    lift2 Qplus
      (lift2 Qplus
         (lift2 Qplus
            (lift2 Qplus
               (lift2 Qplus base_congestion (Some (gdp_effect gdp_per_cap)))
               (urban_effect urban_pct))
            (road_effect road_per_cap))
         (Some (pop_effect population)))
      (Some (regional_effect (wb_country row) urban_pct)) in
  let estimated := lift2 Qplus estimated (Some noise) in
  Ok (py_max (num 15) (py_min (num 75) estimated))))).

(** [wb_df.apply(estimate_congestion, axis=1)]: the rows in order, the
    [i]-th call consuming the [i]-th draw of the global generator. *)
Fixpoint apply_estimate (cols : list string) (entropy : nat -> Q) (i : nat)
         (rows : list WBRow) : result (list (option Q)) :=
  match rows with
  | [] => Ok []
  | r :: t =>
      bind (estimate_congestion cols r (entropy i)) (fun e =>
      bind (apply_estimate cols entropy (S i) t) (fun es => Ok (e :: es)))
  end.

(** [wb_df.apply(estimate_congestion, axis=1)] on a panel without rows:
    pandas calls the function once on a row of missing values to learn
    the shape of the result; when it fails (a covariate column is absent)
    [apply] hands back the empty frame, and line 143 cannot store a frame
    in one column. *)
Definition apply_empty (cols : list string) : result (list (option Q)) :=
  if mem "gdp_per_capita" cols && mem "urban_population_pct" cols && mem "population" cols
  then Ok []
  else Raise (ValueError "Cannot set a DataFrame with multiple columns to the single column congestion_level_pct_estimated").

(** Lines 143-152. *)
Definition rule_based_estimates (entropy : nat -> Q) (wb : WBFrame)
  : result (list Estimate) :=
  bind (match wb_rows wb with
        | [] => apply_empty (wb_columns wb)
        | rows => apply_estimate (wb_columns wb) entropy 0 rows
        end) (fun es =>
  Ok (map (fun p =>
             let w := fst p in
             let est := snd p in
             mkEstimate (wb_country w) (wb_year w) est
                        (lift2 Qplus (num 1) (lift2 Qdiv est (num 100)))
                        "rule_based")
          (combine (wb_rows wb) es))).

(** *** Lines 168-228: the Random Forest estimate *)

Definition Matrix : Type := list (list (option Q)).

(** The scikit-learn objects the script uses, through their fit /
    transform / predict interface.  [rf_fit] receives [random_state]. *)
Record Sklearn : Type := mkSklearn {
  scaler : Type;
  forest : Type;
  fit_transform : Matrix -> result (scaler * Matrix);
  transform : scaler -> Matrix -> result Matrix;
  rf_fit : Z -> Matrix -> list (option Q) -> result forest;
  rf_predict : forest -> Matrix -> result (list Q)
}.

Definition feature_cols : list string :=
  ["gdp_per_capita"; "urban_population_pct"; "road_per_capita";
   "log_gdp_per_capita"; "log_population"; "population"; "paved_roads_pct"].

(** [[col for col in feature_cols if col in merged.columns]]: a feature
    name is a column of the join exactly when it is one of [wb_df]. *)
Definition available_features (wb : WBFrame) : list string :=
  filter (fun col => mem col (wb_columns wb)) feature_cols.

Definition features (cols feats : list string) (r : WBRow) : list (option Q) :=
  map (fun f => match lookup f cols (wb_cells r) with
                | Some v => v
                | None => None
                end) feats.

(** [Series.median()]: NaN are skipped; NaN when nothing is left. *)
Definition median (l : list (option Q)) : option Q :=
  let s := sort_values Qle_bool (dropna l) in
  let n := length s in
  if Nat.eqb n 0 then None
  else if Nat.odd n then nth_error s (n / 2)
  else lift2 (fun a b => (a + b) / 2)%Q (nth_error s (n / 2 - 1)) (nth_error s (n / 2)).

Definition column (j : nat) (m : Matrix) : list (option Q) :=
  map (fun row => nth j row None) m.

(** [X.fillna(X.median())]. *)
Definition fillna_median (width : nat) (m : Matrix) : Matrix :=
  let medians := map (fun j => median (column j m)) (seq 0 width) in
  map (fun row =>
         map (fun p => match fst p with Some v => Some v | None => snd p end)
             (combine row medians))
      m.

(** [Series.clip(lower, upper)]. *)
Definition clip (lower upper x : Q) : Q := Qmin upper (Qmax lower x).

Definition random_state : Z := 42.

Definition ml_estimates (sk : Sklearn) (mg : list (GroupRow * WBRow)) (wb : WBFrame)
  : result (list Estimate) :=
  let cols := wb_columns wb in
  let feats := available_features wb in
  let width := length feats in
  let X := fillna_median width (map (fun p => features cols feats (snd p)) mg) in
  (* merged['congestion_level_pct'] is suffixed away when wb_df has the column *)
  if mem "congestion_level_pct" cols then Raise (KeyError "congestion_level_pct")
  else
  let y := map (fun p => g_congestion_level_pct (fst p)) mg in
  bind (fit_transform sk X) (fun sx =>
  (* line 200: scikit-learn refuses a target with a missing value *)
  if existsb isnull y then Raise (ValueError "Input y contains NaN.")
  else
  bind (rf_fit sk random_state (snd sx) y) (fun model =>
  let X_full := fillna_median width (map (features cols feats) (wb_rows wb)) in
  bind (transform sk (fst sx) X_full) (fun X_full_scaled =>
  bind (rf_predict sk model X_full_scaled) (fun pred =>
  (* assigning a column of another length raises *)
  if negb (Nat.eqb (length pred) (length (wb_rows wb)))
  then Raise (ValueError "Length of values does not match length of index")
  else
  Ok (map (fun p =>
             let w := fst p in
             let raw := snd p in
             mkEstimate (wb_country w) (wb_year w)
                        (Some (clip 10%Q 80%Q raw))
                        (Some (1 + raw / 100)%Q)
                        "ml_random_forest")
          (combine (wb_rows wb) pred)))))).

(** *** Lines 155-161 and 230-235: actual data take precedence *)

(** [tomtom_country['estimation_method'] = 'actual_tomtom']. *)
Definition tag (a : GroupRow) : Estimate :=
  mkEstimate (g_country a) (g_year a)
             (g_congestion_level_pct a) (g_travel_time_index a) "actual_tomtom".

Definition tag_actual (tc : list GroupRow) : list Estimate := map tag tc.

(** The order of [sort_values(['country', 'year', 'estimation_method'])]. *)
Definition method_compare (a b : Estimate) : comparison :=
  match key_compare (e_key a) (e_key b) with
  | Eq => String.compare (e_estimation_method a) (e_estimation_method b)
  | c => c
  end.

Definition method_leb (a b : Estimate) : bool :=
  match method_compare a b with Gt => false | _ => true end.

(** [combined['data_source'] = combined['estimation_method']]. *)
Definition with_data_source (e : Estimate) : Row :=
  mkRow (e_country e) (e_year e)
        (e_congestion_level_pct e) (e_travel_time_index e)
        (e_estimation_method e) (e_estimation_method e).

Definition combined (tc : list GroupRow) (estimated_data : list Estimate) : list Row :=
  let c := tag_actual tc ++ estimated_data in
  let c := sort_values method_leb c in
  let c := drop_duplicates e_key c in
  map with_data_source c.

(** *** The script, up to the file it saves (line 240) *)

Definition use_rule_based (mg : list (GroupRow * WBRow)) : bool :=
  Nat.ltb (length mg) 20.

Definition congestion_comprehensive (sk : Sklearn) (entropy : nat -> Q)
           (wb_df : WBFrame) (tomtom_df : list CityRow) : result (list Row) :=
  let tc := tomtom_country tomtom_df in
  let mg := merged tc wb_df in
  bind (if use_rule_based mg
        then rule_based_estimates entropy wb_df
        else ml_estimates sk mg wb_df)
       (fun estimated_data =>
          Ok (sort_values (fun a b => key_leb (key a) (key b))
                          (combined tc estimated_data))).

(** A stand-in learner for running the script: no scaling, and a forest
    that predicts the mean of the training targets. *)
Definition mean_learner : Sklearn :=
  mkSklearn unit Q
    (fun X => Ok (tt, X))
    (fun _ X => Ok X)
    (fun _ _ y =>
       match mean y with
       | Some m => Ok m
       | None => Raise (ValueError "Found array with 0 sample(s)")
       end)
    (fun m X => Ok (map (fun _ => m) X)).

End CongestionProxy.

(** ** scripts/merge_panel.py *)

Module MergePanel.
Import Frame.

(** A cell holds a number, an infinity of float64 or a text; [None] is a
    missing cell (NaN). *)
Inductive Value : Type :=
| Num (q : Q)
| Inf (negative : bool)
| Str (s : string).

Definition Cell : Type := option Value.

(** A frame keyed by (country, year): [columns] names the other columns,
    [cells] holds their values in the same order. *)
Record Row : Type := mkRow {
  country : string;
  year : Z;
  cells : list Cell
}.

Record DataFrame : Type := mkFrame {
  columns : list string;
  rows : list Row
}.

(** A frame without a year column (the static OSM extract). *)
Record StaticRow : Type := mkStaticRow {
  s_country : string;
  s_cells : list Cell
}.

Record StaticFrame : Type := mkStatic {
  s_columns : list string;
  s_rows : list StaticRow
}.

Definition key (r : Row) : Key := (country r, year r).

(** The cell of a row under a column name; the first column of that name
    counts, a row shorter than the header reads as missing. *)
Fixpoint lookup (col : string) (cols : list string) (cs : list Cell) : option Cell :=
  match cols with
  | [] => None
  | c :: t =>
      if String.eqb c col then Some (hd None cs) else lookup col t (tl cs)
  end.

Definition get (cols : list string) (cs : list Cell) (col : string) : Cell :=
  match lookup col cols cs with
  | Some v => v
  | None => None
  end.

(** The finite number of a cell. *)
Definition num_of (c : Cell) : option Q :=
  match c with
  | Some (Num q) => Some q
  | _ => None
  end.

Definition cell_of (q : option Q) : Cell := option_map Num q.

Definition is_inf (negative : bool) (c : Cell) : bool :=
  match c with
  | Some (Inf n) => Bool.eqb n negative
  | _ => false
  end.

(** The mean of the cells of a group: missing cells are skipped; an
    infinity among them makes the mean infinite, both infinities make it
    NaN. *)
Definition mean_cells (cs : list Cell) : Cell :=
  match existsb (is_inf false) cs, existsb (is_inf true) cs with
  | false, false => cell_of (mean (map num_of cs))
  | true, false => Some (Inf false)
  | false, true => Some (Inf true)
  | true, true => None
  end.

(** Exactly [n] cells: cut or filled with missing cells. *)
Definition pad (n : nat) (cs : list Cell) : list Cell :=
  firstn n (cs ++ repeat None n).

(** [suffixes=('', suffix)]: a right column whose name the left frame
    already has gets the suffix, the left one keeps its name. *)
Definition suffixed (suffix : string) (left_cols right_cols : list string) : list string :=
  map (fun c => if mem c left_cols then String.append c suffix else c) right_cols.

(** [df.merge(right, on=['country', 'year'], how='left', suffixes=('', suffix))]:
    the left rows in order, each once per matching right row, or once with
    missing right cells when none matches. *)
Definition merge (df other : DataFrame) (suffix : string) : DataFrame :=
  mkFrame
    (columns df ++ suffixed suffix (columns df) (columns other))
    (flat_map
       (fun l =>
          let left_cells := pad (length (columns df)) (cells l) in
          match filter (fun r => key_eqb (key r) (key l)) (rows other) with
          | [] => [mkRow (country l) (year l)
                         (left_cells ++ repeat None (length (columns other)))]
          | ms => map (fun r => mkRow (country l) (year l)
                                      (left_cells ++ pad (length (columns other)) (cells r)))
                      ms
          end)
       (rows df)).

(** [df.merge(right, on='country', how='left', suffixes=('', suffix))]. *)
Definition merge_on_country (df : DataFrame) (other : StaticFrame) (suffix : string)
  : DataFrame :=
  mkFrame
    (columns df ++ suffixed suffix (columns df) (s_columns other))
    (flat_map
       (fun l =>
          let left_cells := pad (length (columns df)) (cells l) in
          match filter (fun r => String.eqb (s_country r) (country l)) (s_rows other) with
          | [] => [mkRow (country l) (year l)
                         (left_cells ++ repeat None (length (s_columns other)))]
          | ms => map (fun r => mkRow (country l) (year l)
                                      (left_cells ++ pad (length (s_columns other)) (s_cells r)))
                      ms
          end)
       (rows df)).

(** [overpass.drop(columns=['note'], errors='ignore')]. *)
Fixpoint drop_cells (col : string) (cols : list string) (cs : list Cell) : list Cell :=
  match cols with
  | [] => []
  | c :: t =>
      if String.eqb c col then drop_cells col t (tl cs)
      else hd None cs :: drop_cells col t (tl cs)
  end.

Definition drop_column (col : string) (f : StaticFrame) : StaticFrame :=
  mkStatic (filter (fun c => negb (String.eqb c col)) (s_columns f))
           (map (fun r => mkStaticRow (s_country r) (drop_cells col (s_columns f) (s_cells r)))
                (s_rows f)).

(** Lines 73-78: the city-level modal shares averaged per (country, year). *)
Definition modal_share_cols : list string :=
  ["modal_share_public"; "modal_share_private"; "modal_share_walk"; "modal_share_bike"].

Definition group_keys (df : DataFrame) : list Key :=
  sort_values key_leb (drop_duplicates (fun k => k) (map key (rows df))).

Definition uitp_country (uitp : DataFrame) : result DataFrame :=
  match filter (fun c => negb (mem c (columns uitp))) modal_share_cols with
  | _ :: _ as missing => Raise (ColumnsNotFound missing)
  | [] =>
      Ok (mkFrame modal_share_cols
            (map (fun k =>
                    let g := filter (fun r => key_eqb (key r) k) (rows uitp) in
                    mkRow (fst k) (snd k)
                          (map (fun c =>
                                  mean_cells (map (fun r => get (columns uitp) (cells r) c) g))
                               modal_share_cols))
                 (group_keys uitp)))
  end.

(** The files of the data directory; [None] when the file does not exist. *)
Inductive Overpass : Type :=
| Static (f : StaticFrame)
| Yearly (f : DataFrame).

Record Inputs : Type := mkInputs {
  worldbank_data : DataFrame;
  congestion_comprehensive : option DataFrame;
  tomtom_traffic_data : option DataFrame;
  uitp_modal_share : option DataFrame;
  psa_data : option DataFrame;
  openaq_pm25 : option DataFrame;
  overpass_data : option Overpass;
  ltfrb_data : option DataFrame;
  jica_mrt_lrt : option DataFrame;
  adb_projects : option DataFrame
}.

Definition merge_if (df : DataFrame) (src : option DataFrame) (suffix : string) : DataFrame :=
  match src with
  | Some source => merge df source suffix
  | None => df
  end.

(** Lines 27-63.  The share of actual measurements printed at line 42
    divides by the number of rows of the comprehensive file: a file with a
    data_source column and no row stops the script. *)
Definition merge_congestion (df : DataFrame) (inp : Inputs) : result DataFrame :=
  match congestion_comprehensive inp with
  | Some congestion =>
      if mem "data_source" (columns congestion) && Nat.eqb (length (rows congestion)) 0
      then Raise ZeroDivisionError
      else Ok (merge df congestion "_congestion")
  | None => Ok (merge_if df (tomtom_traffic_data inp) "_tomtom")
  end.

(** Lines 64-86. *)
Definition merge_uitp (df : DataFrame) (inp : Inputs) : result DataFrame :=
  match uitp_modal_share inp with
  | Some uitp =>
      if mem "city" (columns uitp)
      then bind (uitp_country uitp) (fun uc => Ok (merge df uc "_uitp"))
      else Ok (merge df uitp "_uitp")
  | None => Ok df
  end.

(** Lines 108-123. *)
Definition merge_overpass (df : DataFrame) (inp : Inputs) : DataFrame :=
  match overpass_data inp with
  | Some (Static overpass) => merge_on_country df (drop_column "note" overpass) "_overpass"
  | Some (Yearly overpass) => merge df overpass "_overpass"
  | None => df
  end.

(** Lines 16-153: the chain of left joins. *)
Definition merge_sources (inp : Inputs) : result DataFrame :=
  let df := worldbank_data inp in
  bind (merge_congestion df inp) (fun df =>
  bind (merge_uitp df inp) (fun df =>
  let df := merge_if df (psa_data inp) "_psa" in
  let df := merge_if df (openaq_pm25 inp) "_openaq" in
  let df := merge_overpass df inp in
  let df := merge_if df (ltfrb_data inp) "_ltfrb" in
  let df := merge_if df (jica_mrt_lrt inp) "_jica" in
  let df := merge_if df (adb_projects inp) "_adb" in
  Ok df)).

(** [df[col] = values]: the column is replaced where it stands, or added
    at the end. *)
Fixpoint assign (col : string) (v : Cell) (cols : list string) (cs : list Cell)
  : list Cell :=
  match cols with
  | [] => [v]
  | c :: t =>
      if String.eqb c col then v :: tl cs
      else hd None cs :: assign col v t (tl cs)
  end.

(** The header after [df[col] = ...]. *)
Definition header_with (col : string) (cols : list string) : list string :=
  if mem col cols then cols else cols ++ [col].

Definition set_column (col : string) (values : list Cell) (df : DataFrame) : DataFrame :=
  mkFrame
    (header_with col (columns df))
    (map (fun p => mkRow (country (fst p)) (year (fst p))
                         (assign col (snd p) (columns df) (cells (fst p))))
         (combine (rows df) values)).

Definition column (col : string) (df : DataFrame) : list Cell :=
  map (fun r => get (columns df) (cells r) col) (rows df).

(** Division and product of float64 cells.  A nonzero number divided by
    zero is an infinity with the sign of the number, zero divided by zero
    is NaN; a cell that holds no number gives NaN. *)
Definition fdiv (a b : Cell) : Cell :=
  match a, b with
  | Some (Num x), Some (Num y) =>
      if Qeq_bool y 0
      then if Qeq_bool x 0 then None else Some (Inf (negb (Qle_bool 0 x)))
      else Some (Num (x / y))
  | Some (Num _), Some (Inf _) => Some (Num 0)
  | Some (Inf n), Some (Num y) => Some (Inf (xorb n (negb (Qle_bool 0 y))))
  | _, _ => None
  end.

Definition fmul (a b : Cell) : Cell :=
  match a, b with
  | Some (Num x), Some (Num y) => Some (Num (x * y))
  | Some (Inf n), Some (Num y) | Some (Num y), Some (Inf n) =>
      if Qeq_bool y 0 then None else Some (Inf (xorb n (negb (Qle_bool 0 y))))
  | Some (Inf n), Some (Inf m) => Some (Inf (xorb n m))
  | _, _ => None
  end.

(** Lines 155-168. *)
Definition transit_investment_gdp (df : DataFrame) : DataFrame :=
  let col := "transit_investment_gdp" in
  if negb (mem col (columns df)) || forallb isnull (column col df) then
    let has c := mem c (columns df) in
    let value c r := get (columns df) (cells r) c in
    if has "adb_loan_amount" && has "gdp_current_usd" then
      set_column col
        (map (fun r => fmul (fdiv (value "adb_loan_amount" r)
                                  (value "gdp_current_usd" r))
                            (Some (Num 100)))
             (rows df)) df
    else if has "road_length_km" && has "gdp_current_usd" then
      set_column col
        (map (fun r => fmul (fdiv (fmul (value "road_length_km" r)
                                        (Some (Num (1000000#1))))
                                  (value "gdp_current_usd" r))
                            (Some (Num 100)))
             (rows df)) df
    else
      set_column col (map (fun _ => Some (Num 0)) (rows df)) df
  else df.

(** [df.groupby('country')[col].shift(1)]: the value of the previous row
    of the same country. *)
Fixpoint shift1 (prev : list (string * Cell)) (rs : list (string * Cell)) : list Cell :=
  match rs with
  | [] => []
  | (c, v) :: t =>
      let before :=
        match find (fun p => String.eqb (fst p) c) prev with
        | Some p => snd p
        | None => None
        end in
      before :: shift1 ((c, v) :: prev) t
  end.

(** Lines 170-175. *)
Definition lagged (df : DataFrame) : DataFrame :=
  let df := mkFrame (columns df)
                    (sort_values (fun a b => key_leb (key a) (key b)) (rows df)) in
  if mem "transit_invest_lag1" (columns df) then df
  else
    set_column "transit_invest_lag1"
      (shift1 [] (map (fun r => (country r,
                                 get (columns df) (cells r) "transit_investment_gdp"))
                      (rows df)))
      df.

(** Lines 177-191. *)
Definition rename_map : list (string * string) :=
  [("congestion_level_pct", "congestion_index");
   ("congestion_level", "congestion_index");
   ("pm25_annual_mean", "pm25");
   ("pm25_value", "pm25");
   ("urban_population_pct", "population_density");
   ("modal_share", "modal_share_public")].

Definition rename (old_name new_name : string) (df : DataFrame) : DataFrame :=
  mkFrame (map (fun c => if String.eqb c old_name then new_name else c) (columns df))
          (rows df).

Definition standardize_names (df : DataFrame) : DataFrame :=
  fold_left (fun df p =>
               if mem (fst p) (columns df) && negb (mem (snd p) (columns df))
               then rename (fst p) (snd p) df
               else df)
            rename_map df.

(** Lines 195-210; [country] and [year] lead the list and are the key. *)
Definition final_columns : list string :=
  ["transit_investment_gdp"; "modal_share_public"; "congestion_index";
   "gdp_per_capita"; "pm25"; "population_density"; "log_gdp_per_capita";
   "transit_invest_lag1"; "high_invest_dummy"; "data_source"; "estimation_method"].

Definition ensure_columns (df : DataFrame) : DataFrame :=
  fold_left (fun df col =>
               if mem col (columns df) then df
               else set_column col (map (fun _ => None) (rows df)) df)
            final_columns df.

Definition select_final (df : DataFrame) : DataFrame :=
  mkFrame final_columns
          (map (fun r => mkRow (country r) (year r)
                               (map (get (columns df) (cells r)) final_columns))
               (rows df)).

(** The frame saved as clean_panel.csv (line 240). *)
Definition after_merge (df : DataFrame) : DataFrame :=
  select_final (ensure_columns (standardize_names (lagged (transit_investment_gdp df)))).

Definition df_clean (inp : Inputs) : result DataFrame :=
  bind (merge_sources inp) (fun df => Ok (after_merge df)).

End MergePanel.

(** ** src/preprocessing/outlier_winsorization.py *)

Module Winsorization.
Import Frame.

(** A column by dtype: float64 (a missing cell is NaN), int64 (no cell
    is missing) or object. *)
Inductive Column : Type :=
| Numeric (values : list (option Q))
| Integer (values : list Z)
| Object (values : list (option string)).

(** The float64 nearest to an int64 (ties to the even mantissa): integers
    of up to 53 bits are kept, longer ones lose their low bits. *)
Definition to_float64 (z : Z) : Q :=
  let a := Z.abs z in
  let e := (Z.log2 a - 52)%Z in
  if (e <=? 0)%Z then inject_Z z
  else
    let q := Z.shiftr a e in
    let r := (a - Z.shiftl q e)%Z in
    let half := Z.shiftl 1 (e - 1) in
    let q' := if (r <? half)%Z then q
              else if (half <? r)%Z then (q + 1)%Z
              else if Z.even q then q else (q + 1)%Z in
    inject_Z (Z.sgn z * Z.shiftl q' e).

(** An int64 column seen as float64, as numpy does when it meets a float
    percentile. *)
Definition as_float64 (zs : list Z) : list (option Q) :=
  map (fun z => Some (to_float64 z)) zs.

(** A frame as its named columns, in order. *)
Definition DataFrame : Type := list (string * Column).

(** Line 52. *)
Definition exclude_cols : list string := ["year"; "time_idx"; "index"; "id"].

(** The sample variance (ddof = 1) of the non-missing values; NaN when
    fewer than two are left. *)
Definition variance (l : list (option Q)) : option Q :=
  let xs := dropna l in
  match mean l with
  | Some m =>
      if Nat.leb (length xs) 1 then None
      else Some (sumQ (map (fun x => (x - m) * (x - m)) xs)
                 / inject_Z (Z.of_nat (length xs - 1)))%Q
  | None => None
  end.

(** [df[col].std() > 0] (line 65): the standard deviation is the square
    root of the variance, positive exactly when the variance is. *)
Definition std_positive (l : list (option Q)) : bool :=
  nan_ltb (Some 0%Q) (variance l).

(** The value at fractional position [pos] of the sorted values [xs]:
    linear interpolation between the two neighbouring order statistics. *)
Definition at_position (xs : list Q) (x0 : Q) (pos : Q) : Q :=
  let lo := Z.to_nat (Qfloor pos) in
  (nth lo xs x0
   + (pos - inject_Z (Qfloor pos))
     * (nth (Nat.min (S lo) (length xs - 1)) xs x0 - nth lo xs x0))%Q.

(** [Series.quantile(q)] (linear interpolation): the value at position
    [q * (n - 1)] of the sorted non-missing values; NaN when there is
    none. *)
Definition quantile (q : Q) (l : list (option Q)) : option Q :=
  match sort_values Qle_bool (dropna l) with
  | [] => None
  | x0 :: t =>
      Some (at_position (x0 :: t) x0
              (q * inject_Z (Z.of_nat (length (x0 :: t) - 1))))
  end.

(** [(df[col] > p).sum()] and [(df[col] < p).sum()]. *)
Definition count_above (p : Q) (l : list (option Q)) : nat :=
  length (filter (fun c => nan_ltb (Some p) c) l).

Definition count_below (p : Q) (l : list (option Q)) : nat :=
  length (filter (fun c => nan_ltb c (Some p)) l).

(** [np.where(df[col] > p, p, df[col])] and [np.where(df[col] < p, p, df[col])]
    on float64 values: a cell that is not replaced is kept as it is. *)
Definition where_above (p : Q) (l : list (option Q)) : list (option Q) :=
  map (fun c => if nan_ltb (Some p) c then Some p else c) l.

Definition where_below (p : Q) (l : list (option Q)) : list (option Q) :=
  map (fun c => if nan_ltb c (Some p) then Some p else c) l.

(** Lines 65-76, for one column. *)
Definition winsorize_column (l : list (option Q)) : list (option Q) :=
  if std_positive l then
    match quantile (99#100) l, quantile (1#100) l with
    | Some percentile_99, Some percentile_01 =>
        let outliers_upper := count_above percentile_99 l in
        let outliers_lower := count_below percentile_01 l in
        if Nat.ltb 0 outliers_upper || Nat.ltb 0 outliers_lower
        then where_below percentile_01 (where_above percentile_99 l)
        else l
    | _, _ => l
    end
  else l.

(** Whether a pass over the column changes it: the guards of lines 65
    and 73. *)
Definition has_outliers (l : list (option Q)) : bool :=
  std_positive l &&
  match quantile (99#100) l, quantile (1#100) l with
  | Some percentile_99, Some percentile_01 =>
      Nat.ltb 0 (count_above percentile_99 l) || Nat.ltb 0 (count_below percentile_01 l)
  | _, _ => false
  end.

(** Lines 50-53: only numeric columns outside [exclude_cols] are
    processed.  A float64 column is clipped in place.  On an int64 column
    the comparisons and [np.where] of lines 70-76 work on the float64 of
    its values, and the column written back is float64; the column stays
    int64 when no value is clipped. *)
Definition winsorize_named (nc : string * Column) : string * Column :=
  match snd nc with
  | Numeric l =>
      if mem (fst nc) exclude_cols then nc
      else (fst nc, Numeric (winsorize_column l))
  | Integer zs =>
      if mem (fst nc) exclude_cols then nc
      else if has_outliers (as_float64 zs)
           then (fst nc, Numeric (winsorize_column (as_float64 zs)))
           else nc
  | Object _ => nc
  end.

(** Lines 50-76, for one file. *)
Definition winsorize (df : DataFrame) : DataFrame := map winsorize_named df.

(** Equality of cells, columns and frames up to the value of the
    numbers. *)
Definition cell_eqb (a b : option Q) : bool :=
  match a, b with
  | Some x, Some y => Qeq_bool x y
  | None, None => true
  | _, _ => false
  end.

Fixpoint values_eqb (a b : list (option Q)) : bool :=
  match a, b with
  | [], [] => true
  | x :: s, y :: t => cell_eqb x y && values_eqb s t
  | _, _ => false
  end.

Definition text_eqb (a b : option string) : bool :=
  match a, b with
  | Some x, Some y => String.eqb x y
  | None, None => true
  | _, _ => false
  end.

Fixpoint texts_eqb (a b : list (option string)) : bool :=
  match a, b with
  | [], [] => true
  | x :: s, y :: t => text_eqb x y && texts_eqb s t
  | _, _ => false
  end.

Fixpoint integers_eqb (a b : list Z) : bool :=
  match a, b with
  | [], [] => true
  | x :: s, y :: t => Z.eqb x y && integers_eqb s t
  | _, _ => false
  end.

Definition column_eqb (a b : Column) : bool :=
  match a, b with
  | Numeric x, Numeric y => values_eqb x y
  | Integer x, Integer y => integers_eqb x y
  | Object x, Object y => texts_eqb x y
  | _, _ => false
  end.

Fixpoint frame_eqb (a b : DataFrame) : bool :=
  match a, b with
  | [], [] => true
  | (n, x) :: s, (m, y) :: t => String.eqb n m && column_eqb x y && frame_eqb s t
  | _, _ => false
  end.

End Winsorization.

(** ** src/preprocessing/handle_missing_values.py *)

Module MissingValues.
Import Frame.

(** A column by dtype: numeric (float64 / int64) or object. *)
Inductive Column : Type :=
| Numeric (values : list (option Q))
| Object (values : list (option string)).

(** A file with the [country] and [year] columns the panel branch needs
    (line 45), and its other columns, in order. *)
Record DataFrame : Type := mkFrame {
  country : list string;
  year : list Z;
  columns : list (string * Column)
}.

(** Lines 18-20. *)
Definition time_invariant_vars : list string := ["country"].
Definition smooth_trend_vars : list string :=
  ["gdp_per_capita"; "gdp_current_usd"; "population"; "gdp_growth"].
Definition sparse_vars : list string :=
  ["modal_share_public"; "transit_investment_gdp"; "rail_km_built"; "fleet_size"].

(** [str.lower()] on ASCII letters and [term in s]. *)
Definition lower_ascii (a : ascii) : ascii :=
  let n := nat_of_ascii a in
  if Nat.leb 65 n && Nat.leb n 90 then ascii_of_nat (n + 32) else a.

Fixpoint lower (s : string) : string :=
  match s with
  | EmptyString => EmptyString
  | String a t => String (lower_ascii a) (lower t)
  end.

Fixpoint contains (term s : string) : bool :=
  String.prefix term s ||
  match s with
  | EmptyString => false
  | String _ t => contains term t
  end.

Definition any_term_in (terms : list string) (col : string) : bool :=
  existsb (fun term => contains term (lower col)) terms.

(** *** Line 46: [df.sort_values(['country', 'year'])] *)

(** The positions of the rows in sorted order. *)
Definition order (df : DataFrame) : list nat :=
  map snd
      (sort_values (fun a b => key_leb (fst a) (fst b))
                   (combine (combine (country df) (year df))
                            (seq 0 (length (country df))))).

Definition take {A : Type} (d : A) (idx : list nat) (l : list A) : list A :=
  map (fun i => nth i l d) idx.

Definition take_column (idx : list nat) (c : Column) : Column :=
  match c with
  | Numeric l => Numeric (take None idx l)
  | Object l => Object (take None idx l)
  end.

Definition sort_frame (df : DataFrame) : DataFrame :=
  let idx := order df in
  mkFrame (take EmptyString idx (country df))
          (take 0 idx (year df))
          (map (fun nc => (fst nc, take_column idx (snd nc))) (columns df)).

(** *** The fills *)

(** The first value after the head and how many steps away it is. *)
Fixpoint next_valid (l : list (option Q)) : option (Q * nat) :=
  match l with
  | [] => None
  | Some x :: _ => Some (x, 1%nat)
  | None :: t =>
      match next_valid t with
      | Some (x, d) => Some (x, S d)
      | None => None
      end
  end.

Definition between (a : Q) (da : nat) (b : Q) (db : nat) : Q :=
  (a + (b - a) * inject_Z (Z.of_nat da) / inject_Z (Z.of_nat (da + db)))%Q.

(** [x.interpolate(method='linear', limit_direction='both')]: a gap is
    filled on the straight line between its two neighbours (rows are
    equally spaced); leading gaps take the first value, trailing gaps the
    last; a series without any value is left as it is.  [prev] is the last
    value seen and its distance. *)
Fixpoint interpolate_from (prev : option (Q * nat)) (l : list (option Q))
  : list (option Q) :=
  match l with
  | [] => []
  | Some x :: t => Some x :: interpolate_from (Some (x, 1%nat)) t
  | None :: t =>
      let filled :=
        match prev, next_valid t with
        | Some (a, da), Some (b, db) => Some (between a da b db)
        | Some (a, _), None => Some a
        | None, Some (b, _) => Some b
        | None, None => None
        end in
      filled :: interpolate_from
                  (match prev with Some (a, da) => Some (a, S da) | None => None end) t
  end.

Definition interpolate (l : list (option Q)) : list (option Q) :=
  interpolate_from None l.

(** [fillna(method='ffill')] and [fillna(method='bfill')]. *)
Fixpoint ffill_from {A : Type} (prev : option A) (l : list (option A)) : list (option A) :=
  match l with
  | [] => []
  | Some x :: t => Some x :: ffill_from (Some x) t
  | None :: t => prev :: ffill_from prev t
  end.

Definition ffill {A : Type} (l : list (option A)) : list (option A) := ffill_from None l.

Fixpoint first_valid {A : Type} (l : list (option A)) : option A :=
  match l with
  | [] => None
  | Some x :: _ => Some x
  | None :: t => first_valid t
  end.

Fixpoint bfill {A : Type} (l : list (option A)) : list (option A) :=
  match l with
  | [] => []
  | Some x :: t => Some x :: bfill t
  | None :: t => first_valid t :: bfill t
  end.

Definition ffill_bfill {A : Type} (l : list (option A)) : list (option A) :=
  bfill (ffill l).

(** *** [df.groupby('country')[col].transform(f)] *)

(** The values of one country, in row order. *)
Fixpoint group_values {A : Type} (countries : list string) (c : string) (col : list A)
  : list A :=
  match countries, col with
  | k :: ks, v :: vs =>
      if String.eqb k c then v :: group_values ks c vs else group_values ks c vs
  | _, _ => []
  end.

(** The rows of country [c] take the values [new], in order. *)
Fixpoint scatter {A : Type} (countries : list string) (c : string) (new col : list A)
  : list A :=
  match countries, col with
  | k :: ks, v :: vs =>
      if String.eqb k c then
        match new with
        | n :: ns => n :: scatter ks c ns vs
        | [] => v :: scatter ks c [] vs
        end
      else v :: scatter ks c new vs
  | _, _ => col
  end.

Definition transform {A : Type} (f : list A -> list A) (countries : list string)
           (col : list A) : list A :=
  fold_left (fun acc c => scatter countries c (f (group_values countries c col)) acc)
            (nodup string_dec countries) col.

(** *** Lines 50-72: the policy per column *)

Definition impute (countries : list string) (name : string) (col : Column) : Column :=
  if mem name time_invariant_vars then col
  else if mem name smooth_trend_vars
          || any_term_in ["gdp"; "population"; "growth"] name then
    match col with
    | Numeric l => Numeric (transform interpolate countries l)
    | Object _ => col  (* linear interpolation leaves an object column as it is *)
    end
  else if mem name sparse_vars
          || any_term_in ["modal"; "transit"; "rail"; "fleet"] name then
    match col with
    | Numeric l => Numeric (transform ffill_bfill countries l)
    | Object l => Object (transform ffill_bfill countries l)
    end
  else
    match col with
    | Numeric l => Numeric (transform interpolate countries l)
    | Object _ => col
    end.

(** *** Lines 81-84: what is still missing takes the column mean *)

Definition fillna (value : Q) (l : list (option Q)) : list (option Q) :=
  map (fun c => match c with Some x => Some x | None => Some value end) l.

Definition fill_mean (l : list (option Q)) : list (option Q) :=
  if existsb isnull l then
    match mean l with
    | Some m => fillna m l
    | None => l
    end
  else l.

Definition fill_residual (col : Column) : Column :=
  match col with
  | Numeric l => Numeric (fill_mean l)
  | Object _ => col
  end.

(** One column through lines 50-84. *)
Definition handle_column (countries : list string) (name : string) (col : Column)
  : Column :=
  fill_residual (impute countries name col).

(** The file the handler writes back (line 94). *)
Definition handle (df : DataFrame) : DataFrame :=
  let df := sort_frame df in
  mkFrame (country df) (year df)
          (map (fun nc => (fst nc, handle_column (country df) (fst nc) (snd nc)))
               (columns df)).

(** The country has no observation in the column. *)
Definition no_observation (countries : list string) (c : string)
           (col : list (option Q)) : bool :=
  forallb isnull (group_values countries c col).

End MissingValues.

(** ** scripts/data_standardization.py *)

Module Standardization.
Import Frame.

(** A name is a Python string: the list of its Unicode code points. *)
Definition Text : Type := list N.

(** The text of a literal written in ASCII. *)
Definition text (s : string) : Text :=
  map (fun a => N.of_nat (nat_of_ascii a)) (list_ascii_of_string s).

Fixpoint text_eqb (a b : Text) : bool :=
  match a, b with
  | [], [] => true
  | x :: s, y :: t => N.eqb x y && text_eqb s t
  | _, _ => false
  end.

(** Lines 29-63, in the order of the dictionary. *)
Definition country_map : list (Text * Text) :=
  map (fun p => (text (fst p), text (snd p)))
  [("Philippines", "Philippines");
   ("PH", "Philippines");
   ("Republic of the Philippines", "Philippines");
   ("Philippine", "Philippines");
   ("philippines", "Philippines");
   ("United States", "United States");
   ("USA", "United States");
   ("U.S.", "United States");
   ("US", "United States");
   ("United Kingdom", "United Kingdom");
   ("UK", "United Kingdom");
   ("U.K.", "United Kingdom");
   ("Great Britain", "United Kingdom");
   ("Korea, Rep.", "South Korea");
   ("Republic of Korea", "South Korea");
   ("Korea", "South Korea");
   ("China", "China");
   ("People's Republic of China", "China");
   ("PRC", "China");
   ("Russian Federation", "Russia");
   ("Russia", "Russia");
   ("Viet Nam", "Vietnam");
   ("Vietnam", "Vietnam")].

(** [str.isspace] on one character, the white space [str.strip()]
    removes: U+0009 to U+000D, U+001C to U+0020, U+0085 (next line),
    U+00A0 (no-break space), U+1680, U+2000 to U+200A, U+2028, U+2029,
    U+202F, U+205F and U+3000. *)
Definition is_space (c : N) : bool :=
  ((9 <=? c) && (c <=? 13) || (28 <=? c) && (c <=? 32)
   || (c =? 133) || (c =? 160) || (c =? 5760)
   || (8192 <=? c) && (c <=? 8202)
   || (c =? 8232) || (c =? 8233) || (c =? 8239) || (c =? 8287) || (c =? 12288))%N.

Fixpoint lstrip (s : Text) : Text :=
  match s with
  | [] => []
  | c :: t => if is_space c then lstrip t else s
  end.

Fixpoint rstrip (s : Text) : Text :=
  match s with
  | [] => []
  | c :: t =>
      match rstrip t with
      | [] => if is_space c then [] else [c]
      | r => c :: r
      end
  end.

(** [str.strip()]. *)
Definition strip (s : Text) : Text := rstrip (lstrip s).

Fixpoint lookup (k : Text) (m : list (Text * Text)) : option Text :=
  match m with
  | [] => None
  | (k', v) :: t => if text_eqb k' k then Some v else lookup k t
  end.

(** [Series.replace(country_map)] on one value: a value equal to a key
    becomes the value of the key, any other value stays. *)
Definition replace (s : Text) : Text :=
  match lookup s country_map with
  | Some v => v
  | None => s
  end.

(** Lines 115-116 on one cell; a missing name stays missing. *)
Definition normalize (c : option Text) : option Text :=
  option_map (fun s => replace (strip s)) c.

(** A cell of the year column as read from the file: an integer, a float,
    a text, or a missing cell. *)
Inductive YearCell : Type :=
| YInt (z : Z)
| YFloat (q : Q)
| YText (s : string)
| YNull.

(** A row: its country and year cells and the cells of the other
    columns. *)
Record Row (P : Type) : Type := mkRow {
  country : option Text;
  year : YearCell;
  payload : P
}.
Arguments mkRow {P} _ _ _.
Arguments country {P} _.
Arguments year {P} _.
Arguments payload {P} _.

(** A file: whether it has a [country] and a [year] column (lines 110 and
    126), and its rows; the cells of an absent column are not looked at. *)
Record DataFrame (P : Type) : Type := mkFrame {
  has_country : bool;
  has_year : bool;
  rows : list (Row P)
}.
Arguments mkFrame {P} _ _ _.
Arguments has_country {P} _.
Arguments has_year {P} _.
Arguments rows {P} _.

Inductive error : Type :=
| AttributeError
| TypeError.

Inductive outcome (A : Type) : Type :=
| Saved (a : A)
| Failed (e : error).
Arguments Saved {A} _.
Arguments Failed {A} _.

Definition year_min : Q := 2000#1.
Definition year_max : Q := 2024#1.

Section Script.
Context {P : Type}.

(** What [pd.to_numeric] makes of a text cell: its number, or NaN. *)
Variable parse : string -> option Q.

(** Line 128: [pd.to_numeric(df['year'], errors='coerce')]. *)
Definition to_numeric (c : YearCell) : option Q :=
  match c with
  | YInt z => Some (inject_Z z)
  | YFloat q => Some q
  | YText s => parse s
  | YNull => None
  end.

(** Line 141: [(df['year'] >= year_min) & (df['year'] <= year_max)];
    a comparison with NaN is false. *)
Definition in_range (c : YearCell) : bool :=
  match to_numeric c with
  | Some q => Qle_bool year_min q && Qle_bool q year_max
  | None => false
  end.

(** Line 150: [astype('Int64')] on one value; a float that is not a whole
    number cannot be cast. *)
Definition to_int64 (c : YearCell) : option Z :=
  match to_numeric c with
  | Some q => if Qeq_bool q (inject_Z (Qfloor q)) then Some (Qfloor q) else None
  | None => None
  end.

(** Lines 110-116.  The [.str] accessor needs a text column: a column
    that holds nothing but missing cells is read as float64. *)
Definition standardize_countries (rs : list (Row P)) : outcome (list (Row P)) :=
  match rs with
  | [] => Saved []
  | _ =>
      if forallb (fun r => isnull (country r)) rs then Failed AttributeError
      else Saved (map (fun r => mkRow (normalize (country r)) (year r) (payload r)) rs)
  end.

Fixpoint cast_years (rs : list (Row P)) : outcome (list (Row P)) :=
  match rs with
  | [] => Saved []
  | r :: t =>
      match to_int64 (year r), cast_years t with
      | Some z, Saved t' => Saved (mkRow (country r) (YInt z) (payload r) :: t')
      | None, _ => Failed TypeError
      | _, Failed e => Failed e
      end
  end.

(** Lines 126-150. *)
Definition standardize_years (rs : list (Row P)) : outcome (list (Row P)) :=
  cast_years (filter (fun r => in_range (year r)) rs).

(** Lines 97-158: the frame written back for one file. *)
Definition standardize (df : DataFrame P) : outcome (DataFrame P) :=
  match (if has_country df then standardize_countries (rows df) else Saved (rows df)) with
  | Failed e => Failed e
  | Saved rs =>
      match (if has_year df then standardize_years rs else Saved rs) with
      | Failed e => Failed e
      | Saved rs' => Saved (mkFrame (has_country df) (has_year df) rs')
      end
  end.

(** Lines 131-147 of the report: the invalid years and the rows the year
    filter removes. *)
Definition invalid_years (rs : list (Row P)) : nat :=
  length (filter (fun r => isnull (to_numeric (year r))) rs).

Definition years_filtered (rs : list (Row P)) : nat :=
  length rs - length (filter (fun r => in_range (year r)) rs).

End Script.

End Standardization.

(** ** scripts/feature_engineering.py: the dummy variables *)

Module FeatureEngineering.
Import Frame.

(** [Series.median()]: the middle value of the non-missing values, the
    mean of the two middle ones when their number is even; NaN when there
    is none. *)
Definition median (l : list (option Q)) : option Q :=
  Winsorization.quantile (1#2) l.

(** [(df[col] > threshold).astype(int)]: a comparison with NaN is false. *)
Definition flag_above (threshold : option Q) (l : list (option Q)) : list Z :=
  map (fun c => if nan_ltb threshold c then 1%Z else 0%Z) l.

(** Lines 58-59. *)
Definition high_gdp_dummy (gdp_per_capita : list (option Q)) : list Z :=
  flag_above (median gdp_per_capita) gdp_per_capita.

(** Lines 74-75. *)
Definition high_invest_dummy (transit_investment_gdp : list (option Q)) : list Z :=
  flag_above (Winsorization.quantile (3#4) transit_investment_gdp) transit_investment_gdp.

(** Line 80. *)
Definition transit_invest_dummy (transit_investment_gdp : list (option Q)) : list Z :=
  flag_above (Some 0%Q) transit_investment_gdp.

(** The number of rows a dummy marks. *)
Definition marked (flags : list Z) : Z := fold_right Z.add 0%Z flags.

End FeatureEngineering.

(** ** Concrete tables used to run the scripts *)

Module Examples.
Import Frame.

(** A panel with two training years and one test year. *)
Definition split_panel : TrainTestSplit.DataFrame :=
  [TrainTestSplit.mkRow "Philippines" 2018 [Some (48#1)];
   TrainTestSplit.mkRow "Philippines" 2021 [Some (45#1)];
   TrainTestSplit.mkRow "Thailand" 2019 [None]].

(** A run in which the worldbank panel straddles the cut but the clean
    panel on disk only has years from 2020 on. *)
Definition stale_clean_panel : TrainTestSplit.Inputs :=
  TrainTestSplit.mkInputs
    (Some [TrainTestSplit.mkRow "Philippines" 2019 [];
           TrainTestSplit.mkRow "Philippines" 2020 []])
    (Some [TrainTestSplit.mkRow "Philippines" 2020 [];
           TrainTestSplit.mkRow "Philippines" 2021 []]).

(** The balancing scenario of the specification, scaled down: country A
    has three rows, country B one; the threshold used with it is two. *)
Definition balance_panel : PanelBalance.DataFrame :=
  [PanelBalance.mkRow "A" (Some 2001) [Some (1#1)];
   PanelBalance.mkRow "B" (Some 2001) [None];
   PanelBalance.mkRow "A" (Some 2002) [Some (2#1)];
   PanelBalance.mkRow "A" (Some 2003) [Some (3#1)]].

(** Country A with ten rows of which one has a blank year, country B with
    ten dated rows. *)
Definition blank_year_panel : PanelBalance.DataFrame :=
  map (fun y => PanelBalance.mkRow "A" (Some y) []) [2000; 2001; 2002; 2003; 2004;
                                                     2005; 2006; 2007; 2008]
  ++ [PanelBalance.mkRow "A" None []]
  ++ map (fun y => PanelBalance.mkRow "B" (Some y) []) [2000; 2001; 2002; 2003; 2004;
                                                        2005; 2006; 2007; 2008; 2009].

(** A one-row economic panel: a middle-income country "A" in 2020. *)
Definition wb_one : CongestionProxy.WBFrame :=
  CongestionProxy.mkWBFrame
    ["gdp_per_capita"; "urban_population_pct"; "population"]
    [CongestionProxy.mkWB "A" 2020 [Some (10000#1); Some 0%Q; Some (1000000#1)]].

(** One measured city of "A" in 2020, at 40 percent. *)
Definition tomtom_measured : list CongestionProxy.CityRow :=
  [CongestionProxy.mkCity "Alpha" "A" 2020 (Some (40#1)) (Some (14#10))].

(** The same city row with the congestion cell left empty. *)
Definition tomtom_blank : list CongestionProxy.CityRow :=
  [CongestionProxy.mkCity "Alpha" "A" 2020 None (Some (14#10))].

(** Twenty-one years of country "A" in the economic panel, the first
    twenty of them measured: enough joined rows for the Random Forest
    branch. *)
Definition years_2000_2020 : list Z := map Z.of_nat (seq 2000 21).

Definition wb_long : CongestionProxy.WBFrame :=
  CongestionProxy.mkWBFrame
    ["gdp_per_capita"; "urban_population_pct"; "population"]
    (map (fun y => CongestionProxy.mkWB "A" y
                     [Some (10000#1); Some (50#1); Some (1000000#1)])
         years_2000_2020).

Definition tomtom_long : list CongestionProxy.CityRow :=
  map (fun y => CongestionProxy.mkCity "Alpha" "A" y (Some (40#1)) (Some (14#10)))
      (firstn 20 years_2000_2020).

(** Two states of numpy's global generator: every draw 3, every draw 4. *)
Definition draws_three : nat -> Q := fun _ => 3%Q.
Definition draws_four : nat -> Q := fun _ => 4%Q.

(** A two-row economic panel without investment or proxy columns, the
    comprehensive congestion table for it, and a static OSM extract. *)
Definition merge_base : MergePanel.DataFrame :=
  MergePanel.mkFrame ["gdp_per_capita"; "pm25_annual_mean"]
    [MergePanel.mkRow "B" 2020 [Some (MergePanel.Num (900#1)); None];
     MergePanel.mkRow "A" 2020 [Some (MergePanel.Num (1000#1)); Some (MergePanel.Num (12#1))]].

Definition merge_congestion_table : MergePanel.DataFrame :=
  MergePanel.mkFrame
    ["congestion_level_pct"; "travel_time_index"; "estimation_method"; "data_source"]
    [MergePanel.mkRow "A" 2020
       [Some (MergePanel.Num (40#1)); Some (MergePanel.Num (14#10));
        Some (MergePanel.Str "actual_tomtom"); Some (MergePanel.Str "actual_tomtom")];
     MergePanel.mkRow "B" 2020
       [Some (MergePanel.Num (55#1)); Some (MergePanel.Num (155#100));
        Some (MergePanel.Str "rule_based"); Some (MergePanel.Str "rule_based")]].

Definition merge_overpass_table : MergePanel.StaticFrame :=
  MergePanel.mkStatic ["rail_km"; "note"]
    [MergePanel.mkStaticRow "A" [Some (MergePanel.Num (120#1)); Some (MergePanel.Str "osm")]].

Definition merge_inputs : MergePanel.Inputs :=
  MergePanel.mkInputs merge_base (Some merge_congestion_table) None None None None
                      (Some (MergePanel.Static merge_overpass_table)) None None None.

(** A file with a year column and one measurement column of two values. *)
Definition winsor_frame : Winsorization.DataFrame :=
  [("year", Winsorization.Integer [2000; 2001]);
   ("x", Winsorization.Numeric [Some 0%Q; Some (10#1)])].

(** A column of the 101 values 0, 1, ..., 100. *)
Definition winsor_centile : list (option Q) :=
  map (fun n => Some (inject_Z (Z.of_nat n))) (seq 0 101).

(** An int64 column with integers of 54 bits. *)
Definition winsor_int64 : Winsorization.DataFrame :=
  [("x", Winsorization.Integer [0; 9007199254740993; 9007199254740995])].

(** Country A observed in 2000 and 2001, country B never observed. *)
Definition missing_frame : MissingValues.DataFrame :=
  MissingValues.mkFrame ["A"; "B"; "A"] [2001; 2000; 2000]
    [("gdp_per_capita", MissingValues.Numeric [Some (3#1); None; Some (1#1)]);
     ("source", MissingValues.Object [Some "wb"; None; Some "wb"])].

(** The interpolation scenario of the specification. *)
Definition interpolation_frame : MissingValues.DataFrame :=
  MissingValues.mkFrame ["C"; "C"; "C"] [2020; 2021; 2022]
    [("gdp_per_capita", MissingValues.Numeric [Some (1000#1); None; Some (1200#1)])].

End Examples.

(** ** Statements the specification makes about the stages *)

Module Claims.
Import Frame.

(** *** Congestion proxy estimator *)

(** What both estimators deliver: one estimate per row of the economic
    panel, in order, each a number, all tagged with the method. *)
Definition estimates_for (wb : CongestionProxy.WBFrame) (method : string)
           (E : list CongestionProxy.Estimate) : Prop :=
  map CongestionProxy.e_key E = map CongestionProxy.wb_key (CongestionProxy.wb_rows wb) /\
  Forall (fun e => CongestionProxy.e_estimation_method e = method /\
                   CongestionProxy.e_congestion_level_pct e <> None) E.

Definition valid_data_source (s : string) : bool :=
  mem s ["actual_tomtom"; "ml_random_forest"; "rule_based"].

Definition rows_with_key (k : Key) (out : list CongestionProxy.Row)
  : list CongestionProxy.Row :=
  filter (fun r => key_eqb (CongestionProxy.key r) k) out.

(** Coverage totality as the specification words it: every key of the
    economic panel has exactly one output row, with a congestion value
    and a valid provenance tag. *)
Definition coverage_totality (wb : CongestionProxy.WBFrame)
           (out : list CongestionProxy.Row) : Prop :=
  forall w, In w (CongestionProxy.wb_rows wb) ->
    exists r, rows_with_key (CongestionProxy.wb_key w) out = [r] /\
              CongestionProxy.congestion_level_pct r <> None /\
              valid_data_source (CongestionProxy.data_source r) = true.

(** *** Panel merger *)

(** Every table that takes part in a join has pairwise distinct join keys:
    the base panel; the congestion table actually joined (the
    comprehensive one, else the raw traffic table); the modal-share table
    unless it is aggregated by the script (it has a city column); the
    static OSM extract by country, the other tables by (country, year). *)
Definition keys_unique (src : option MergePanel.DataFrame) : Prop :=
  match src with
  | Some t => NoDup (map MergePanel.key (MergePanel.rows t))
  | None => True
  end.

Definition unique_join_keys (inp : MergePanel.Inputs) : Prop :=
  NoDup (map MergePanel.key (MergePanel.rows (MergePanel.worldbank_data inp))) /\
  match MergePanel.congestion_comprehensive inp with
  | Some c => NoDup (map MergePanel.key (MergePanel.rows c))
  | None => keys_unique (MergePanel.tomtom_traffic_data inp)
  end /\
  match MergePanel.uitp_modal_share inp with
  | Some u => mem "city" (MergePanel.columns u) = true \/
              NoDup (map MergePanel.key (MergePanel.rows u))
  | None => True
  end /\
  keys_unique (MergePanel.psa_data inp) /\
  keys_unique (MergePanel.openaq_pm25 inp) /\
  match MergePanel.overpass_data inp with
  | Some (MergePanel.Static f) => NoDup (map MergePanel.s_country (MergePanel.s_rows f))
  | Some (MergePanel.Yearly f) => NoDup (map MergePanel.key (MergePanel.rows f))
  | None => True
  end /\
  keys_unique (MergePanel.ltfrb_data inp) /\
  keys_unique (MergePanel.jica_mrt_lrt inp) /\
  keys_unique (MergePanel.adb_projects inp).

(** Column [c] is present and holds [v] in every row. *)
Definition holds (c : string) (v : MergePanel.Cell) (df : MergePanel.DataFrame) : Prop :=
  mem c (MergePanel.columns df) = true /\
  Forall (fun r => MergePanel.get (MergePanel.columns df) (MergePanel.cells r) c = v)
         (MergePanel.rows df).

(** The column holds the number 0 in every row. *)
Definition all_zero (col : string) (df : MergePanel.DataFrame) : Prop :=
  Forall (fun r => MergePanel.get (MergePanel.columns df) (MergePanel.cells r) col
                   = Some (MergePanel.Num 0))
         (MergePanel.rows df).

(** *** Winsorizer *)

(** Idempotence as the specification words it: a second pass over the
    file gives the values of the first. *)
Definition winsorize_idempotent (df : Winsorization.DataFrame) : Prop :=
  Winsorization.frame_eqb (Winsorization.winsorize (Winsorization.winsorize df))
                          (Winsorization.winsorize df) = true.

(** *** Missing-value handler *)

Definition null_free (l : list (option Q)) : Prop := Forall (fun c => c <> None) l.
Definition all_null (l : list (option Q)) : Prop := Forall (fun c => c = None) l.

(** [l'] keeps every value of [l] where it stands and may fill gaps. *)
Definition extends {A : Type} (l l' : list (option A)) : Prop :=
  Forall2 (fun a b => a <> None -> b = a) l l'.

Definition column_length (c : MissingValues.Column) : nat :=
  match c with
  | MissingValues.Numeric l => length l
  | MissingValues.Object l => length l
  end.

(** Every column has one cell per row. *)
Definition rectangular (df : MissingValues.DataFrame) : Prop :=
  length (MissingValues.year df) = length (MissingValues.country df) /\
  Forall (fun nc => column_length (snd nc) = length (MissingValues.country df))
         (MissingValues.columns df).

(** The guarantee as the specification words it: after the handler, a
    cell of a numeric column is missing exactly when its country has no
    observation at all in that column. *)
Definition structural_nulls_only (df : MissingValues.DataFrame) : Prop :=
  let s := MissingValues.sort_frame df in
  forall name l l',
    In (name, MissingValues.Numeric l) (MissingValues.columns s) ->
    MissingValues.handle_column (MissingValues.country s) name (MissingValues.Numeric l)
      = MissingValues.Numeric l' ->
    forall i c,
      nth_error (MissingValues.country s) i = Some c ->
      (nth_error l' i = Some None <->
       MissingValues.no_observation (MissingValues.country s) c l = true).

(** *** Panel balancer *)

(** The row count of a country in a panel. *)
Definition row_count (c : string) (df : PanelBalance.DataFrame) : nat :=
  count_occ string_dec (map PanelBalance.country df) c.

(** The rows of a panel whose year cell is filled, and the number of such
    rows of a country. *)
Definition dated (df : PanelBalance.DataFrame) : PanelBalance.DataFrame :=
  filter (fun r => match PanelBalance.year r with Some _ => true | None => false end) df.

Definition dated_row_count (c : string) (df : PanelBalance.DataFrame) : nat :=
  row_count c (dated df).

(** The balance threshold as the specification words it: a country with a
    row in the balanced panel has at least [threshold] rows in the panel
    before balancing, a country without one has fewer. *)
Definition balance_threshold (threshold : nat) (df out : PanelBalance.DataFrame) : Prop :=
  (forall c, In c (map PanelBalance.country out) -> (threshold <= row_count c df)%nat) /\
  (forall c, In c (map PanelBalance.country df) ->
             ~ In c (map PanelBalance.country out) ->
             (row_count c df < threshold)%nat).

End Claims.

(** ** Relations used to state further properties *)

Module Properties.
Import Frame.

(** Row [r] of [df'] is row [l] of [df] with more columns: same key, and
    every column of [df] reads the same. *)
Definition same_left (df df' : MergePanel.DataFrame) (l r : MergePanel.Row) : Prop :=
  MergePanel.key r = MergePanel.key l /\
  forall c, mem c (MergePanel.columns df) = true ->
    MergePanel.get (MergePanel.columns df') (MergePanel.cells r) c
    = MergePanel.get (MergePanel.columns df) (MergePanel.cells l) c.

(** [df'] keeps the columns of [df], every row of [df'] extends a row of
    [df], and every row of [df] is extended by a row of [df']. *)
Definition keeps_left (df df' : MergePanel.DataFrame) : Prop :=
  (forall c, mem c (MergePanel.columns df) = true ->
             mem c (MergePanel.columns df') = true) /\
  (forall r, In r (MergePanel.rows df') ->
     exists l, In l (MergePanel.rows df) /\ same_left df df' l r) /\
  (forall l, In l (MergePanel.rows df) ->
     exists r, In r (MergePanel.rows df') /\ same_left df df' l r).

(** The two frames have no column name in common. *)
Definition disjoint_columns (df other : MergePanel.DataFrame) : Prop :=
  forall c, mem c (MergePanel.columns df) = true ->
            mem c (MergePanel.columns other) = false.

(** Column [c'] of [df'] is present and carries, row by row, the values
    column [c] has in [df]: every row of [df'] has a row of [df] with the
    same key and the same value. *)
Definition tracks (c c' : string) (df df' : MergePanel.DataFrame) : Prop :=
  mem c' (MergePanel.columns df') = true /\
  forall r', In r' (MergePanel.rows df') ->
    exists r, In r (MergePanel.rows df) /\
              MergePanel.key r = MergePanel.key r' /\
              MergePanel.get (MergePanel.columns df') (MergePanel.cells r') c'
              = MergePanel.get (MergePanel.columns df) (MergePanel.cells r) c.

(** The value of the latest earlier row of country [c]; [prev] lists the
    earlier rows, latest first. *)
Definition last_of (c : string) (prev : list (string * MergePanel.Cell)) : MergePanel.Cell :=
  match find (fun p => String.eqb (fst p) c) prev with
  | Some p => snd p
  | None => None
  end.

(** Cell [b] is cell [a] clipped to [lo, hi]: a missing cell stays
    missing; a value inside the range is kept, a value below becomes [lo],
    a value above becomes [hi]. *)
Definition clipped (lo hi : Q) (a b : option Q) : Prop :=
  match a, b with
  | None, None => True
  | Some x, Some y =>
      (lo <= y <= hi)%Q /\
      ((lo <= x <= hi)%Q -> y = x) /\
      ((x < lo)%Q -> y = lo) /\
      ((hi < x)%Q -> y = hi)
  | _, _ => False
  end.

(** The text does not start with a blank. *)
Definition clean_head (s : Standardization.Text) : Prop :=
  match s with
  | [] => True
  | c :: _ => Standardization.is_space c = false
  end.

End Properties.

(** ** Further sample inputs *)

Module MoreExamples.

(** Investment shares with a gap: country A is observed in 2001 and 2003. *)
Definition lag_frame : MergePanel.DataFrame :=
  MergePanel.mkFrame ["transit_investment_gdp"]
    [MergePanel.mkRow "A" 2003 [Some (MergePanel.Num (7#1))];
     MergePanel.mkRow "B" 2001 [Some (MergePanel.Num (1#1))];
     MergePanel.mkRow "A" 2001 [Some (MergePanel.Num (5#1))]].

(** A merged frame carrying the congestion columns. *)
Definition merged_frame : MergePanel.DataFrame :=
  MergePanel.mkFrame ["gdp_per_capita"; "congestion_level_pct"; "data_source"]
    [MergePanel.mkRow "B" 2020
       [Some (MergePanel.Num (900#1)); Some (MergePanel.Num (55#1));
        Some (MergePanel.Str "rule_based")];
     MergePanel.mkRow "A" 2020
       [Some (MergePanel.Num (1000#1)); Some (MergePanel.Num (40#1));
        Some (MergePanel.Str "actual_tomtom")]].

(** A file with aliases (one of them followed by a no-break space), a
    year out of range, a year that is not a number and a whole year stored
    as a float; text years are not numbers here. *)
Definition raw_file : Standardization.DataFrame unit :=
  Standardization.mkFrame true true
    [Standardization.mkRow (Some (Standardization.text " PH "))
                           (Standardization.YInt 2020) tt;
     Standardization.mkRow (Some (Standardization.text "Korea"))
                           (Standardization.YFloat (1999#1)) tt;
     Standardization.mkRow None (Standardization.YText "n/a") tt;
     Standardization.mkRow (Some (Standardization.text "USA" ++ [160%N]))
                           (Standardization.YFloat (2024#1)) tt].

Definition no_parse (s : string) : option Q := None.

End MoreExamples.

(** * Properties *)

(** ** Sorting and duplicate removal *)

Section SortFacts.
Import Frame.
Context {A : Type} (leb : A -> A -> bool).

Lemma insert_perm (x : A) (l : list A) :
  Permutation (insert leb x l) (x :: l).
Proof.
  induction l as [|y t IH]; simpl.
  - apply Permutation_refl.
  - destruct (leb x y).
    + apply Permutation_refl.
    + eapply perm_trans; [apply perm_skip, IH | apply perm_swap].
Qed.

Lemma sort_values_perm (l : list A) : Permutation (sort_values leb l) l.
Proof.
  induction l as [|x t IH]; simpl.
  - constructor.
  - eapply perm_trans; [apply insert_perm | apply perm_skip, IH].
Qed.

Lemma sort_values_In (l : list A) (x : A) : In x (sort_values leb l) <-> In x l.
Proof.
  split; apply Permutation_in;
    [apply sort_values_perm | apply Permutation_sym, sort_values_perm].
Qed.

Lemma sort_values_length (l : list A) : length (sort_values leb l) = length l.
Proof. apply Permutation_length, sort_values_perm. Qed.

Hypothesis leb_total : forall a b, leb a b = true \/ leb b a = true.
Hypothesis leb_trans : forall a b c, leb a b = true -> leb b c = true -> leb a c = true.

Let le (a b : A) : Prop := leb a b = true.

Lemma insert_sorted (x : A) (l : list A) :
  StronglySorted le l -> StronglySorted le (insert leb x l).
Proof.
  induction l as [|y t IH]; simpl; intros Hs.
  - repeat constructor.
  - inversion Hs as [|? ? Ht Hy]; subst.
    destruct (leb x y) eqn:E.
    + constructor; [assumption|].
      constructor; [exact E|].
      eapply Forall_impl; [|exact Hy].
      intros z Hz. eapply leb_trans; eassumption.
    + constructor; [apply IH; assumption|].
      assert (Hyx : le y x) by (destruct (leb_total x y); [congruence | assumption]).
      apply Forall_forall. intros z Hz.
      apply (Permutation_in _ (insert_perm x t)) in Hz.
      destruct Hz as [<-|Hz]; [exact Hyx|].
      rewrite Forall_forall in Hy. apply Hy, Hz.
Qed.

Lemma sort_values_sorted (l : list A) : StronglySorted le (sort_values leb l).
Proof.
  induction l as [|x t IH]; simpl.
  - constructor.
  - apply insert_sorted, IH.
Qed.
End SortFacts.

Section DedupFacts.
Import Frame.
Context {A : Type} (key : A -> Key).

Lemma key_eqb_eq (a b : Key) : key_eqb a b = true <-> a = b.
Proof.
  unfold key_eqb. destruct a as [c y], b as [c' y']; simpl.
  rewrite andb_true_iff, String.eqb_eq, Z.eqb_eq.
  split; [intros [-> ->]; reflexivity | intros E; inversion E; auto].
Qed.

Lemma seen_spec (k : Key) (seen : list Key) :
  existsb (key_eqb k) seen = true <-> In k seen.
Proof.
  rewrite existsb_exists. split.
  - intros [x [Hx E]]. apply key_eqb_eq in E. subst. exact Hx.
  - intros H. exists k. split; [exact H | apply key_eqb_eq; reflexivity].
Qed.

(** A row survives [drop_duplicates] exactly when it is the first row of
    its key. *)
Lemma drop_duplicates_from_first (seen : list Key) (l : list A) (r : A) :
  In r (drop_duplicates_from key seen l) ->
  ~ In (key r) seen /\
  exists l1 l2, l = l1 ++ r :: l2 /\ Forall (fun x => key x <> key r) l1.
Proof.
  revert seen. induction l as [|x t IH]; simpl; intros seen H; [contradiction|].
  destruct (existsb (key_eqb (key x)) seen) eqn:E.
  - destruct (IH _ H) as [Hn [l1 [l2 [-> Hf]]]].
    split; [exact Hn|].
    exists (x :: l1), l2. split; [reflexivity|].
    constructor; [|exact Hf].
    intros Heq. apply Hn. rewrite <- Heq. apply seen_spec, E.
  - destruct H as [<-|H].
    + split.
      * intros Hin. apply seen_spec in Hin. congruence.
      * exists [], t. split; [reflexivity | constructor].
    + destruct (IH _ H) as [Hn [l1 [l2 [-> Hf]]]].
      split; [intros Hin; apply Hn; right; exact Hin|].
      exists (x :: l1), l2. split; [reflexivity|].
      constructor; [|exact Hf].
      intros Heq. apply Hn. left. exact Heq.
Qed.

Lemma drop_duplicates_first (l : list A) (r : A) :
  In r (drop_duplicates key l) ->
  exists l1 l2, l = l1 ++ r :: l2 /\ Forall (fun x => key x <> key r) l1.
Proof. intros H. apply (drop_duplicates_from_first [] l r H). Qed.

Lemma drop_duplicates_from_incl (seen : list Key) (l : list A) (r : A) :
  In r (drop_duplicates_from key seen l) -> In r l.
Proof.
  revert seen. induction l as [|x t IH]; simpl; intros seen H; [exact H|].
  destruct (existsb (key_eqb (key x)) seen).
  - right. eapply IH, H.
  - destruct H as [H|H]; [left; exact H | right; eapply IH, H].
Qed.

(** Keys of the result are pairwise distinct and avoid [seen]. *)
Lemma drop_duplicates_from_NoDup (seen : list Key) (l : list A) :
  NoDup (map key (drop_duplicates_from key seen l)) /\
  Forall (fun r => ~ In (key r) seen) (drop_duplicates_from key seen l).
Proof.
  revert seen. induction l as [|x t IH]; simpl; intros seen.
  - split; constructor.
  - destruct (existsb (key_eqb (key x)) seen) eqn:E; [apply IH|].
    destruct (IH (key x :: seen)) as [Hnd Hf]. simpl. split.
    + constructor; [|exact Hnd].
      intros Hin. apply in_map_iff in Hin. destruct Hin as [y [Hy Hin]].
      rewrite Forall_forall in Hf. apply (Hf y Hin). left. symmetry. exact Hy.
    + constructor.
      * intros Hin. apply seen_spec in Hin. congruence.
      * eapply Forall_impl; [|exact Hf]. intros y Hy Hin. apply Hy. right. exact Hin.
Qed.

Lemma drop_duplicates_NoDup (l : list A) : NoDup (map key (drop_duplicates key l)).
Proof. apply (drop_duplicates_from_NoDup [] l). Qed.

(** Every key that is not yet seen keeps one row. *)
Lemma drop_duplicates_from_complete (seen : list Key) (l : list A) (r : A) :
  In r l -> ~ In (key r) seen ->
  exists r', In r' (drop_duplicates_from key seen l) /\ key r' = key r.
Proof.
  revert seen. induction l as [|x t IH]; simpl; intros seen H Hn; [contradiction|].
  destruct (existsb (key_eqb (key x)) seen) eqn:E.
  - destruct H as [<-|H]; [apply seen_spec in E; contradiction|].
    apply IH; assumption.
  - destruct (key_eqb (key x) (key r)) eqn:Ek.
    + apply key_eqb_eq in Ek. exists x. split; [left; reflexivity | exact Ek].
    + destruct H as [<-|H].
      * exists x. split; [left; reflexivity | reflexivity].
      * destruct (IH (key x :: seen) H) as [r' [Hin Hk]].
        -- intros [Heq|Hin]; [|contradiction].
           rewrite Heq in Ek.
           assert (key_eqb (key r) (key r) = true) by (apply key_eqb_eq; reflexivity).
           congruence.
        -- exists r'. split; [right; exact Hin | exact Hk].
Qed.

Lemma drop_duplicates_complete (l : list A) (r : A) :
  In r l -> exists r', In r' (drop_duplicates key l) /\ key r' = key r.
Proof. intros H. apply (drop_duplicates_from_complete [] l r H). intros []. Qed.
End DedupFacts.

Section ListFacts.
Import Frame.

Lemma dropna_In {A : Type} (l : list (option A)) (x : A) :
  In x (dropna l) <-> In (Some x) l.
Proof.
  induction l as [|[y|] t IH]; simpl; [tauto| |].
  - rewrite IH. split; intros [H|H]; auto; left; congruence.
  - rewrite IH. split; [auto | intros [H|H]; [discriminate | exact H]].
Qed.

Lemma Forall2_In_r {A B : Type} (R : A -> B -> Prop) (l : list A) (l' : list B) (y : B) :
  Forall2 R l l' -> In y l' -> exists x, In x l /\ R x y.
Proof.
  induction 1 as [|a b s t Hab _ IH]; simpl; [tauto|].
  intros [<-|Hy]; [exists a; auto|].
  destruct (IH Hy) as [x [Hx Hr]]. exists x. auto.
Qed.

Lemma Forall2_In_l {A B : Type} (R : A -> B -> Prop) (l : list A) (l' : list B) (x : A) :
  Forall2 R l l' -> In x l -> exists y, In y l' /\ R x y.
Proof.
  induction 1 as [|a b s t Hab _ IH]; simpl; [tauto|].
  intros [<-|Hx]; [exists b; auto|].
  destruct (IH Hx) as [y [Hy Hr]]. exists y. auto.
Qed.
End ListFacts.


(** ** Sort orders *)

Section OrderFacts.
Import Order.

Lemma cmp_refl {A : Type} (cmp : A -> A -> comparison) (H : CmpOk cmp) (a : A) :
  cmp a a = Eq.
Proof.
  pose proof (cmp_antisym cmp H a a) as E.
  destruct (cmp a a); simpl in E; congruence.
Qed.

Lemma cmp_eq_r {A : Type} (cmp : A -> A -> comparison) (H : CmpOk cmp) (a b c : A) :
  cmp b c = Eq -> cmp a b = cmp a c.
Proof.
  intros E.
  rewrite (cmp_antisym cmp H a b), (cmp_antisym cmp H a c).
  f_equal. apply (cmp_eq_l cmp H). exact E.
Qed.

Lemma lex_ok {A X Y : Type} (f : A -> X) (g : A -> Y)
      (c1 : X -> X -> comparison) (c2 : Y -> Y -> comparison) :
  CmpOk c1 -> CmpOk c2 -> CmpOk (lex f g c1 c2).
Proof.
  intros H1 H2. constructor; unfold lex.
  - intros a b. rewrite (cmp_antisym c1 H1 (f a) (f b)).
    destruct (c1 (f b) (f a)); simpl; [apply (cmp_antisym c2 H2) | reflexivity..].
  - intros a b c E.
    destruct (c1 (f a) (f b)) eqn:E1; try discriminate.
    rewrite (cmp_eq_l c1 H1 _ _ (f c) E1).
    destruct (c1 (f b) (f c)); [apply (cmp_eq_l c2 H2); exact E | reflexivity..].
  - intros a b c Eab Ebc.
    destruct (c1 (f a) (f b)) eqn:E1; try discriminate;
      destruct (c1 (f b) (f c)) eqn:E2; try discriminate.
    + rewrite (cmp_eq_l c1 H1 _ _ (f c) E1), E2.
      eapply (cmp_lt_trans c2 H2); eassumption.
    + rewrite (cmp_eq_l c1 H1 _ _ (f c) E1), E2. reflexivity.
    + rewrite <- (cmp_eq_r c1 H1 (f a) _ _ E2), E1. reflexivity.
    + rewrite (cmp_lt_trans c1 H1 _ _ _ E1 E2). reflexivity.
Qed.

Lemma leb_of_total {A : Type} (cmp : A -> A -> comparison) (H : CmpOk cmp) (a b : A) :
  leb_of cmp a b = true \/ leb_of cmp b a = true.
Proof.
  unfold leb_of. rewrite (cmp_antisym cmp H a b).
  destruct (cmp b a); simpl; auto.
Qed.

Lemma leb_of_trans {A : Type} (cmp : A -> A -> comparison) (H : CmpOk cmp) (a b c : A) :
  leb_of cmp a b = true -> leb_of cmp b c = true -> leb_of cmp a c = true.
Proof.
  unfold leb_of. intros Hab Hbc.
  destruct (cmp a b) eqn:E1; try discriminate.
  - rewrite (cmp_eq_l cmp H _ _ c E1). exact Hbc.
  - destruct (cmp b c) eqn:E2; try discriminate.
    + rewrite <- (cmp_eq_r cmp H a _ _ E2), E1. reflexivity.
    + rewrite (cmp_lt_trans cmp H _ _ _ E1 E2). reflexivity.
Qed.

Lemma Z_compare_ok : CmpOk Z.compare.
Proof.
  constructor.
  - intros a b. apply Z.compare_antisym.
  - intros a b c E. apply Z.compare_eq in E. subst. reflexivity.
  - intros a b c. rewrite !Z.compare_lt_iff. lia.
Qed.

Lemma ascii_compare_ok : CmpOk Ascii.compare.
Proof.
  constructor.
  - intros a b. apply Ascii.compare_antisym.
  - intros a b c E. apply Ascii.compare_eq_iff in E. subst. reflexivity.
  - intros a b c. unfold Ascii.compare. rewrite !N.compare_lt_iff. lia.
Qed.

Lemma string_compare_lt_trans (a b c : string) :
  String.compare a b = Lt -> String.compare b c = Lt -> String.compare a c = Lt.
Proof.
  revert b c. induction a as [|x a IH]; intros [|y b] [|z c]; simpl;
    try discriminate; try reflexivity.
  intros Hab Hbc.
  destruct (Ascii.compare x y) eqn:E1; try discriminate;
    destruct (Ascii.compare y z) eqn:E2; try discriminate.
  - rewrite (cmp_eq_l _ ascii_compare_ok _ _ z E1), E2. eapply IH; eassumption.
  - rewrite (cmp_eq_l _ ascii_compare_ok _ _ z E1), E2. reflexivity.
  - rewrite <- (cmp_eq_r _ ascii_compare_ok x _ _ E2), E1. reflexivity.
  - rewrite (cmp_lt_trans _ ascii_compare_ok _ _ _ E1 E2). reflexivity.
Qed.

Lemma string_compare_ok : CmpOk String.compare.
Proof.
  constructor.
  - intros a b. apply String.compare_antisym.
  - intros a b c E. apply String.compare_eq_iff in E. subst. reflexivity.
  - apply string_compare_lt_trans.
Qed.

Lemma key_compare_ok : CmpOk Frame.key_compare.
Proof.
  apply (lex_ok (@fst string Z) (@snd string Z) String.compare Z.compare
                string_compare_ok Z_compare_ok).
Qed.

Lemma key_compare_eq (a b : Frame.Key) : Frame.key_compare a b = Eq <-> a = b.
Proof.
  split.
  - unfold Frame.key_compare. destruct a as [c y], b as [c' y']; simpl.
    destruct (String.compare c c') eqn:E; try discriminate.
    intros E2. apply String.compare_eq_iff in E. apply Z.compare_eq in E2.
    subst. reflexivity.
  - intros ->. apply (cmp_refl _ key_compare_ok).
Qed.

Lemma string_leb_total (a b : string) : String.leb a b = true \/ String.leb b a = true.
Proof. apply (leb_of_total _ string_compare_ok). Qed.

Lemma string_leb_trans (a b c : string) :
  String.leb a b = true -> String.leb b c = true -> String.leb a c = true.
Proof. apply (leb_of_trans _ string_compare_ok). Qed.
End OrderFacts.

(** ** Time-based splitter *)

Section SplitFacts.
Import Frame TrainTestSplit.

Lemma fold_max_ge (l : list Z) (a : Z) :
  a <= fold_left Z.max l a /\ Forall (fun y => y <= fold_left Z.max l a) l.
Proof.
  revert a. induction l as [|x t IH]; simpl; intros a.
  - split; [lia | constructor].
  - destruct (IH (Z.max a x)) as [H1 H2]. split; [lia|].
    constructor; [lia | exact H2].
Qed.

Lemma fold_min_le (l : list Z) (a : Z) :
  fold_left Z.min l a <= a /\ Forall (fun y => fold_left Z.min l a <= y) l.
Proof.
  revert a. induction l as [|x t IH]; simpl; intros a.
  - split; [lia | constructor].
  - destruct (IH (Z.min a x)) as [H1 H2]. split; [lia|].
    constructor; [lia | exact H2].
Qed.

Lemma fold_max_In (l : list Z) (a : Z) : In (fold_left Z.max l a) (a :: l).
Proof.
  revert a. induction l as [|x t IH]; simpl; intros a; [left; reflexivity|].
  destruct (IH (Z.max a x)) as [H|H].
  - destruct (Z.max_spec a x) as [[_ E]|[_ E]]; rewrite E in *; auto.
  - right. right. exact H.
Qed.

Lemma fold_min_In (l : list Z) (a : Z) : In (fold_left Z.min l a) (a :: l).
Proof.
  revert a. induction l as [|x t IH]; simpl; intros a; [left; reflexivity|].
  destruct (IH (Z.min a x)) as [H|H].
  - destruct (Z.min_spec a x) as [[_ E]|[_ E]]; rewrite E in *; auto.
  - right. right. exact H.
Qed.

(** [year_max] is the year of some row and bounds every row. *)
Lemma year_max_spec (df : DataFrame) (m : Z) :
  year_max df = Some m ->
  In m (map year df) /\ Forall (fun r => year r <= m) df.
Proof.
  destruct df as [|r t]; simpl; [discriminate|].
  intros E. injection E as <-. split.
  - apply (fold_max_In (map year t) (year r)).
  - destruct (fold_max_ge (map year t) (year r)) as [H1 H2].
    constructor; [exact H1|].
    rewrite Forall_map in H2. exact H2.
Qed.

Lemma year_min_spec (df : DataFrame) (m : Z) :
  year_min df = Some m ->
  In m (map year df) /\ Forall (fun r => m <= year r) df.
Proof.
  destruct df as [|r t]; simpl; [discriminate|].
  intros E. injection E as <-. split.
  - apply (fold_min_In (map year t) (year r)).
  - destruct (fold_min_le (map year t) (year r)) as [H1 H2].
    constructor; [exact H1|].
    rewrite Forall_map in H2. exact H2.
Qed.

Lemma train_of_In (s : Z) (df : DataFrame) (r : Row) :
  In r (train_of s df) <-> In r df /\ year r < s.
Proof. unfold train_of. rewrite filter_In, Z.ltb_lt. reflexivity. Qed.

Lemma test_of_In (s : Z) (df : DataFrame) (r : Row) :
  In r (test_of s df) <-> In r df /\ s <= year r.
Proof. unfold test_of. rewrite filter_In, Z.geb_le. reflexivity. Qed.

(** The two filters partition the frame. *)
Lemma split_partition (s : Z) (df : DataFrame) :
  Permutation (train_of s df ++ test_of s df) df.
Proof.
  unfold train_of, test_of. induction df as [|r t IH]; simpl; [constructor|].
  rewrite Z.geb_leb. destruct (Z.ltb_spec (year r) s) as [Hlt|Hge].
  - replace (s <=? year r) with false by (symmetry; apply Z.leb_gt; lia).
    simpl. apply perm_skip, IH.
  - replace (s <=? year r) with true by (symmetry; apply Z.leb_le; lia).
    apply Permutation_sym.
    eapply perm_trans; [apply perm_skip, Permutation_sym, IH|].
    apply Permutation_middle.
Qed.

Lemma split_no_leakage (s : Z) (df : DataFrame) :
  train_of s df <> [] -> test_of s df <> [] ->
  no_leakage (train_of s df) (test_of s df) = true.
Proof.
  intros Htr Hte. unfold no_leakage.
  destruct (year_max (train_of s df)) as [a|] eqn:Ea;
    [|destruct (train_of s df); [congruence | discriminate]].
  destruct (year_min (test_of s df)) as [b|] eqn:Eb;
    [|destruct (test_of s df); [congruence | discriminate]].
  apply year_max_spec in Ea. destruct Ea as [Ha _].
  apply year_min_spec in Eb. destruct Eb as [Hb _].
  apply in_map_iff in Ha. destruct Ha as [ra [<- Hra]].
  apply in_map_iff in Hb. destruct Hb as [rb [<- Hrb]].
  apply train_of_In in Hra. apply test_of_In in Hrb.
  apply Z.ltb_lt. lia.
Qed.
End SplitFacts.

(** C3 — time-based split correctness and no leakage.  For every panel and
    every split year: the train set is the sub-list of rows with
    [year < split_year], the test set the sub-list with
    [year >= split_year]; a row is in the train (test) set exactly when it
    is in the panel and its year is below (at or above) the cut, the two
    sets together are the panel, every train year is below every test year,
    and when both sets are non-empty [max(train.year) < min(test.year)]. *)
Theorem C3_time_split_no_leakage :
  forall (s : Z) (df : TrainTestSplit.DataFrame),
    let train := TrainTestSplit.train_of s df in
    let test := TrainTestSplit.test_of s df in
    train = filter (fun r => TrainTestSplit.year r <? s) df /\
    test = filter (fun r => negb (TrainTestSplit.year r <? s)) df /\
    (forall r, In r train <-> In r df /\ TrainTestSplit.year r < s) /\
    (forall r, In r test <-> In r df /\ s <= TrainTestSplit.year r) /\
    Permutation (train ++ test) df /\
    Forall (fun r => TrainTestSplit.year r < s) train /\
    Forall (fun r => s <= TrainTestSplit.year r) test /\
    (train <> [] -> test <> [] ->
     exists a b, TrainTestSplit.year_max train = Some a /\
                 TrainTestSplit.year_min test = Some b /\ a < b).
Proof.
  intros s df train test. subst train test.
  split; [reflexivity|].
  split.
  { unfold TrainTestSplit.test_of. apply filter_ext. intros r.
    rewrite Z.geb_leb. destruct (Z.ltb_spec (TrainTestSplit.year r) s);
      [apply Z.leb_gt | apply Z.leb_le]; lia. }
  split; [intros r; apply train_of_In|].
  split; [intros r; apply test_of_In|].
  split; [apply split_partition|].
  split; [apply Forall_forall; intros r Hr; apply train_of_In in Hr; tauto|].
  split; [apply Forall_forall; intros r Hr; apply test_of_In in Hr; tauto|].
  intros Htr Hte.
  pose proof (split_no_leakage s df Htr Hte) as H.
  unfold TrainTestSplit.no_leakage in H.
  destruct (TrainTestSplit.year_max _) as [a|]; [|discriminate].
  destruct (TrainTestSplit.year_min _) as [b|]; [|discriminate].
  exists a, b. repeat split. apply Z.ltb_lt, H.
Qed.

Lemma C3_time_split_witness :
  exists a b,
    TrainTestSplit.year_max (TrainTestSplit.train_of 2020 Examples.split_panel) = Some a /\
    TrainTestSplit.year_min (TrainTestSplit.test_of 2020 Examples.split_panel) = Some b /\
    a < b.
Proof.
  apply (C3_time_split_no_leakage 2020 Examples.split_panel); simpl; discriminate.
Defined.

(** The worldbank split is written only after the leakage assertion has
    passed. *)
Lemma worldbank_split_checked (inp : TrainTestSplit.Inputs) (tr te : TrainTestSplit.DataFrame) :
  TrainTestSplit.csv_written "worldbank_train.csv"
    (TrainTestSplit.written (TrainTestSplit.script inp)) = Some tr ->
  TrainTestSplit.csv_written "worldbank_test.csv"
    (TrainTestSplit.written (TrainTestSplit.script inp)) = Some te ->
  TrainTestSplit.no_leakage tr te = true.
Proof.
  unfold TrainTestSplit.script, TrainTestSplit.split_worldbank.
  destruct inp as [[df|] cp]; simpl.
  - destruct (Nat.eqb (length df) 0); simpl; [discriminate|].
    destruct (TrainTestSplit.no_leakage _ _) eqn:E; simpl; [|discriminate].
    unfold TrainTestSplit.split_clean_panel; simpl.
    destruct cp as [dc|]; simpl; intros H1 H2;
      injection H1 as <-; injection H2 as <-; exact E.
  - unfold TrainTestSplit.split_clean_panel; simpl.
    destruct cp as [dc|]; simpl; discriminate.
Qed.

(** C8 — the clean-panel split is persisted without the leakage check: on
    [Examples.stale_clean_panel] the script raises nothing and writes
    [clean_panel_train.csv] (empty) and [clean_panel_test.csv], although
    the assertion the worldbank split must pass,
    [train['year'].max() < test['year'].min()], is false on them. *)
Theorem C8_clean_panel_split_unchecked :
  let out := TrainTestSplit.script Examples.stale_clean_panel in
  TrainTestSplit.raised out = None /\
  exists tr te,
    TrainTestSplit.csv_written "clean_panel_train.csv" (TrainTestSplit.written out) = Some tr /\
    TrainTestSplit.csv_written "clean_panel_test.csv" (TrainTestSplit.written out) = Some te /\
    TrainTestSplit.no_leakage tr te = false.
Proof.
  simpl. split; [reflexivity|].
  eexists. eexists. repeat split.
Qed.

(** ** Panel balancer *)

Section BalanceFacts.
Import Frame PanelBalance.

Lemma mem_In (x : string) (xs : list string) : mem x xs = true <-> In x xs.
Proof.
  unfold mem. rewrite existsb_exists. split.
  - intros [y [Hy E]]. apply String.eqb_eq in E. subst. exact Hy.
  - intros H. exists x. split; [exact H | apply String.eqb_refl].
Qed.

Lemma groups_In (df : DataFrame) (c : string) :
  In c (groups df) <-> In c (map country df).
Proof. unfold groups. rewrite sort_values_In, nodup_In. reflexivity. Qed.

Lemma country_counts_In (df : DataFrame) (c : string) (k : nat) :
  In (c, k) (country_counts df) <-> In c (map country df) /\ k = count c df.
Proof.
  unfold country_counts. rewrite sort_values_In, in_map_iff. split.
  - intros [c' [E H]]. injection E as -> <-. apply groups_In in H. auto.
  - intros [H ->]. exists c. split; [reflexivity | apply groups_In, H].
Qed.

Lemma valid_countries_In (n : nat) (df : DataFrame) (c : string) :
  In c (valid_countries n df) <-> In c (map country df) /\ (n <= count c df)%nat.
Proof.
  unfold valid_countries. rewrite in_map_iff. split.
  - intros [[c' k] [E H]]. simpl in E. subst c'.
    apply filter_In in H. destruct H as [H Hk]. simpl in Hk.
    apply country_counts_In in H. destruct H as [H ->].
    apply Nat.leb_le in Hk. auto.
  - intros [H Hk]. exists (c, count c df). split; [reflexivity|].
    apply filter_In. split; [apply country_counts_In; auto|].
    simpl. apply Nat.leb_le, Hk.
Qed.

Lemma filtered_countries_In (n : nat) (df : DataFrame) (c : string) :
  In c (filtered_countries n df) <-> In c (map country df) /\ (count c df < n)%nat.
Proof.
  unfold filtered_countries. rewrite in_map_iff. split.
  - intros [[c' k] [E H]]. simpl in E. subst c'.
    apply filter_In in H. destruct H as [H Hk]. simpl in Hk.
    apply country_counts_In in H. destruct H as [H ->].
    apply Nat.ltb_lt in Hk. auto.
  - intros [H Hk]. exists (c, count c df). split; [reflexivity|].
    apply filter_In. split; [apply country_counts_In; auto|].
    simpl. apply Nat.ltb_lt, Hk.
Qed.

Lemma isin_valid (n : nat) (df : DataFrame) (r : Row) :
  In r df ->
  mem (country r) (valid_countries n df) = Nat.leb n (count (country r) df).
Proof.
  intros Hr. apply eq_true_iff_eq.
  rewrite mem_In, valid_countries_In, Nat.leb_le.
  split; [tauto|]. intros H. split; [apply in_map, Hr | exact H].
Qed.

Lemma filter_ext_on {A : Type} (f g : A -> bool) (l : list A) :
  (forall x, In x l -> f x = g x) -> filter f l = filter g l.
Proof.
  induction l as [|x t IH]; simpl; intros H; [reflexivity|].
  rewrite (H x (or_introl eq_refl)), IH; [reflexivity|].
  intros y Hy. apply H. right. exact Hy.
Qed.

Lemma df_filtered_eq (n : nat) (df : DataFrame) :
  df_filtered n df = filter (fun r => Nat.leb n (count (country r) df)) df.
Proof. unfold df_filtered. apply filter_ext_on. intros r Hr. apply isin_valid, Hr. Qed.

(** The counter of the script is the number of dated rows of the
    country. *)
Lemma count_dated (c : string) (df : DataFrame) :
  count c df = Claims.dated_row_count c df.
Proof.
  unfold count, Claims.dated_row_count, Claims.row_count, Claims.dated.
  induction df as [|r t IH]; [reflexivity|].
  cbn [filter]. destruct (year r) as [y|]; cbn [isnull negb].
  - rewrite andb_true_r. cbn [map count_occ].
    destruct (string_dec (country r) c) as [E|E].
    + rewrite (proj2 (String.eqb_eq _ _) E). cbn [length]. f_equal. exact IH.
    + rewrite (proj2 (String.eqb_neq _ _) E). exact IH.
  - rewrite andb_false_r. exact IH.
Qed.

Lemma dated_row_count_le (c : string) (df : DataFrame) :
  (Claims.dated_row_count c df <= Claims.row_count c df)%nat.
Proof.
  unfold Claims.dated_row_count, Claims.row_count, Claims.dated.
  induction df as [|r t IH]; [apply Nat.le_refl|].
  cbn [filter map count_occ].
  destruct (year r); cbn [map count_occ];
    destruct (string_dec (country r) c); lia.
Qed.

Lemma dated_all (df : DataFrame) :
  (forall r, In r df -> year r <> None) -> Claims.dated df = df.
Proof.
  intros H. unfold Claims.dated. induction df as [|r t IH]; [reflexivity|].
  cbn [filter]. destruct (year r) eqn:E.
  - f_equal. apply IH. intros x Hx. apply H. right. exact Hx.
  - exfalso. apply (H r); [left; reflexivity | exact E].
Qed.

Lemma countries_of_filtered (n : nat) (df : DataFrame) (c : string) :
  In c (map country (df_filtered n df)) <->
  In c (map country df) /\ (n <= Claims.dated_row_count c df)%nat.
Proof.
  rewrite df_filtered_eq, !in_map_iff. split.
  - intros (r & <- & Hr). apply filter_In in Hr. destruct Hr as [Hr Hk].
    apply Nat.leb_le in Hk. rewrite count_dated in Hk. split; [|exact Hk].
    exists r. auto.
  - intros [(r & <- & Hr) Hk]. exists r. split; [reflexivity|].
    apply filter_In. split; [exact Hr|]. apply Nat.leb_le. rewrite count_dated. exact Hk.
Qed.
End BalanceFacts.

(** C7 (as stated) fails: country A has ten rows, one of them with a
    blank year; the script counts nine years and removes it at the
    threshold of ten, although its row count is ten. *)
Lemma C7_blank_year_counterexample :
  ~ Claims.balance_threshold PanelBalance.min_years Examples.blank_year_panel
      (PanelBalance.df_filtered PanelBalance.min_years Examples.blank_year_panel).
Proof.
  intros [_ H]. specialize (H "A"). vm_compute in H.
  assert (Hlt : (10 < 10)%nat); [|lia].
  apply H; [left; reflexivity|].
  intros Hin. repeat (destruct Hin as [Hin|Hin]; [discriminate|]). exact Hin.
Qed.

(** C7 (amended) — the balancer decides on the number of rows of a
    country that have a year.  For every panel and threshold the balanced
    panel is the panel restricted, in order and with rows unchanged, to
    the rows of the countries with at least [threshold] dated rows; the
    kept and the filtered-out countries are the countries of the panel at
    or above, respectively below, that number.  Hence a country retained
    has at least [threshold] rows, a country removed has fewer than
    [threshold] dated rows, and on a panel without blank year the balance
    threshold holds as the specification words it. *)
Theorem C7_balance_threshold_amended :
  forall (threshold : nat) (df : PanelBalance.DataFrame),
    PanelBalance.df_filtered threshold df =
      filter (fun r => Nat.leb threshold
                         (Claims.dated_row_count (PanelBalance.country r) df)) df /\
    (forall c, In c (PanelBalance.valid_countries threshold df) <->
               In c (map PanelBalance.country df) /\
               (threshold <= Claims.dated_row_count c df)%nat) /\
    (forall c, In c (PanelBalance.filtered_countries threshold df) <->
               In c (map PanelBalance.country df) /\
               (Claims.dated_row_count c df < threshold)%nat) /\
    (forall c, In c (map PanelBalance.country (PanelBalance.df_filtered threshold df)) ->
               (threshold <= Claims.row_count c df)%nat) /\
    (forall c, In c (map PanelBalance.country df) ->
               ~ In c (map PanelBalance.country (PanelBalance.df_filtered threshold df)) ->
               (Claims.dated_row_count c df < threshold)%nat) /\
    ((forall r, In r df -> PanelBalance.year r <> None) ->
     Claims.balance_threshold threshold df (PanelBalance.df_filtered threshold df)).
Proof.
  intros n df.
  split.
  { rewrite df_filtered_eq. apply filter_ext. intros r. rewrite count_dated. reflexivity. }
  split; [intros c; rewrite <- count_dated; apply valid_countries_In|].
  split; [intros c; rewrite <- count_dated; apply filtered_countries_In|].
  assert (Hkept : forall c,
             In c (map PanelBalance.country (PanelBalance.df_filtered n df)) ->
             (n <= Claims.row_count c df)%nat).
  { intros c Hc. apply countries_of_filtered in Hc. destruct Hc as [_ Hk].
    pose proof (dated_row_count_le c df). lia. }
  assert (Hgone : forall c,
             In c (map PanelBalance.country df) ->
             ~ In c (map PanelBalance.country (PanelBalance.df_filtered n df)) ->
             (Claims.dated_row_count c df < n)%nat).
  { intros c Hc Hn.
    destruct (Nat.le_gt_cases n (Claims.dated_row_count c df)) as [H|H]; [|exact H].
    exfalso. apply Hn, countries_of_filtered. auto. }
  split; [exact Hkept|]. split; [exact Hgone|].
  intros Hdated. split; [exact Hkept|].
  intros c Hc Hn. specialize (Hgone c Hc Hn).
  unfold Claims.dated_row_count in Hgone. rewrite (dated_all df Hdated) in Hgone.
  exact Hgone.
Qed.

Lemma C7_balance_threshold_witness :
  Claims.balance_threshold 2 Examples.balance_panel
    (PanelBalance.df_filtered 2 Examples.balance_panel).
Proof.
  apply (C7_balance_threshold_amended 2 Examples.balance_panel).
  intros r Hr. simpl in Hr.
  destruct Hr as [<-|[<-|[<-|[<-|[]]]]]; discriminate.
Defined.

Example balance_example_run :
  PanelBalance.df_filtered 2 Examples.balance_panel =
    [PanelBalance.mkRow "A" (Some 2001) [Some (1#1)];
     PanelBalance.mkRow "A" (Some 2002) [Some (2#1)];
     PanelBalance.mkRow "A" (Some 2003) [Some (3#1)]] /\
  PanelBalance.balance_report 2 Examples.balance_panel =
    [("A", 3%nat, true); ("B", 1%nat, false)].
Proof. split; reflexivity. Qed.

(** ** Congestion proxy estimator *)

Section ListFacts.
Lemma NoDup_map_eq {A B : Type} (f : A -> B) (l : list A) (x y : A) :
  NoDup (map f l) -> In x l -> In y l -> f x = f y -> x = y.
Proof.
  induction l as [|z t IH]; simpl; intros Hnd Hx Hy E; [contradiction|].
  inversion Hnd as [|? ? Hz Ht]; subst.
  destruct Hx as [<-|Hx], Hy as [<-|Hy].
  - reflexivity.
  - exfalso. apply Hz. rewrite E. apply in_map, Hy.
  - exfalso. apply Hz. rewrite <- E. apply in_map, Hx.
  - apply IH; assumption.
Qed.

Lemma StronglySorted_suffix {A : Type} (R : A -> A -> Prop) (l1 l2 : list A) :
  StronglySorted R (l1 ++ l2) -> StronglySorted R l2.
Proof.
  induction l1 as [|x t IH]; simpl; intros H; [exact H|].
  inversion H; subst. apply IH. assumption.
Qed.

Lemma map_fst_combine {A B : Type} (l : list A) (l' : list B) :
  length l = length l' -> map fst (combine l l') = l.
Proof.
  revert l'. induction l as [|x t IH]; intros [|y t']; simpl; intros E;
    try discriminate; [reflexivity|].
  f_equal. apply IH. lia.
Qed.

Lemma map_snd_combine {A B : Type} (l : list A) (l' : list B) :
  length l = length l' -> map snd (combine l l') = l'.
Proof.
  revert l'. induction l as [|x t IH]; intros [|y t']; simpl; intros E;
    try discriminate; [reflexivity|].
  f_equal. apply IH. lia.
Qed.
End ListFacts.

Section CombineFacts.
Import Frame Order CongestionProxy.

Lemma method_compare_ok : CmpOk method_compare.
Proof.
  apply (lex_ok e_key e_estimation_method key_compare String.compare
                key_compare_ok string_compare_ok).
Qed.

Lemma method_leb_total (a b : Estimate) :
  method_leb a b = true \/ method_leb b a = true.
Proof. apply (leb_of_total _ method_compare_ok). Qed.

Lemma method_leb_trans (a b c : Estimate) :
  method_leb a b = true -> method_leb b c = true -> method_leb a c = true.
Proof. apply (leb_of_trans _ method_compare_ok). Qed.

(** Within one key, the sort order is the order of the method names. *)
Lemma method_leb_same_key (a b : Estimate) :
  e_key a = e_key b -> method_leb a b = true ->
  String.leb (e_estimation_method a) (e_estimation_method b) = true.
Proof.
  intros E. unfold method_leb, method_compare.
  apply key_compare_eq in E. rewrite E. trivial.
Qed.

Lemma group_keys_NoDup (df : list CityRow) : NoDup (group_keys df).
Proof.
  unfold group_keys.
  eapply Permutation_NoDup; [apply Permutation_sym, sort_values_perm|].
  pose proof (drop_duplicates_NoDup (fun k : Key => k) (map tt_key df)) as H.
  rewrite map_id in H. exact H.
Qed.

Lemma tomtom_country_keys (df : list CityRow) :
  map g_key (tomtom_country df) = group_keys df.
Proof.
  unfold tomtom_country. rewrite map_map.
  rewrite <- (map_id (group_keys df)) at 2.
  apply map_ext. intros [c y]. reflexivity.
Qed.

Lemma tomtom_country_NoDup (df : list CityRow) :
  NoDup (map g_key (tomtom_country df)).
Proof. rewrite tomtom_country_keys. apply group_keys_NoDup. Qed.

Lemma group_keys_In (df : list CityRow) (k : Key) :
  In k (group_keys df) <-> In k (map tt_key df).
Proof.
  unfold group_keys. rewrite sort_values_In. split.
  - apply drop_duplicates_from_incl.
  - intros H.
    destruct (drop_duplicates_complete (fun k : Key => k) _ _ H) as [k' [Hk' ->]].
    exact Hk'.
Qed.

Lemma tag_actual_In (tc : list GroupRow) (e : Estimate) :
  In e (tag_actual tc) <-> exists a, In a tc /\ e = tag a.
Proof.
  unfold tag_actual. rewrite in_map_iff. split; intros [a [H1 H2]]; exists a; auto.
Qed.

Variable tc : list GroupRow.
Variable estimated_data : list Estimate.
Hypothesis tc_keys : NoDup (map g_key tc).
Hypothesis estimated_after_actual :
  Forall (fun e => String.leb (e_estimation_method e) "actual_tomtom" = false)
         estimated_data.

Let pool : list Estimate := tag_actual tc ++ estimated_data.
Let kept : list Estimate := drop_duplicates e_key (sort_values method_leb pool).

Lemma kept_In_pool (e : Estimate) : In e kept -> In e pool.
Proof.
  intros H. apply drop_duplicates_from_incl in H.
  apply sort_values_In in H. exact H.
Qed.

(** The row kept for a key is least in method name among the rows of
    that key. *)
Lemma kept_is_least (e x : Estimate) :
  In e kept -> In x pool -> e_key x = e_key e ->
  String.leb (e_estimation_method e) (e_estimation_method x) = true.
Proof.
  intros He Hx Hk.
  destruct (drop_duplicates_first e_key _ _ He) as [l1 [l2 [Hs Hl1]]].
  pose proof (sort_values_sorted method_leb method_leb_total method_leb_trans pool) as Hsorted.
  rewrite Hs in Hsorted. apply StronglySorted_suffix in Hsorted.
  apply (sort_values_In method_leb) in Hx. rewrite Hs in Hx.
  apply in_app_or in Hx. destruct Hx as [Hx|[<-|Hx]].
  - rewrite Forall_forall in Hl1. exfalso. apply (Hl1 x Hx Hk).
  - apply method_leb_same_key; [reflexivity|].
    destruct (method_leb_total e e); assumption.
  - inversion Hsorted as [|? ? _ Hall]; subst.
    rewrite Forall_forall in Hall.
    apply method_leb_same_key; [symmetry; exact Hk | apply Hall, Hx].
Qed.

(** Precedence: whenever the actual table has a key, the row kept for
    that key is the actual row. *)
Lemma kept_actual (a : GroupRow) (e : Estimate) :
  In a tc -> In e kept -> e_key e = g_key a -> e = tag a.
Proof.
  intros Ha He Hk.
  assert (Hpool : In (tag a) pool).
  { apply in_or_app. left. apply tag_actual_In. exists a. auto. }
  pose proof (kept_is_least e (tag a) He Hpool (eq_sym Hk)) as Hle.
  simpl in Hle.
  apply kept_In_pool in He. apply in_app_or in He. destruct He as [He|He].
  - apply tag_actual_In in He. destruct He as [a' [Ha' ->]].
    f_equal. apply (NoDup_map_eq g_key tc a' a tc_keys Ha' Ha Hk).
  - rewrite Forall_forall in estimated_after_actual.
    rewrite (estimated_after_actual e He) in Hle. discriminate.
Qed.

Lemma combined_In (r : Row) :
  In r (combined tc estimated_data) <-> exists e, In e kept /\ r = with_data_source e.
Proof.
  unfold combined. rewrite in_map_iff.
  split; intros [e [H1 H2]]; exists e; auto.
Qed.

Lemma combined_keys : map key (combined tc estimated_data) = map e_key kept.
Proof. unfold combined. rewrite map_map. reflexivity. Qed.

Lemma combined_NoDup : NoDup (map key (combined tc estimated_data)).
Proof. rewrite combined_keys. apply drop_duplicates_NoDup. Qed.

Lemma combined_complete (x : Estimate) :
  In x pool -> exists r, In r (combined tc estimated_data) /\ key r = e_key x.
Proof.
  intros Hx. apply (sort_values_In method_leb) in Hx.
  destruct (drop_duplicates_complete e_key _ _ Hx) as [e [He Hk]].
  exists (with_data_source e). split; [|exact Hk].
  apply combined_In. exists e. auto.
Qed.

Lemma combined_actual (a : GroupRow) (r : Row) :
  In a tc -> In r (combined tc estimated_data) -> key r = g_key a ->
  r = with_data_source (tag a).
Proof.
  intros Ha Hr Hk. apply combined_In in Hr. destruct Hr as [e [He ->]].
  f_equal. apply kept_actual; assumption.
Qed.

Lemma combined_origin (r : Row) :
  In r (combined tc estimated_data) ->
  (exists a, In a tc /\ r = with_data_source (tag a)) \/
  (exists e, In e estimated_data /\ r = with_data_source e).
Proof.
  intros Hr. apply combined_In in Hr. destruct Hr as [e [He ->]].
  apply kept_In_pool in He. apply in_app_or in He. destruct He as [He|He].
  - left. apply tag_actual_In in He. destruct He as [a [Ha ->]]. exists a. auto.
  - right. exists e. auto.
Qed.
End CombineFacts.

Section EstimateFacts.
Import Frame CongestionProxy Claims.

(** Python's [max(15, min(75, x))] is a number even when [x] is NaN. *)
Lemma bounded_estimate_not_nan (x : option Q) :
  py_max (num 15) (py_min (num 75) x) <> None.
Proof.
  unfold py_max, py_min.
  destruct x as [q|]; simpl.
  - destruct (Qle_bool (inject_Z 75) q); simpl;
      repeat match goal with |- context [if ?b then _ else _] => destruct b end;
      discriminate.
  - discriminate.
Qed.

Lemma estimate_congestion_not_nan (cols : list string) (row : WBRow) (noise : Q)
      (e : option Q) :
  estimate_congestion cols row noise = Ok e -> e <> None.
Proof.
  unfold estimate_congestion, getitem.
  destruct (lookup "gdp_per_capita" cols (wb_cells row)); simpl; [|discriminate].
  destruct (lookup "urban_population_pct" cols (wb_cells row)); simpl; [|discriminate].
  destruct (lookup "population" cols (wb_cells row)); simpl; [|discriminate].
  intros E. injection E as <-. apply bounded_estimate_not_nan.
Qed.

Lemma apply_estimate_ok (cols : list string) (entropy : nat -> Q) (rows : list WBRow) :
  forall (i : nat) (es : list (option Q)),
    apply_estimate cols entropy i rows = Ok es ->
    length es = length rows /\ Forall (fun e => e <> None) es.
Proof.
  induction rows as [|r t IH]; simpl; intros i es E.
  - injection E as <-. split; [reflexivity | constructor].
  - destruct (estimate_congestion cols r (entropy i)) as [e|] eqn:Ee; simpl in E;
      [|discriminate].
    destruct (apply_estimate cols entropy (S i) t) as [es'|] eqn:Et; simpl in E;
      [|discriminate].
    injection E as <-. destruct (IH _ _ Et) as [Hlen Hall]. split.
    + simpl. f_equal. exact Hlen.
    + constructor; [|exact Hall]. eapply estimate_congestion_not_nan, Ee.
Qed.

(** On a panel with a row, or with the three covariates, the estimates
    are the function applied row by row. *)
Lemma rule_based_estimates_eq (entropy : nat -> Q) (wb : WBFrame) :
  wb_rows wb <> [] \/
  mem "gdp_per_capita" (wb_columns wb) && mem "urban_population_pct" (wb_columns wb)
  && mem "population" (wb_columns wb) = true ->
  rule_based_estimates entropy wb =
  bind (apply_estimate (wb_columns wb) entropy 0 (wb_rows wb)) (fun es =>
  Ok (map (fun p =>
             mkEstimate (wb_country (fst p)) (wb_year (fst p)) (snd p)
                        (lift2 Qplus (num 1) (lift2 Qdiv (snd p) (num 100)))
                        "rule_based")
          (combine (wb_rows wb) es))).
Proof.
  unfold rule_based_estimates, apply_empty. intros H.
  destruct (wb_rows wb) as [|r t]; [|reflexivity].
  destruct H as [H|H]; [congruence|]. rewrite H. reflexivity.
Qed.

Lemma rule_based_estimates_saved (entropy : nat -> Q) (wb : WBFrame) (E : list Estimate) :
  rule_based_estimates entropy wb = Ok E ->
  bind (apply_estimate (wb_columns wb) entropy 0 (wb_rows wb)) (fun es =>
  Ok (map (fun p =>
             mkEstimate (wb_country (fst p)) (wb_year (fst p)) (snd p)
                        (lift2 Qplus (num 1) (lift2 Qdiv (snd p) (num 100)))
                        "rule_based")
          (combine (wb_rows wb) es))) = Ok E.
Proof.
  intros H. rewrite <- H. symmetry. apply rule_based_estimates_eq.
  unfold rule_based_estimates, apply_empty in H.
  destruct (wb_rows wb) as [|r t]; [|left; discriminate].
  right. destruct (_ && _); [reflexivity | discriminate].
Qed.

Lemma rule_based_estimates_ok (entropy : nat -> Q) (wb : WBFrame) (E : list Estimate) :
  rule_based_estimates entropy wb = Ok E -> estimates_for wb "rule_based" E.
Proof.
  intros H. apply rule_based_estimates_saved in H.
  destruct (apply_estimate (wb_columns wb) entropy 0 (wb_rows wb)) as [es|] eqn:Ea;
    simpl in H; [|discriminate].
  injection H as <-. destruct (apply_estimate_ok _ _ _ _ _ Ea) as [Hlen Hall].
  split.
  - rewrite map_map. simpl.
    rewrite <- (map_fst_combine (wb_rows wb) es) at 2 by (symmetry; exact Hlen).
    rewrite map_map. reflexivity.
  - apply Forall_forall. intros e He. apply in_map_iff in He.
    destruct He as [[w est] [<- Hin]]. simpl. split; [reflexivity|].
    apply in_combine_r in Hin. rewrite Forall_forall in Hall. apply Hall, Hin.
Qed.

Lemma ml_estimates_ok (sk : Sklearn) (mg : list (GroupRow * WBRow)) (wb : WBFrame)
      (E : list Estimate) :
  ml_estimates sk mg wb = Ok E -> estimates_for wb "ml_random_forest" E.
Proof.
  unfold ml_estimates. intros H.
  destruct (mem "congestion_level_pct" (wb_columns wb)); [discriminate|].
  destruct (fit_transform sk _) as [sx|]; simpl in H; [|discriminate].
  destruct (existsb isnull _); [discriminate|].
  destruct (rf_fit sk _ _ _) as [model|]; simpl in H; [|discriminate].
  destruct (transform sk _ _) as [Xs|]; simpl in H; [|discriminate].
  destruct (rf_predict sk _ _) as [pred|]; simpl in H; [|discriminate].
  destruct (Nat.eqb (length pred) (length (wb_rows wb))) eqn:Hlen; simpl in H;
    [|discriminate].
  apply Nat.eqb_eq in Hlen. injection H as <-. split.
  - rewrite map_map. simpl.
    rewrite <- (map_fst_combine (wb_rows wb) pred) at 2 by (symmetry; exact Hlen).
    rewrite map_map. reflexivity.
  - apply Forall_forall. intros e He. apply in_map_iff in He.
    destruct He as [[w raw] [<- Hin]]. simpl. split; [reflexivity | discriminate].
Qed.

(** The file the script saves is the combination of the country-level
    actual table with one estimate per row of the economic panel. *)
Lemma congestion_comprehensive_inv (sk : Sklearn) (entropy : nat -> Q)
      (wb : WBFrame) (tomtom : list CityRow) (out : list Row) :
  congestion_comprehensive sk entropy wb tomtom = Ok out ->
  exists method E,
    (method = "rule_based" \/ method = "ml_random_forest") /\
    estimates_for wb method E /\
    Permutation out (combined (tomtom_country tomtom) E).
Proof.
  unfold congestion_comprehensive. intros H.
  destruct (use_rule_based _).
  - destruct (rule_based_estimates entropy wb) as [E|] eqn:HE; simpl in H; [|discriminate].
    injection H as <-. exists "rule_based", E.
    split; [left; reflexivity|].
    split; [apply rule_based_estimates_ok with entropy; exact HE|].
    apply sort_values_perm.
  - destruct (ml_estimates sk _ wb) as [E|] eqn:HE; simpl in H; [|discriminate].
    injection H as <-. exists "ml_random_forest", E.
    split; [right; reflexivity|].
    split; [eapply ml_estimates_ok; exact HE|].
    apply sort_values_perm.
Qed.

Lemma estimates_after_actual (wb : WBFrame) (method : string) (E : list Estimate) :
  method = "rule_based" \/ method = "ml_random_forest" ->
  estimates_for wb method E ->
  Forall (fun e => String.leb (e_estimation_method e) "actual_tomtom" = false) E.
Proof.
  intros Hm [_ HE]. eapply Forall_impl; [|exact HE].
  intros e [-> _]. destruct Hm as [->| ->]; reflexivity.
Qed.
End EstimateFacts.

(** C1 — congestion precedence.  Whenever the script saves its output, in
    either branch: for every (country, year) that has a row in the
    aggregated actual table and a row in the economic panel (hence an
    estimate), the output has a row for that key, and every output row of
    that key carries the actual table's congestion_level_pct with
    estimation_method and data_source equal to 'actual_tomtom'. *)
Theorem C1_actual_precedence :
  forall (sk : CongestionProxy.Sklearn) (entropy : nat -> Q)
         (wb_df : CongestionProxy.WBFrame) (tomtom_df : list CongestionProxy.CityRow)
         (out : list CongestionProxy.Row)
         (a : CongestionProxy.GroupRow) (w : CongestionProxy.WBRow),
    CongestionProxy.congestion_comprehensive sk entropy wb_df tomtom_df = Frame.Ok out ->
    In a (CongestionProxy.tomtom_country tomtom_df) ->
    In w (CongestionProxy.wb_rows wb_df) ->
    CongestionProxy.wb_key w = CongestionProxy.g_key a ->
    (exists r, In r out /\ CongestionProxy.key r = CongestionProxy.g_key a) /\
    (forall r, In r out -> CongestionProxy.key r = CongestionProxy.g_key a ->
               CongestionProxy.congestion_level_pct r =
                 CongestionProxy.g_congestion_level_pct a /\
               CongestionProxy.estimation_method r = "actual_tomtom" /\
               CongestionProxy.data_source r = "actual_tomtom").
Proof.
  intros sk entropy wb tomtom out a w Hrun Ha Hw Hkey.
  destruct (congestion_comprehensive_inv _ _ _ _ _ Hrun) as [m [E [Hm [HE Hperm]]]].
  pose proof (tomtom_country_NoDup tomtom) as Hnd.
  pose proof (estimates_after_actual _ _ _ Hm HE) as Hafter.
  split.
  - destruct (combined_complete (CongestionProxy.tomtom_country tomtom) E
                                (CongestionProxy.tag a)) as [r [Hr Hk]].
    { apply in_or_app. left. apply tag_actual_In. exists a. auto. }
    exists r. split; [|exact Hk].
    eapply Permutation_in; [apply Permutation_sym, Hperm | exact Hr].
  - intros r Hr Hk.
    apply (Permutation_in _ Hperm) in Hr.
    rewrite (combined_actual _ E Hnd Hafter a r Ha Hr Hk). simpl. auto.
Qed.

Lemma C1_actual_precedence_witness :
  exists r,
    In r [CongestionProxy.mkRow "A" 2020 (Some (40#1)) (Some (14#10))
                                "actual_tomtom" "actual_tomtom"] /\
    CongestionProxy.key r = ("A", 2020).
Proof.
  apply (C1_actual_precedence CongestionProxy.mean_learner Examples.draws_three
           Examples.wb_one Examples.tomtom_measured _
           (CongestionProxy.mkGroup "A" 2020 (Some (40#1)) (Some (14#10)))
           (CongestionProxy.mkWB "A" 2020 [Some (10000#1); Some 0%Q; Some (1000000#1)])).
  - reflexivity.
  - vm_compute. left. reflexivity.
  - vm_compute. left. reflexivity.
  - reflexivity.
Defined.

Section CoverageFacts.
Import Frame CongestionProxy Claims.

Lemma rows_with_key_unique (out : list Row) (r : Row) :
  NoDup (map key out) -> In r out -> rows_with_key (key r) out = [r].
Proof.
  unfold rows_with_key.
  induction out as [|x t IH]; simpl; intros Hnd Hin; [contradiction|].
  inversion Hnd as [|? ? Hx Ht]; subst.
  destruct (key_eqb (key x) (key r)) eqn:E.
  - apply key_eqb_eq in E.
    destruct Hin as [->|Hin].
    + f_equal.
      assert (Hnone : forall l, ~ In (key r) (map key l) ->
                filter (fun r0 => key_eqb (key r0) (key r)) l = []).
      { induction l as [|y l IHl]; simpl; intros Hn; [reflexivity|].
        destruct (key_eqb (key y) (key r)) eqn:Ey.
        - apply key_eqb_eq in Ey. exfalso. apply Hn. left. exact Ey.
        - apply IHl. intros H. apply Hn. right. exact H. }
      apply Hnone, Hx.
    + exfalso. apply Hx. rewrite E. apply in_map, Hin.
  - destruct Hin as [->|Hin].
    + assert (key_eqb (key r) (key r) = true) by (apply key_eqb_eq; reflexivity).
      congruence.
    + apply IH; assumption.
Qed.

Lemma estimates_cover (wb : WBFrame) (method : string) (E : list Estimate) (w : WBRow) :
  estimates_for wb method E -> In w (wb_rows wb) ->
  exists e, In e E /\ e_key e = wb_key w.
Proof.
  intros [Hk _] Hw.
  assert (H : In (wb_key w) (map e_key E)) by (rewrite Hk; apply in_map, Hw).
  apply in_map_iff in H. destruct H as [e [He Hin]]. exists e. auto.
Qed.
End CoverageFacts.

(** The saved table has one row per key: the precondition the merger's
    join with it relies on. *)
Lemma congestion_comprehensive_keys_unique (sk : CongestionProxy.Sklearn)
      (entropy : nat -> Q) (wb_df : CongestionProxy.WBFrame)
      (tomtom_df : list CongestionProxy.CityRow) (out : list CongestionProxy.Row) :
  CongestionProxy.congestion_comprehensive sk entropy wb_df tomtom_df = Frame.Ok out ->
  NoDup (map CongestionProxy.key out).
Proof.
  intros Hrun.
  destruct (congestion_comprehensive_inv _ _ _ _ _ Hrun) as [m [E [_ [_ Hperm]]]].
  eapply Permutation_NoDup;
    [apply Permutation_map, Permutation_sym, Hperm | apply combined_NoDup].
Qed.

Section CoverageScope.
Import Frame CongestionProxy Claims.

(** Whenever a file is saved, every key of the economic panel has exactly
    one row with a valid tag; its value is a number unless an actual row
    of that key has none. *)
Lemma coverage_unless_blank_actual (sk : Sklearn) (entropy : nat -> Q)
      (wb_df : WBFrame) (tomtom_df : list CityRow) (out : list Row) :
  congestion_comprehensive sk entropy wb_df tomtom_df = Ok out ->
  forall w, In w (wb_rows wb_df) ->
    exists r,
      rows_with_key (wb_key w) out = [r] /\
      valid_data_source (data_source r) = true /\
      ((forall a, In a (tomtom_country tomtom_df) ->
                  g_key a = wb_key w ->
                  g_congestion_level_pct a <> None) ->
       congestion_level_pct r <> None).
Proof.
  intros Hrun w Hw.
  destruct (congestion_comprehensive_inv _ _ _ _ _ Hrun) as [m [E [Hm [HE Hperm]]]].
  destruct (estimates_cover _ _ _ _ HE Hw) as [e [He Hke]].
  destruct (combined_complete (tomtom_country tomtom_df) E e) as [r [Hr Hk]];
    [apply in_or_app; right; exact He|].
  pose proof (congestion_comprehensive_keys_unique _ _ _ _ _ Hrun) as Hnd.
  assert (Hout : In r out)
    by (eapply Permutation_in; [apply Permutation_sym, Hperm | exact Hr]).
  exists r. split.
  { rewrite <- Hke, <- Hk. apply rows_with_key_unique; assumption. }
  destruct (combined_origin _ _ _ Hr) as [[a [Ha ->]]|[e' [He' ->]]].
  - split; [reflexivity|]. intros Hactual. simpl.
    apply (Hactual a Ha). rewrite <- Hke, <- Hk. reflexivity.
  - destruct HE as [_ HE]. rewrite Forall_forall in HE.
    destruct (HE e' He') as [Hmeth Hnn]. split.
    + simpl. rewrite Hmeth. destruct Hm as [->| ->]; reflexivity.
    + intros _. exact Hnn.
Qed.

Lemma merged_In (tc : list GroupRow) (wb : WBFrame) (a : GroupRow) (w : WBRow) :
  In a tc -> In w (wb_rows wb) -> g_key a = wb_key w -> In (a, w) (merged tc wb).
Proof.
  intros Ha Hw Hk. unfold merged. apply in_flat_map. exists a. split; [exact Ha|].
  apply in_map, filter_In. split; [exact Hw|]. apply key_eqb_eq. symmetry. exact Hk.
Qed.

(** The forest is only fitted on targets that are all numbers. *)
Lemma ml_estimates_targets (sk : Sklearn) (mg : list (GroupRow * WBRow)) (wb : WBFrame)
      (E : list Estimate) :
  ml_estimates sk mg wb = Ok E ->
  forall p, In p mg -> g_congestion_level_pct (fst p) <> None.
Proof.
  unfold ml_estimates. intros H.
  destruct (mem "congestion_level_pct" (wb_columns wb)); [discriminate|].
  destruct (fit_transform sk _) as [sx|]; simpl in H; [|discriminate].
  destruct (existsb isnull _) eqn:Ey; [discriminate|].
  intros p Hp Hnone.
  assert (Hex : existsb isnull (map (fun q => g_congestion_level_pct (fst q)) mg) = true).
  { apply existsb_exists. exists (g_congestion_level_pct (fst p)).
    split; [apply in_map_iff; exists p; auto | rewrite Hnone; reflexivity]. }
  congruence.
Qed.

Lemma coverage_when_actual_numbers (sk : Sklearn) (entropy : nat -> Q)
      (wb_df : WBFrame) (tomtom_df : list CityRow) (out : list Row) :
  congestion_comprehensive sk entropy wb_df tomtom_df = Ok out ->
  (forall a w, In a (tomtom_country tomtom_df) -> In w (wb_rows wb_df) ->
               g_key a = wb_key w -> g_congestion_level_pct a <> None) ->
  coverage_totality wb_df out.
Proof.
  intros Hrun Hnum w Hw.
  destruct (coverage_unless_blank_actual _ _ _ _ _ Hrun w Hw) as (r & Hr & Hv & Hn).
  exists r. split; [exact Hr|]. split; [|exact Hv].
  apply Hn. intros a Ha Hk. exact (Hnum a w Ha Hw Hk).
Qed.

Lemma forest_branch_coverage (sk : Sklearn) (entropy : nat -> Q)
      (wb_df : WBFrame) (tomtom_df : list CityRow) (out : list Row) :
  congestion_comprehensive sk entropy wb_df tomtom_df = Ok out ->
  use_rule_based (merged (tomtom_country tomtom_df) wb_df) = false ->
  coverage_totality wb_df out.
Proof.
  intros Hrun Hml. apply (coverage_when_actual_numbers _ _ _ _ _ Hrun).
  intros a w Ha Hw Hk.
  unfold congestion_comprehensive in Hrun. rewrite Hml in Hrun.
  destruct (ml_estimates sk _ wb_df) as [E|] eqn:HE; [|discriminate].
  exact (ml_estimates_targets _ _ _ _ HE (a, w) (merged_In _ _ _ _ Ha Hw Hk)).
Qed.
End CoverageScope.

(** C2 — coverage totality is broken by a blank actual measurement in the
    rule-based branch.  On a one-row economic panel and one city row of
    the same key whose congestion cell is empty, the rule-based estimator
    produces a number for the key, yet the saved table holds for that key
    the row tagged 'actual_tomtom' with no congestion value: the blank
    actual row has displaced the estimate.  The defect is confined to
    that case: in the Random Forest branch coverage totality holds
    whenever a file is saved (the forest is not fitted on a missing
    target), and in either branch it holds whenever no actual row of a key
    of the economic panel lacks its value. *)
Theorem C2_blank_actual_displaces_estimate :
  (exists out E e r,
     CongestionProxy.congestion_comprehensive CongestionProxy.mean_learner
       Examples.draws_three Examples.wb_one Examples.tomtom_blank = Frame.Ok out /\
     CongestionProxy.use_rule_based
       (CongestionProxy.merged (CongestionProxy.tomtom_country Examples.tomtom_blank)
                               Examples.wb_one) = true /\
     CongestionProxy.rule_based_estimates Examples.draws_three Examples.wb_one = Frame.Ok E /\
     In e E /\
     CongestionProxy.e_key e = ("A", 2020%Z) /\
     CongestionProxy.e_congestion_level_pct e <> None /\
     Claims.rows_with_key ("A", 2020%Z) out = [r] /\
     CongestionProxy.data_source r = "actual_tomtom" /\
     CongestionProxy.congestion_level_pct r = None /\
     ~ Claims.coverage_totality Examples.wb_one out) /\
  (forall (sk : CongestionProxy.Sklearn) (entropy : nat -> Q)
          (wb_df : CongestionProxy.WBFrame) (tomtom_df : list CongestionProxy.CityRow)
          (out : list CongestionProxy.Row),
     CongestionProxy.congestion_comprehensive sk entropy wb_df tomtom_df = Frame.Ok out ->
     CongestionProxy.use_rule_based
       (CongestionProxy.merged (CongestionProxy.tomtom_country tomtom_df) wb_df) = false ->
     Claims.coverage_totality wb_df out) /\
  (forall (sk : CongestionProxy.Sklearn) (entropy : nat -> Q)
          (wb_df : CongestionProxy.WBFrame) (tomtom_df : list CongestionProxy.CityRow)
          (out : list CongestionProxy.Row),
     CongestionProxy.congestion_comprehensive sk entropy wb_df tomtom_df = Frame.Ok out ->
     (forall a w, In a (CongestionProxy.tomtom_country tomtom_df) ->
                  In w (CongestionProxy.wb_rows wb_df) ->
                  CongestionProxy.g_key a = CongestionProxy.wb_key w ->
                  CongestionProxy.g_congestion_level_pct a <> None) ->
     Claims.coverage_totality wb_df out).
Proof.
  split; [|split].
  - do 4 eexists. split; [reflexivity|]. split; [reflexivity|].
    split; [reflexivity|]. split; [left; reflexivity|].
    split; [reflexivity|]. split; [discriminate|].
    split; [reflexivity|]. split; [reflexivity|]. split; [reflexivity|].
    intros H.
    destruct (H (CongestionProxy.mkWB "A" 2020 [Some (10000#1); Some 0%Q; Some (1000000#1)]))
      as [r [Hr [Hnn _]]]; [left; reflexivity|].
    vm_compute in Hr. injection Hr as <-. apply Hnn. reflexivity.
  - intros sk entropy wb_df tomtom_df out. apply forest_branch_coverage.
  - intros sk entropy wb_df tomtom_df out. apply coverage_when_actual_numbers.
Qed.

(** The same blank in the Random Forest branch: with twenty joined rows
    of which one has no value, fitting the forest fails and nothing is
    saved. *)
Example blank_target_stops_forest :
  CongestionProxy.congestion_comprehensive CongestionProxy.mean_learner
    Examples.draws_three Examples.wb_long
    (CongestionProxy.mkCity "Alpha" "A" 2000 None (Some (14#10))
     :: tl Examples.tomtom_long)
  = Frame.Raise (Frame.ValueError "Input y contains NaN.").
Proof. vm_compute. reflexivity. Qed.

(** The Random Forest branch never reads numpy's global generator: its
    output is the same whatever the generator's state. *)
Lemma ml_branch_ignores_entropy (sk : CongestionProxy.Sklearn) (e1 e2 : nat -> Q)
      (wb_df : CongestionProxy.WBFrame) (tomtom_df : list CongestionProxy.CityRow) :
  CongestionProxy.use_rule_based
    (CongestionProxy.merged (CongestionProxy.tomtom_country tomtom_df) wb_df) = false ->
  CongestionProxy.congestion_comprehensive sk e1 wb_df tomtom_df =
  CongestionProxy.congestion_comprehensive sk e2 wb_df tomtom_df.
Proof.
  intros H. unfold CongestionProxy.congestion_comprehensive. rewrite H. reflexivity.
Qed.

(** C9 — the rule-based branch is not reproducible: the script never seeds
    numpy's global generator, so two runs on the same tables draw
    different noise; with draws 3 and 4 the single estimate is 55 in one
    run and 56 in the other. *)
Theorem C9_rule_based_runs_differ :
  exists r1 r2 v1 v2,
    CongestionProxy.congestion_comprehensive CongestionProxy.mean_learner
      Examples.draws_three Examples.wb_one [] = Frame.Ok [r1] /\
    CongestionProxy.congestion_comprehensive CongestionProxy.mean_learner
      Examples.draws_four Examples.wb_one [] = Frame.Ok [r2] /\
    CongestionProxy.congestion_level_pct r1 = Some v1 /\
    CongestionProxy.congestion_level_pct r2 = Some v2 /\
    ~ (v1 == v2)%Q.
Proof.
  do 4 eexists. split; [reflexivity|]. split; [reflexivity|].
  split; [reflexivity|]. split; [reflexivity|].
  intros H. vm_compute in H. discriminate.
Qed.

(** A run of the Random Forest branch: twenty measured years keep their
    actual rows, the unmeasured year 2020 gets the model's estimate. *)
Example ml_branch_run :
  exists out,
    CongestionProxy.congestion_comprehensive CongestionProxy.mean_learner
      Examples.draws_three Examples.wb_long Examples.tomtom_long = Frame.Ok out /\
    map CongestionProxy.data_source out =
      repeat "actual_tomtom" 20 ++ ["ml_random_forest"] /\
    map CongestionProxy.year out = Examples.years_2000_2020.
Proof. eexists. split; [vm_compute; reflexivity|]. split; reflexivity. Qed.

(** ** Panel merger *)

Section MergeKeyFacts.
Import Frame MergePanel Claims.

Lemma filter_at_most_one {A B : Type} (f : A -> B) (p : A -> bool) (l : list A) :
  (forall x y, p x = true -> p y = true -> f x = f y) ->
  NoDup (map f l) ->
  filter p l = [] \/ exists r, filter p l = [r].
Proof.
  intros Hp. induction l as [|x t IH]; simpl; intros Hnd; [left; reflexivity|].
  inversion Hnd as [|? ? Hx Ht]; subst.
  destruct (p x) eqn:Ex; [|apply IH, Ht].
  right. exists x. f_equal.
  destruct (filter p t) as [|y t'] eqn:Ef; [reflexivity|].
  exfalso. apply Hx.
  assert (Hy : In y (filter p t)) by (rewrite Ef; left; reflexivity).
  apply filter_In in Hy. destruct Hy as [Hy Epy].
  rewrite (Hp x y Ex Epy). apply in_map, Hy.
Qed.

(** A left join against a table with distinct keys keeps the left rows'
    keys, one for one and in order. *)
Lemma merge_keys (df other : DataFrame) (suffix : string) :
  NoDup (map key (rows other)) ->
  map key (rows (merge df other suffix)) = map key (rows df).
Proof.
  intros Hnd. unfold merge. simpl.
  induction (rows df) as [|l t IH]; simpl; [reflexivity|].
  rewrite map_app, IH. clear IH.
  destruct (filter_at_most_one key (fun r => key_eqb (key r) (key l)) (rows other))
    as [E|[r E]]; try exact Hnd.
  - intros x y Hx Hy. apply key_eqb_eq in Hx, Hy. congruence.
  - rewrite E. reflexivity.
  - rewrite E. reflexivity.
Qed.

Lemma merge_on_country_keys (df : DataFrame) (other : StaticFrame) (suffix : string) :
  NoDup (map s_country (s_rows other)) ->
  map key (rows (merge_on_country df other suffix)) = map key (rows df).
Proof.
  intros Hnd. unfold merge_on_country. simpl.
  induction (rows df) as [|l t IH]; simpl; [reflexivity|].
  rewrite map_app, IH. clear IH.
  destruct (filter_at_most_one s_country
              (fun r => String.eqb (s_country r) (country l)) (s_rows other))
    as [E|[r E]]; try exact Hnd.
  - intros x y Hx Hy. apply String.eqb_eq in Hx, Hy. congruence.
  - rewrite E. reflexivity.
  - rewrite E. reflexivity.
Qed.

Lemma merge_if_keys (df : DataFrame) (src : option DataFrame) (suffix : string) :
  keys_unique src ->
  map key (rows (merge_if df src suffix)) = map key (rows df).
Proof.
  destruct src as [t|]; unfold merge_if, keys_unique; intros H;
    [apply merge_keys; exact H | reflexivity].
Qed.

Lemma drop_column_countries (col : string) (f : StaticFrame) :
  map s_country (s_rows (drop_column col f)) = map s_country (s_rows f).
Proof. unfold drop_column. simpl. rewrite map_map. reflexivity. Qed.

Lemma uitp_country_NoDup (uitp uc : DataFrame) :
  uitp_country uitp = Ok uc -> NoDup (map key (rows uc)).
Proof.
  unfold uitp_country.
  destruct (filter _ modal_share_cols); [|discriminate].
  intros E. injection E as <-. simpl. rewrite map_map.
  erewrite map_ext; [rewrite map_id|intros [c y]; reflexivity].
  unfold group_keys.
  eapply Permutation_NoDup; [apply Permutation_sym, sort_values_perm|].
  pose proof (drop_duplicates_NoDup (fun k : Key => k) (map key (rows uitp))) as H.
  rewrite map_id in H. exact H.
Qed.

(** The chain of joins keeps the keys of the base panel. *)
Lemma merge_sources_keys (inp : Inputs) (df : DataFrame) :
  unique_join_keys inp ->
  merge_sources inp = Ok df ->
  map key (rows df) = map key (rows (worldbank_data inp)).
Proof.
  intros (_ & Hc & Hu & Hpsa & Haq & Hov & Hl & Hj & Ha).
  unfold merge_sources.
  destruct (merge_congestion (worldbank_data inp) inp) as [d1|] eqn:E1; simpl;
    [|discriminate].
  assert (H1 : map key (rows d1) = map key (rows (worldbank_data inp))).
  { unfold merge_congestion in E1.
    destruct (congestion_comprehensive inp) as [c|];
      [destruct (_ && _); [discriminate|]|]; injection E1 as <-;
      [apply merge_keys; exact Hc | apply merge_if_keys; exact Hc]. }
  destruct (merge_uitp d1 inp) as [d2|] eqn:E2; simpl; [|discriminate].
  assert (H2 : map key (rows d2) = map key (rows (worldbank_data inp))).
  { rewrite <- H1. unfold merge_uitp in E2.
    destruct (uitp_modal_share inp) as [u|]; [|injection E2 as <-; reflexivity].
    destruct (mem "city" (columns u)) eqn:Ecity.
    - destruct (uitp_country u) as [uc|] eqn:Euc; simpl in E2; [|discriminate].
      injection E2 as <-. apply merge_keys. eapply uitp_country_NoDup; exact Euc.
    - injection E2 as <-. apply merge_keys.
      destruct Hu as [Hu|Hu]; [congruence | exact Hu]. }
  intros E. injection E as <-.
  rewrite (merge_if_keys _ _ _ Ha), (merge_if_keys _ _ _ Hj), (merge_if_keys _ _ _ Hl).
  assert (H3 : forall d, map key (rows (merge_overpass d inp)) = map key (rows d)).
  { intros d. unfold merge_overpass.
    destruct (overpass_data inp) as [[f|f]|]; [| |reflexivity].
    - apply merge_on_country_keys. rewrite drop_column_countries. exact Hov.
    - apply merge_keys; exact Hov. }
  rewrite H3, (merge_if_keys _ _ _ Haq), (merge_if_keys _ _ _ Hpsa). exact H2.
Qed.

Lemma set_column_keys (col : string) (values : list Cell) (df : DataFrame) :
  length values = length (rows df) ->
  map key (rows (set_column col values df)) = map key (rows df).
Proof.
  intros Hlen. unfold set_column. simpl. rewrite map_map.
  rewrite <- (map_fst_combine (rows df) values) at 2 by (symmetry; exact Hlen).
  rewrite map_map. reflexivity.
Qed.

Lemma shift1_length (prev rs : list (string * Cell)) :
  length (shift1 prev rs) = length rs.
Proof.
  revert prev. induction rs as [|[c v] t IH]; simpl; intros prev; [reflexivity|].
  rewrite IH. reflexivity.
Qed.

Lemma transit_investment_gdp_keys (df : DataFrame) :
  map key (rows (transit_investment_gdp df)) = map key (rows df).
Proof.
  unfold transit_investment_gdp.
  destruct (negb _ || _); [|reflexivity].
  destruct (_ && _); [apply set_column_keys, length_map|].
  destruct (_ && _); apply set_column_keys, length_map.
Qed.

Lemma lagged_keys (df : DataFrame) :
  Permutation (map key (rows (lagged df))) (map key (rows df)).
Proof.
  unfold lagged.
  set (d := mkFrame (columns df) (sort_values _ (rows df))).
  assert (Hd : Permutation (map key (rows d)) (map key (rows df)))
    by (apply Permutation_map, sort_values_perm).
  destruct (mem "transit_invest_lag1" (columns d)); [exact Hd|].
  rewrite set_column_keys; [exact Hd|].
  rewrite shift1_length, length_map. reflexivity.
Qed.

Lemma standardize_names_rows (df : DataFrame) :
  rows (standardize_names df) = rows df.
Proof.
  unfold standardize_names. generalize rename_map. intros l. revert df.
  induction l as [|p t IH]; simpl; intros df; [reflexivity|].
  rewrite IH. destruct (_ && _); reflexivity.
Qed.

Lemma ensure_columns_keys (df : DataFrame) :
  map key (rows (ensure_columns df)) = map key (rows df).
Proof.
  unfold ensure_columns. generalize final_columns. intros l. revert df.
  induction l as [|c t IH]; simpl; intros df; [reflexivity|].
  rewrite IH. destruct (mem c (columns df)); [reflexivity|].
  apply set_column_keys, length_map.
Qed.

Lemma select_final_keys (df : DataFrame) :
  map key (rows (select_final df)) = map key (rows df).
Proof. unfold select_final. simpl. rewrite map_map. reflexivity. Qed.

Lemma after_merge_keys (df : DataFrame) :
  Permutation (map key (rows (after_merge df))) (map key (rows df)).
Proof.
  unfold after_merge.
  rewrite select_final_keys, ensure_columns_keys, standardize_names_rows.
  eapply perm_trans; [apply lagged_keys|].
  rewrite transit_investment_gdp_keys. apply Permutation_refl.
Qed.
End MergeKeyFacts.

(** C4 — final-panel key uniqueness.  When the base panel and every table
    that is joined to it have pairwise distinct join keys, the clean panel
    the merger saves has pairwise distinct (country, year) keys; indeed
    its keys are those of the base panel, each once. *)
Theorem C4_final_panel_keys_unique :
  forall (inp : MergePanel.Inputs) (out : MergePanel.DataFrame),
    Claims.unique_join_keys inp ->
    MergePanel.df_clean inp = Frame.Ok out ->
    NoDup (map MergePanel.key (MergePanel.rows out)) /\
    Permutation (map MergePanel.key (MergePanel.rows out))
                (map MergePanel.key (MergePanel.rows (MergePanel.worldbank_data inp))).
Proof.
  intros inp out Hu Hrun. unfold MergePanel.df_clean in Hrun.
  destruct (MergePanel.merge_sources inp) as [df|] eqn:E; simpl in Hrun; [|discriminate].
  injection Hrun as <-.
  assert (Hperm : Permutation (map MergePanel.key (MergePanel.rows (MergePanel.after_merge df)))
                              (map MergePanel.key (MergePanel.rows (MergePanel.worldbank_data inp)))).
  { rewrite <- (merge_sources_keys inp df Hu E). apply after_merge_keys. }
  split; [|exact Hperm].
  eapply Permutation_NoDup; [apply Permutation_sym, Hperm|].
  destruct Hu as [Hbase _]. exact Hbase.
Qed.

Section MergeColumnFacts.
Import Frame MergePanel Claims.

Lemma header_with_cons (col c : string) (t : list string) :
  String.eqb c col = false ->
  header_with col (c :: t) = c :: header_with col t.
Proof.
  intros E. unfold header_with. simpl.
  rewrite String.eqb_sym, E. simpl.
  destruct (mem col t); reflexivity.
Qed.

Lemma mem_header_with (col : string) (cols : list string) :
  mem col (header_with col cols) = true.
Proof.
  unfold header_with. destruct (mem col cols) eqn:E; [exact E|].
  unfold mem. rewrite existsb_app. simpl. rewrite String.eqb_refl.
  apply orb_true_iff. right. reflexivity.
Qed.

Lemma mem_header_with_other (col c : string) (cols : list string) :
  mem c cols = true -> mem c (header_with col cols) = true.
Proof.
  intros H. unfold header_with. destruct (mem col cols); [exact H|].
  unfold mem. rewrite existsb_app. apply orb_true_iff. left. exact H.
Qed.

Lemma lookup_assign_same (col : string) (v : Cell) (cols : list string) :
  forall cs, lookup col (header_with col cols) (assign col v cols cs) = Some v.
Proof.
  induction cols as [|c t IH]; intros cs.
  - unfold header_with. simpl. rewrite String.eqb_refl. reflexivity.
  - destruct (String.eqb c col) eqn:E.
    + assert (E' : String.eqb col c = true) by (rewrite String.eqb_sym; exact E).
      unfold header_with. simpl. rewrite ?E, ?E'. simpl. rewrite ?E, ?E'.
      reflexivity.
    + rewrite (header_with_cons _ _ _ E). simpl. rewrite E. apply IH.
Qed.

Lemma lookup_assign_other (col c : string) (v : Cell) (cols : list string) :
  c <> col ->
  forall cs, mem c cols = true ->
    lookup c (header_with col cols) (assign col v cols cs) = lookup c cols cs.
Proof.
  intros Hne. induction cols as [|x t IH]; intros cs Hmem; [discriminate|].
  destruct (String.eqb x col) eqn:E.
  - assert (E' : String.eqb col x = true) by (rewrite String.eqb_sym; exact E).
    unfold header_with. simpl. rewrite ?E, ?E'. simpl. rewrite ?E, ?E'.
    apply String.eqb_eq in E. subst x.
    destruct (String.eqb col c) eqn:Ec;
      [apply String.eqb_eq in Ec; congruence | reflexivity].
  - rewrite (header_with_cons _ _ _ E). simpl. rewrite E.
    destruct (String.eqb x c) eqn:Ec; [reflexivity|].
    apply IH. simpl in Hmem. rewrite String.eqb_sym, Ec in Hmem. exact Hmem.
Qed.

Lemma set_column_const (col : string) (v : Cell) (df : DataFrame) :
  holds col v (set_column col (map (fun _ => v) (rows df)) df).
Proof.
  split; [apply mem_header_with|].
  apply Forall_forall. intros r Hr. simpl in Hr.
  apply in_map_iff in Hr. destruct Hr as [[r0 v0] [<- Hin]].
  apply in_combine_r in Hin. apply in_map_iff in Hin. destruct Hin as [_ [<- _]].
  unfold get. simpl. fold (header_with col (columns df)).
  rewrite lookup_assign_same. reflexivity.
Qed.

Lemma set_column_other (col c : string) (v : Cell) (values : list Cell) (df : DataFrame) :
  c <> col -> holds c v df -> holds c v (set_column col values df).
Proof.
  intros Hne [Hmem Hall]. split; [apply mem_header_with_other, Hmem|].
  apply Forall_forall. intros r Hr. simpl in Hr.
  apply in_map_iff in Hr. destruct Hr as [[r0 v0] [<- Hin]].
  apply in_combine_l in Hin. rewrite Forall_forall in Hall.
  unfold get. simpl. fold (header_with col (columns df)).
  rewrite lookup_assign_other by assumption. apply (Hall r0 Hin).
Qed.

Lemma lagged_holds (c : string) (v : Cell) (df : DataFrame) :
  c <> "transit_invest_lag1" -> holds c v df -> holds c v (lagged df).
Proof.
  intros Hne [Hmem Hall]. unfold lagged.
  set (d := mkFrame (columns df) (sort_values _ (rows df))).
  assert (Hd : holds c v d).
  { split; [exact Hmem|]. apply Forall_forall. intros r Hr. simpl in Hr.
    apply sort_values_In in Hr. rewrite Forall_forall in Hall. apply Hall, Hr. }
  destruct (mem "transit_invest_lag1" (columns d)); [exact Hd|].
  apply set_column_other; assumption.
Qed.

Lemma lookup_rename (c old_name new_name : string) (cols : list string) :
  c <> old_name -> c <> new_name ->
  forall cs, lookup c (map (fun x => if String.eqb x old_name then new_name else x) cols) cs
             = lookup c cols cs.
Proof.
  intros Ho Hn. induction cols as [|x t IH]; intros cs; [reflexivity|].
  simpl. destruct (String.eqb x old_name) eqn:E.
  - apply String.eqb_eq in E. subst x.
    replace (String.eqb new_name c) with false
      by (symmetry; apply String.eqb_neq; congruence).
    replace (String.eqb old_name c) with false
      by (symmetry; apply String.eqb_neq; congruence).
    apply IH.
  - destruct (String.eqb x c); [reflexivity | apply IH].
Qed.

Lemma mem_rename (c old_name new_name : string) (cols : list string) :
  c <> old_name ->
  mem c cols = true ->
  mem c (map (fun x => if String.eqb x old_name then new_name else x) cols) = true.
Proof.
  intros Ho. unfold mem. induction cols as [|x t IH]; simpl; [discriminate|].
  intros H. apply orb_true_iff in H. apply orb_true_iff. destruct H as [H|H].
  - left. apply String.eqb_eq in H. subst x.
    replace (String.eqb c old_name) with false
      by (symmetry; apply String.eqb_neq; exact Ho).
    apply String.eqb_refl.
  - right. apply IH, H.
Qed.

Lemma rename_holds (c old_name new_name : string) (v : Cell) (df : DataFrame) :
  c <> old_name -> c <> new_name ->
  holds c v df -> holds c v (rename old_name new_name df).
Proof.
  intros Ho Hn [Hmem Hall]. split; [apply mem_rename; assumption|].
  simpl. eapply Forall_impl; [|exact Hall].
  intros r Hr. unfold get in *. simpl. rewrite lookup_rename; assumption.
Qed.

Lemma renames_hold (c : string) (v : Cell) (l : list (string * string)) :
  Forall (fun p => c <> fst p /\ c <> snd p) l ->
  forall df, holds c v df ->
    holds c v (fold_left (fun df p =>
                            if mem (fst p) (columns df) && negb (mem (snd p) (columns df))
                            then rename (fst p) (snd p) df
                            else df) l df).
Proof.
  induction 1 as [|p t [Ho Hn] _ IH]; simpl; intros df H; [exact H|].
  apply IH. destruct (_ && _); [apply rename_holds; assumption | exact H].
Qed.

Lemma standardize_names_holds (v : Cell) (df : DataFrame) :
  holds "transit_investment_gdp" v df ->
  holds "transit_investment_gdp" v (standardize_names df).
Proof.
  apply renames_hold. unfold rename_map.
  repeat constructor; simpl; discriminate.
Qed.

Lemma ensure_columns_holds (c : string) (v : Cell) (df : DataFrame) :
  holds c v df -> holds c v (ensure_columns df).
Proof.
  unfold ensure_columns. generalize final_columns. intros l. revert df.
  induction l as [|x t IH]; simpl; intros df H; [exact H|].
  apply IH. destruct (mem x (columns df)) eqn:E; [exact H|].
  apply set_column_other; [|exact H].
  intros ->. destruct H as [Hmem _]. congruence.
Qed.

Lemma select_final_holds (v : Cell) (df : DataFrame) :
  holds "transit_investment_gdp" v df ->
  holds "transit_investment_gdp" v (select_final df).
Proof.
  intros [_ Hall]. split; [reflexivity|].
  simpl. apply Forall_forall. intros r Hr.
  apply in_map_iff in Hr. destruct Hr as [r0 [<- Hin]].
  rewrite Forall_forall in Hall. simpl. apply (Hall r0 Hin).
Qed.

Lemma after_merge_holds (v : Cell) (df : DataFrame) :
  holds "transit_investment_gdp" v (transit_investment_gdp df) ->
  holds "transit_investment_gdp" v (after_merge df).
Proof.
  intros H. unfold after_merge.
  apply select_final_holds, ensure_columns_holds, standardize_names_holds, lagged_holds;
    [discriminate | exact H].
Qed.
End MergeColumnFacts.

(** C10 — fabricated zero.  When, after the joins, the frame has no
    transit_investment_gdp column or only missing values in it, and
    neither the ADB-loan proxy (adb_loan_amount with gdp_current_usd) nor
    the road proxy (road_length_km with gdp_current_usd) can be formed,
    the merger sets transit_investment_gdp to the number 0 in every row,
    and the clean panel it saves has that 0, not a missing value, in every
    row. *)
Theorem C10_transit_investment_zero_fallback :
  forall (inp : MergePanel.Inputs) (df : MergePanel.DataFrame),
    MergePanel.merge_sources inp = Frame.Ok df ->
    Frame.mem "transit_investment_gdp" (MergePanel.columns df) = false \/
    forallb Frame.isnull (MergePanel.column "transit_investment_gdp" df) = true ->
    Frame.mem "adb_loan_amount" (MergePanel.columns df)
      && Frame.mem "gdp_current_usd" (MergePanel.columns df) = false ->
    Frame.mem "road_length_km" (MergePanel.columns df)
      && Frame.mem "gdp_current_usd" (MergePanel.columns df) = false ->
    MergePanel.transit_investment_gdp df =
      MergePanel.set_column "transit_investment_gdp"
        (map (fun _ => Some (MergePanel.Num 0)) (MergePanel.rows df)) df /\
    Claims.all_zero "transit_investment_gdp" (MergePanel.transit_investment_gdp df) /\
    exists out,
      MergePanel.df_clean inp = Frame.Ok out /\
      Claims.all_zero "transit_investment_gdp" out /\
      length (MergePanel.rows out) = length (MergePanel.rows df).
Proof.
  intros inp df Hrun Hcol Hadb Hroad.
  assert (E : MergePanel.transit_investment_gdp df =
              MergePanel.set_column "transit_investment_gdp"
                (map (fun _ => Some (MergePanel.Num 0)) (MergePanel.rows df)) df).
  { unfold MergePanel.transit_investment_gdp.
    replace (negb (Frame.mem "transit_investment_gdp" (MergePanel.columns df))
             || forallb Frame.isnull (MergePanel.column "transit_investment_gdp" df))
      with true
      by (symmetry; apply orb_true_iff; destruct Hcol as [->|H]; auto).
    rewrite Hadb, Hroad. reflexivity. }
  assert (H : Claims.holds "transit_investment_gdp" (Some (MergePanel.Num 0))
                    (MergePanel.transit_investment_gdp df))
    by (rewrite E; apply set_column_const).
  split; [exact E|].
  split; [apply H|].
  exists (MergePanel.after_merge df).
  split; [unfold MergePanel.df_clean; rewrite Hrun; reflexivity|].
  split; [apply (after_merge_holds _ _ H)|].
  rewrite <- (length_map MergePanel.key), <- (length_map MergePanel.key (MergePanel.rows df)).
  apply Permutation_length, after_merge_keys.
Qed.

Lemma C4_final_panel_keys_unique_witness :
  exists out,
    MergePanel.df_clean Examples.merge_inputs = Frame.Ok out /\
    NoDup (map MergePanel.key (MergePanel.rows out)).
Proof.
  eexists. split; [reflexivity|].
  apply (C4_final_panel_keys_unique Examples.merge_inputs); [|reflexivity].
  unfold Claims.unique_join_keys, Claims.keys_unique. simpl.
  repeat split; trivial; repeat constructor; simpl; intuition discriminate.
Defined.

Lemma C10_transit_investment_zero_witness :
  exists out,
    MergePanel.df_clean Examples.merge_inputs = Frame.Ok out /\
    Claims.all_zero "transit_investment_gdp" out /\
    length (MergePanel.rows out) = 2%nat.
Proof.
  apply (C10_transit_investment_zero_fallback Examples.merge_inputs _ eq_refl);
    [left; reflexivity | reflexivity | reflexivity].
Defined.

(** ** Winsorizer *)

Section QuantileFacts.
Import Frame Winsorization.

Lemma Qle_bool_total (a b : Q) : Qle_bool a b = true \/ Qle_bool b a = true.
Proof.
  rewrite !Qle_bool_iff. destruct (Qlt_le_dec a b) as [H|H]; [left | right]; lra.
Qed.

Lemma Qle_bool_trans (a b c : Q) :
  Qle_bool a b = true -> Qle_bool b c = true -> Qle_bool a c = true.
Proof. rewrite !Qle_bool_iff. lra. Qed.

Lemma sorted_values (l : list Q) :
  StronglySorted (fun a b => Qle_bool a b = true) (sort_values Qle_bool l).
Proof. apply sort_values_sorted; [apply Qle_bool_total | apply Qle_bool_trans]. Qed.

(** In a sorted list, later positions hold larger values. *)
Lemma sorted_nth_le (xs : list Q) (d : Q) :
  StronglySorted (fun a b => Qle_bool a b = true) xs ->
  forall i j, (i <= j)%nat -> (j < length xs)%nat -> (nth i xs d <= nth j xs d)%Q.
Proof.
  induction 1 as [|x t Ht IH Hx]; intros i j Hij Hj; simpl in Hj; [lia|].
  destruct i as [|i], j as [|j]; simpl; try lia.
  - lra.
  - rewrite Forall_forall in Hx. apply Qle_bool_iff, Hx, nth_In. lia.
  - apply IH; lia.
Qed.

Lemma frac_bounds (pos : Q) :
  (0 <= pos - inject_Z (Qfloor pos))%Q /\ (pos - inject_Z (Qfloor pos) < 1)%Q.
Proof.
  pose proof (Qfloor_le pos) as H1. pose proof (Qlt_floor pos) as H2.
  rewrite inject_Z_plus in H2. change (inject_Z 1) with 1%Q in H2. split; lra.
Qed.

Lemma at_position_between (xs : list Q) (x0 pos : Q) :
  StronglySorted (fun a b => Qle_bool a b = true) xs ->
  (0 <= pos)%Q -> (pos <= inject_Z (Z.of_nat (length xs - 1)))%Q ->
  (0 < length xs)%nat ->
  let lo := Z.to_nat (Qfloor pos) in
  let hi := Nat.min (S lo) (length xs - 1) in
  (lo <= hi)%nat /\ (hi < length xs)%nat /\
  (nth lo xs x0 <= at_position xs x0 pos)%Q /\
  (at_position xs x0 pos <= nth hi xs x0)%Q.
Proof.
  intros Hs H0 Hn Hlen lo hi.
  assert (Hlo : (lo <= length xs - 1)%nat).
  { unfold lo. apply Nat2Z.inj_le. rewrite Z2Nat.id.
    - apply Qfloor_resp_le in Hn. rewrite Qfloor_Z in Hn. exact Hn.
    - apply Qfloor_resp_le in H0. change (Qfloor 0) with 0%Z in H0. exact H0. }
  assert (Hlh : (lo <= hi)%nat) by (unfold hi; lia).
  assert (Hhi : (hi < length xs)%nat) by (unfold hi; lia).
  pose proof (sorted_nth_le xs x0 Hs lo hi Hlh Hhi) as Hle.
  destruct (frac_bounds pos) as [Hf0 Hf1].
  unfold at_position. fold lo. fold hi.
  set (a := nth lo xs x0) in *. set (b := nth hi xs x0) in *.
  set (f := (pos - inject_Z (Qfloor pos))%Q) in *.
  repeat split; try assumption; nra.
Qed.

Lemma at_position_mono (xs : list Q) (x0 p1 p2 : Q) :
  StronglySorted (fun a b => Qle_bool a b = true) xs ->
  (0 < length xs)%nat ->
  (0 <= p1)%Q -> (p1 <= p2)%Q -> (p2 <= inject_Z (Z.of_nat (length xs - 1)))%Q ->
  (at_position xs x0 p1 <= at_position xs x0 p2)%Q.
Proof.
  intros Hs Hlen H0 H12 Hn.
  destruct (at_position_between xs x0 p1 Hs H0 ltac:(lra) Hlen) as (Hlh1 & Hhi1 & Ha1 & Hb1).
  destruct (at_position_between xs x0 p2 Hs ltac:(lra) Hn Hlen) as (Hlh2 & Hhi2 & Ha2 & Hb2).
  assert (Hfl : (Qfloor p1 <= Qfloor p2)%Z) by (apply Qfloor_resp_le, H12).
  assert (Hfl0 : (0 <= Qfloor p1)%Z)
    by (apply Qfloor_resp_le in H0; change (Qfloor 0) with 0%Z in H0; exact H0).
  destruct (Z.eq_dec (Qfloor p1) (Qfloor p2)) as [E|NE].
  - unfold at_position in *. rewrite <- E in *.
    set (lo := Z.to_nat (Qfloor p1)) in *.
    set (hi := Nat.min (S lo) (length xs - 1)) in *.
    pose proof (sorted_nth_le xs x0 Hs lo hi Hlh1 Hhi1) as Hle.
    set (a := nth lo xs x0) in *. set (b := nth hi xs x0) in *.
    destruct (frac_bounds p1) as [Hf0 _].
    set (z := inject_Z (Qfloor p1)) in *.
    nra.
  - assert (Hlt : (Z.to_nat (Qfloor p1) < Z.to_nat (Qfloor p2))%nat) by lia.
    set (lo1 := Z.to_nat (Qfloor p1)) in *.
    set (lo2 := Z.to_nat (Qfloor p2)) in *.
    assert (Hmid : (nth (Nat.min (S lo1) (length xs - 1)) xs x0 <= nth lo2 xs x0)%Q).
    { apply sorted_nth_le; [exact Hs | lia | lia]. }
    lra.
Qed.

(** A lower quantile is at most a higher one. *)
Lemma quantile_mono (q1 q2 : Q) (l : list (option Q)) (a b : Q) :
  (0 <= q1)%Q -> (q1 <= q2)%Q -> (q2 <= 1)%Q ->
  quantile q1 l = Some a -> quantile q2 l = Some b -> (a <= b)%Q.
Proof.
  intros H0 H12 H1. unfold quantile.
  pose proof (sorted_values (dropna l)) as Hs.
  destruct (sort_values Qle_bool (dropna l)) as [|x0 t]; [discriminate|].
  intros Ea Eb. injection Ea as <-. injection Eb as <-.
  set (n := inject_Z (Z.of_nat (length (x0 :: t) - 1))).
  assert (Hn : (0 <= n)%Q).
  { unfold n. change 0%Q with (inject_Z 0). rewrite <- Zle_Qle. lia. }
  assert (G1 : (0 <= q1 * n)%Q) by nra.
  assert (G2 : (q1 * n <= q2 * n)%Q) by nra.
  assert (G3 : (q2 * n <= n)%Q) by nra.
  apply at_position_mono; [exact Hs | simpl; lia | exact G1 | exact G2 | exact G3].
Qed.
End QuantileFacts.

Section WinsorizeFacts.
Import Frame Winsorization Claims.

Lemma cell_eqb_refl (c : option Q) : cell_eqb c c = true.
Proof. destruct c as [q|]; simpl; [apply Qeq_bool_iff; reflexivity | reflexivity]. Qed.

Lemma values_eqb_refl (l : list (option Q)) : values_eqb l l = true.
Proof.
  induction l as [|c t IH]; simpl; [reflexivity|].
  rewrite cell_eqb_refl, IH. reflexivity.
Qed.

(** A pointwise change of a value shows in the comparison. *)
Lemma values_eqb_map_changed (f : option Q -> option Q) (l : list (option Q)) (c : option Q) :
  In c l -> cell_eqb (f c) c = false -> values_eqb (map f l) l = false.
Proof.
  induction l as [|x t IH]; simpl; intros Hin Hc; [contradiction|].
  destruct Hin as [->|Hin].
  - rewrite Hc. reflexivity.
  - rewrite (IH Hin Hc). apply andb_false_r.
Qed.

Lemma count_positive {A : Type} (p : A -> bool) (l : list A) :
  Nat.ltb 0 (length (filter p l)) = true -> exists x, In x l /\ p x = true.
Proof.
  intros H. apply Nat.ltb_lt in H.
  destruct (filter p l) as [|x t] eqn:E; simpl in H; [lia|].
  assert (Hx : In x (filter p l)) by (rewrite E; left; reflexivity).
  apply filter_In in Hx. exists x. exact Hx.
Qed.

Lemma count_zero {A : Type} (p : A -> bool) (l : list A) (x : A) :
  Nat.ltb 0 (length (filter p l)) = false -> In x l -> p x = false.
Proof.
  intros H Hin. apply Nat.ltb_ge in H.
  destruct (p x) eqn:E; [|reflexivity].
  assert (Hx : In x (filter p l)) by (apply filter_In; auto).
  destruct (filter p l); [contradiction | simpl in H; lia].
Qed.

(** The two guards of the loop body decide whether the column changes. *)
Lemma winsorize_column_unfold (l : list (option Q)) :
  winsorize_column l =
    if has_outliers l then
      match quantile (99#100) l, quantile (1#100) l with
      | Some percentile_99, Some percentile_01 =>
          where_below percentile_01 (where_above percentile_99 l)
      | _, _ => l
      end
    else l.
Proof.
  unfold winsorize_column, has_outliers.
  destruct (std_positive l); simpl; [|reflexivity].
  destruct (quantile (99#100) l) as [p99|]; [|reflexivity].
  destruct (quantile (1#100) l) as [p01|]; [|reflexivity].
  destruct (_ || _); reflexivity.
Qed.

Lemma winsorize_column_settled (l : list (option Q)) :
  has_outliers l = false -> winsorize_column l = l.
Proof. intros H. rewrite winsorize_column_unfold, H. reflexivity. Qed.

(** A pass that finds an outlier moves it. *)
Lemma winsorize_column_changes (l : list (option Q)) :
  has_outliers l = true -> values_eqb (winsorize_column l) l = false.
Proof.
  intros H. rewrite winsorize_column_unfold, H.
  unfold has_outliers in H. apply andb_true_iff in H. destruct H as [_ H].
  destruct (quantile (99#100) l) as [p99|] eqn:E99; [|discriminate].
  destruct (quantile (1#100) l) as [p01|] eqn:E01; [|discriminate].
  assert (Hp : (p01 <= p99)%Q)
    by (apply (quantile_mono (1#100) (99#100) l); [lra | lra | lra | exact E01 | exact E99]).
  unfold where_below, where_above. rewrite map_map.
  destruct (Nat.ltb 0 (count_above p99 l)) eqn:Eup.
  - destruct (count_positive _ _ Eup) as [c [Hin Hc]].
    apply values_eqb_map_changed with (c := c); [exact Hin|].
    cbv beta. rewrite Hc. destruct c as [v|]; [|discriminate].
    unfold nan_ltb in *. simpl.
    apply negb_true_iff in Hc.
    assert (Hv : (p99 < v)%Q).
    { apply Qnot_le_lt. intros Hle. apply Qle_bool_iff in Hle. congruence. }
    replace (Qle_bool p01 p99) with true by (symmetry; apply Qle_bool_iff; exact Hp).
    simpl. destruct (Qeq_bool p99 v) eqn:Eq; [|reflexivity].
    apply Qeq_bool_iff in Eq. lra.
  - simpl in H. destruct (count_positive _ _ H) as [c [Hin Hc]].
    apply values_eqb_map_changed with (c := c); [exact Hin|].
    pose proof (count_zero _ _ c Eup Hin) as Hnot. cbv beta in Hnot.
    cbv beta. rewrite Hnot, Hc. destruct c as [v|]; [|discriminate].
    unfold nan_ltb in Hc. simpl.
    apply negb_true_iff in Hc.
    assert (Hv : (v < p01)%Q).
    { apply Qnot_le_lt. intros Hle. apply Qle_bool_iff in Hle. congruence. }
    destruct (Qeq_bool p01 v) eqn:Eq; [|reflexivity].
    apply Qeq_bool_iff in Eq. lra.
Qed.

End WinsorizeFacts.


Section ClipFacts.
Import Frame Winsorization Properties.

Lemma Qle_bool_cases (a b : Q) :
  (Qle_bool a b = true /\ (a <= b)%Q) \/ (Qle_bool a b = false /\ (b < a)%Q).
Proof.
  destruct (Qle_bool a b) eqn:E.
  - left. split; [reflexivity | apply Qle_bool_iff, E].
  - right. split; [reflexivity|]. apply Qnot_le_lt. intros H.
    apply Qle_bool_iff in H. congruence.
Qed.

Lemma clip_cell (lo hi : Q) (c : option Q) :
  (lo <= hi)%Q ->
  clipped lo hi c
    (let c1 := if nan_ltb (Some hi) c then Some hi else c in
     if nan_ltb c1 (Some lo) then Some lo else c1).
Proof.
  intros Hle. destruct c as [x|]; [|exact I].
  cbv zeta. unfold nan_ltb.
  destruct (Qle_bool_cases x hi) as [[-> H1]|[-> H1]]; cbn [negb].
  - destruct (Qle_bool_cases lo x) as [[-> H2]|[-> H2]]; cbn [negb clipped].
    + repeat split; try lra; intros; try reflexivity; lra.
    + repeat split; try lra; intros; try reflexivity; lra.
  - destruct (Qle_bool_cases lo hi) as [[-> H2]|[-> H2]]; cbn [negb clipped]; [|lra].
    repeat split; try lra; intros; try reflexivity; lra.
Qed.

Lemma clip_cell_mono (lo hi x y : Q) :
  (x <= y)%Q ->
  exists x' y',
    (let c1 := if nan_ltb (Some hi) (Some x) then Some hi else Some x in
     if nan_ltb c1 (Some lo) then Some lo else c1) = Some x' /\
    (let c1 := if nan_ltb (Some hi) (Some y) then Some hi else Some y in
     if nan_ltb c1 (Some lo) then Some lo else c1) = Some y' /\
    (x' <= y')%Q.
Proof.
  intros Hxy. cbv zeta. unfold nan_ltb.
  destruct (Qle_bool_cases x hi) as [[-> H1]|[-> H1]];
  destruct (Qle_bool_cases y hi) as [[-> H2]|[-> H2]]; cbn [negb];
  try (destruct (Qle_bool_cases lo x) as [[-> H3]|[-> H3]]);
  try (destruct (Qle_bool_cases lo y) as [[-> H4]|[-> H4]]);
  try (destruct (Qle_bool_cases lo hi) as [[-> H5]|[-> H5]]);
  cbn [negb]; do 2 eexists; (split; [reflexivity|]); (split; [reflexivity|]); lra.
Qed.

Lemma winsorize_column_cases (l : list (option Q)) :
  (winsorize_column l = l /\ has_outliers l = false) \/
  exists p01 p99,
    quantile (1#100) l = Some p01 /\ quantile (99#100) l = Some p99 /\
    winsorize_column l = where_below p01 (where_above p99 l).
Proof.
  rewrite winsorize_column_unfold.
  destruct (has_outliers l) eqn:E; [|left; split; reflexivity].
  unfold has_outliers in E. apply andb_true_iff in E. destruct E as [_ E].
  destruct (quantile (99#100) l) as [p99|]; [|discriminate].
  destruct (quantile (1#100) l) as [p01|]; [|discriminate].
  right. exists p01, p99. auto.
Qed.

Lemma where_nth (lo hi : Q) (l : list (option Q)) (i : nat) (c : option Q) :
  nth_error l i = Some c ->
  nth_error (where_below lo (where_above hi l)) i
  = Some (let c1 := if nan_ltb (Some hi) c then Some hi else c in
          if nan_ltb c1 (Some lo) then Some lo else c1).
Proof.
  intros H. unfold where_below, where_above. rewrite map_map.
  rewrite nth_error_map, H. reflexivity.
Qed.
End ClipFacts.

Section ContractionFacts.
Import Frame Winsorization Properties.

Lemma where_clipped (lo hi : Q) (l : list (option Q)) :
  (lo <= hi)%Q -> Forall2 (clipped lo hi) l (where_below lo (where_above hi l)).
Proof.
  intros Hle. unfold where_below, where_above. rewrite map_map.
  induction l as [|c t IH]; [constructor|].
  cbn [map]. constructor; [apply (clip_cell lo hi c Hle) | exact IH].
Qed.

Lemma Forall2_same {A : Type} (R : A -> A -> Prop) (l : list A) :
  (forall x, In x l -> R x x) -> Forall2 R l l.
Proof.
  induction l as [|c t IH]; intros H; [constructor|].
  constructor; [apply H; left; reflexivity|].
  apply IH. intros x Hx. apply H. right. exact Hx.
Qed.

(** A quantile lies between two values of the column. *)
Lemma quantile_witnesses (q : Q) (l : list (option Q)) (p : Q) :
  (0 <= q)%Q -> (q <= 1)%Q -> quantile q l = Some p ->
  exists a b, In (Some a) l /\ In (Some b) l /\ (a <= p)%Q /\ (p <= b)%Q.
Proof.
  intros H0 H1. unfold quantile.
  pose proof (sorted_values (dropna l)) as Hs.
  pose proof (fun x => sort_values_In Qle_bool (dropna l) x) as Hin.
  destruct (sort_values Qle_bool (dropna l)) as [|x0 t]; [discriminate|].
  intros E. set (xs := x0 :: t) in *.
  assert (E' : at_position xs x0 (q * inject_Z (Z.of_nat (length xs - 1))) = p)
    by (injection E as <-; reflexivity).
  clear E.
  assert (Hn : (0 <= inject_Z (Z.of_nat (length xs - 1)))%Q)
    by (change 0%Q with (inject_Z 0); rewrite <- Zle_Qle; lia).
  set (n := inject_Z (Z.of_nat (length xs - 1))) in *.
  assert (G0 : (0 <= q * n)%Q) by nra.
  assert (G1 : (q * n <= n)%Q) by nra.
  assert (Hlen : (0 < length xs)%nat) by (simpl; lia).
  destruct (at_position_between xs x0 (q * n) Hs G0 G1 Hlen) as (Hlh & Hhi & Ha & Hb).
  rewrite E' in Ha, Hb.
  refine (ex_intro _ _ (ex_intro _ _ (conj _ (conj _ (conj Ha Hb)))));
    apply dropna_In, Hin, nth_In; lia.
Qed.

Lemma quantile_within (q lo hi : Q) (l : list (option Q)) (p : Q) :
  (0 <= q)%Q -> (q <= 1)%Q ->
  (forall x, In (Some x) l -> (lo <= x <= hi)%Q) ->
  quantile q l = Some p -> (lo <= p <= hi)%Q.
Proof.
  intros H0 H1 H E.
  destruct (quantile_witnesses q l p H0 H1 E) as (a & b & Ha & Hb & Hap & Hpb).
  pose proof (H a Ha). pose proof (H b Hb). lra.
Qed.

Lemma quantile_defined (q : Q) (l : list (option Q)) (x : Q) :
  In (Some x) l -> exists p, quantile q l = Some p.
Proof.
  intros Hx. unfold quantile.
  pose proof (sort_values_In Qle_bool (dropna l) x) as Hin.
  destruct (sort_values Qle_bool (dropna l)) as [|x0 t]; [|eexists; reflexivity].
  exfalso. apply dropna_In, Hin in Hx. exact Hx.
Qed.

Lemma sumQ_ge_term (ys : list Q) (y : Q) :
  (forall z, In z ys -> (0 <= z)%Q) -> In y ys -> (y <= sumQ ys)%Q.
Proof.
  induction ys as [|z t IH]; intros Hpos Hin; [contradiction|].
  cbn [sumQ fold_right]. fold (sumQ t).
  assert (Ht : (0 <= sumQ t)%Q).
  { clear - Hpos. induction t as [|u t IH]; [cbn; lra|].
    cbn [sumQ fold_right]. fold (sumQ t).
    assert (0 <= u)%Q by (apply Hpos; right; left; reflexivity).
    assert (0 <= sumQ t)%Q.
    { apply IH. intros w [<-|Hw]; apply Hpos; [left; reflexivity | right; right; exact Hw]. }
    lra. }
  destruct Hin as [->|Hin].
  - lra.
  - assert (0 <= z)%Q by (apply Hpos; left; reflexivity).
    assert (y <= sumQ t)%Q
      by (apply IH; [intros w Hw; apply Hpos; right; exact Hw | exact Hin]).
    lra.
Qed.

Lemma two_values_length (xs : list Q) (a b : Q) :
  In a xs -> In b xs -> (a < b)%Q -> (2 <= length xs)%nat.
Proof.
  destruct xs as [|x [|y t]]; simpl; [tauto| |lia].
  intros [<-|[]] [<-|[]] H. lra.
Qed.

(** A column with two different values has a positive standard
    deviation. *)
Lemma std_positive_of_distinct (l : list (option Q)) (a b : Q) :
  In (Some a) l -> In (Some b) l -> (a < b)%Q -> std_positive l = true.
Proof.
  intros Ha Hb Hab. apply dropna_In in Ha. apply dropna_In in Hb.
  pose proof (two_values_length _ _ _ Ha Hb Hab) as Hlen.
  unfold std_positive, variance, mean.
  destruct (dropna l) as [|x t] eqn:E; [contradiction|].
  set (xs := x :: t) in *.
  set (m := (sumQ xs / inject_Z (Z.of_nat (length xs)))%Q). clearbody m.
  destruct (Nat.leb (length xs) 1) eqn:El; [apply Nat.leb_le in El; lia|].
  set (sq := fun x0 : Q => ((x0 - m) * (x0 - m))%Q).
  assert (Hpos : forall z, In z (map sq xs) -> (0 <= z)%Q).
  { intros z Hz. apply in_map_iff in Hz. destruct Hz as (u & <- & _). unfold sq.
    generalize (u - m)%Q. intros w. nra. }
  assert (Sa : (sq a <= sumQ (map sq xs))%Q)
    by (apply sumQ_ge_term; [exact Hpos | apply in_map, Ha]).
  assert (Sb : (sq b <= sumQ (map sq xs))%Q)
    by (apply sumQ_ge_term; [exact Hpos | apply in_map, Hb]).
  assert (HS : (0 < sumQ (map sq xs))%Q).
  { set (S := sumQ (map sq xs)) in *. unfold sq in Sa, Sb.
    destruct (Qlt_le_dec a m) as [Hm|Hm].
    - assert (0 < (a - m) * (a - m))%Q by nra. lra.
    - assert (0 < (b - m) * (b - m))%Q by nra. lra. }
  assert (Hk : (0 < inject_Z (Z.of_nat (length xs - 1)))%Q)
    by (change 0%Q with (inject_Z 0); rewrite <- Zlt_Qlt; lia).
  unfold nan_ltb. apply negb_true_iff.
  destruct (Qle_bool_cases (sumQ (map sq xs) / inject_Z (Z.of_nat (length xs - 1))) 0)
    as [[_ H]|[H _]]; [|exact H].
  exfalso.
  assert (0 < sumQ (map sq xs) / inject_Z (Z.of_nat (length xs - 1)))%Q
    by (apply Qlt_shift_div_l; [exact Hk | lra]).
  lra.
Qed.

(** Without an outlier every value lies between the two percentiles. *)
Lemma no_outliers_inside (l : list (option Q)) (p01 p99 : Q) :
  quantile (1#100) l = Some p01 -> quantile (99#100) l = Some p99 ->
  has_outliers l = false ->
  forall x, In (Some x) l -> (p01 <= x <= p99)%Q.
Proof.
  intros E01 E99 G x Hx. unfold has_outliers in G. rewrite E01, E99 in G.
  destruct (std_positive l) eqn:Hstd; cbn [andb] in G.
  - apply orb_false_iff in G. destruct G as [Gu Gl].
    pose proof (count_zero _ _ (Some x) Gu Hx) as Hu.
    pose proof (count_zero _ _ (Some x) Gl Hx) as Hl. cbv beta in Hu, Hl.
    unfold nan_ltb in Hu, Hl.
    apply negb_false_iff, Qle_bool_iff in Hu.
    apply negb_false_iff, Qle_bool_iff in Hl. lra.
  - destruct (quantile_witnesses (1#100) _ _ ltac:(lra) ltac:(lra) E01) as (a1 & b1 & _ & Hb1 & _ & Hpb).
    destruct (quantile_witnesses (99#100) _ _ ltac:(lra) ltac:(lra) E99) as (a9 & b9 & Ha9 & _ & Hap & _).
    split.
    + destruct (Qlt_le_dec x b1) as [H|H]; [|lra].
      rewrite (std_positive_of_distinct l x b1 Hx Hb1 H) in Hstd. discriminate.
    + destruct (Qlt_le_dec a9 x) as [H|H]; [|lra].
      rewrite (std_positive_of_distinct l a9 x Ha9 Hx H) in Hstd. discriminate.
Qed.

(** With an outlier some value lies outside the two percentiles. *)
Lemma has_outliers_outside (l : list (option Q)) (p01 p99 : Q) :
  quantile (1#100) l = Some p01 -> quantile (99#100) l = Some p99 ->
  has_outliers l = true ->
  exists x, In (Some x) l /\ ~ (p01 <= x <= p99)%Q.
Proof.
  intros E01 E99 G. unfold has_outliers in G. rewrite E01, E99 in G.
  apply andb_true_iff in G. destruct G as [_ G]. apply orb_true_iff in G.
  destruct G as [G|G]; destruct (count_positive _ _ G) as ([x|] & Hin & Hc);
    try discriminate; exists x; (split; [exact Hin|]);
    unfold nan_ltb in Hc; apply negb_true_iff in Hc; intros [H1 H2];
    [apply Qle_bool_iff in H2 | apply Qle_bool_iff in H1]; congruence.
Qed.

(** One pass clips the column to the percentiles of its input. *)
Lemma winsorize_column_clipped (l : list (option Q)) (p01 p99 : Q) :
  quantile (1#100) l = Some p01 -> quantile (99#100) l = Some p99 ->
  Forall2 (clipped p01 p99) l (winsorize_column l).
Proof.
  intros E01 E99.
  assert (Hp : (p01 <= p99)%Q)
    by (apply (quantile_mono (1#100) (99#100) l); [lra | lra | lra | exact E01 | exact E99]).
  rewrite winsorize_column_unfold. destruct (has_outliers l) eqn:G.
  - rewrite E99, E01. apply where_clipped, Hp.
  - apply Forall2_same. intros [x|] Hx; [|exact I].
    pose proof (no_outliers_inside l p01 p99 E01 E99 G x Hx).
    cbn [clipped]. repeat split; try lra; intros; try reflexivity; lra.
Qed.

Lemma clipped_values (lo hi : Q) (l l' : list (option Q)) :
  Forall2 (clipped lo hi) l l' ->
  forall y, In (Some y) l' -> (lo <= y <= hi)%Q.
Proof.
  intros HF y Hy. destruct (Forall2_In_r _ _ _ _ HF Hy) as ([x|] & _ & H); [|contradiction].
  cbn [clipped] in H. tauto.
Qed.

(** After a pass the largest value is the 99th and the smallest the 1st
    percentile of the input. *)
Lemma clipped_reaches_bounds (l : list (option Q)) (p01 p99 : Q) :
  quantile (1#100) l = Some p01 -> quantile (99#100) l = Some p99 ->
  (exists y, In (Some y) (winsorize_column l) /\ (y == p01)%Q) /\
  (exists y, In (Some y) (winsorize_column l) /\ (y == p99)%Q).
Proof.
  intros E01 E99.
  assert (Hp : (p01 <= p99)%Q)
    by (apply (quantile_mono (1#100) (99#100) l); [lra | lra | lra | exact E01 | exact E99]).
  pose proof (winsorize_column_clipped l p01 p99 E01 E99) as HF.
  destruct (quantile_witnesses (1#100) _ _ ltac:(lra) ltac:(lra) E01) as (a1 & _ & Ha1 & _ & Hap & _).
  destruct (quantile_witnesses (99#100) _ _ ltac:(lra) ltac:(lra) E99) as (_ & b9 & _ & Hb9 & _ & Hpb).
  split.
  - destruct (Forall2_In_l _ _ _ _ HF Ha1) as ([y|] & Hy & H); [|contradiction].
    exists y. split; [exact Hy|]. cbn [clipped] in H. destruct H as (_ & Hin & Hlo & _).
    destruct (Qlt_le_dec a1 p01) as [L|L]; [rewrite (Hlo L); reflexivity|].
    rewrite Hin by lra. lra.
  - destruct (Forall2_In_l _ _ _ _ HF Hb9) as ([y|] & Hy & H); [|contradiction].
    exists y. split; [exact Hy|]. cbn [clipped] in H. destruct H as (_ & Hin & _ & Hhi).
    destruct (Qlt_le_dec p99 b9) as [L|L]; [rewrite (Hhi L); reflexivity|].
    rewrite Hin by lra. lra.
Qed.

Lemma count_positive_intro {A : Type} (p : A -> bool) (l : list A) (x : A) :
  In x l -> p x = true -> Nat.ltb 0 (length (filter p l)) = true.
Proof.
  intros Hin Hp. apply Nat.ltb_lt.
  assert (Hx : In x (filter p l)) by (apply filter_In; auto).
  destruct (filter p l); [contradiction | simpl; lia].
Qed.

Lemma lt_nan_ltb (a b : Q) : (a < b)%Q -> nan_ltb (Some a) (Some b) = true.
Proof.
  intros H. unfold nan_ltb. apply negb_true_iff.
  destruct (Qle_bool_cases b a) as [[_ L]|[E _]]; [lra | exact E].
Qed.

(** The second pass in terms of the percentiles of the input. *)
Lemma second_pass (l : list (option Q)) (p01 p99 : Q) :
  quantile (1#100) l = Some p01 -> quantile (99#100) l = Some p99 ->
  exists p01' p99',
    quantile (1#100) (winsorize_column l) = Some p01' /\
    quantile (99#100) (winsorize_column l) = Some p99' /\
    (p01 <= p01')%Q /\ (p01' <= p99')%Q /\ (p99' <= p99)%Q /\
    (values_eqb (winsorize_column (winsorize_column l)) (winsorize_column l) = true
     <-> (p01' == p01 /\ p99' == p99)%Q).
Proof.
  intros E01 E99.
  pose proof (winsorize_column_clipped l p01 p99 E01 E99) as HF.
  pose proof (clipped_values _ _ _ _ HF) as Hin.
  destruct (clipped_reaches_bounds l p01 p99 E01 E99) as [(y1 & Hy1 & Ey1) (y9 & Hy9 & Ey9)].
  destruct (quantile_defined (1#100) _ _ Hy1) as [p01' F01].
  destruct (quantile_defined (99#100) _ _ Hy1) as [p99' F99].
  exists p01', p99'.
  pose proof (quantile_within (1#100) _ _ _ _ ltac:(lra) ltac:(lra) Hin F01) as [L1 _].
  pose proof (quantile_within (99#100) _ _ _ _ ltac:(lra) ltac:(lra) Hin F99) as [_ L9].
  assert (Lm : (p01' <= p99')%Q)
    by (apply (quantile_mono (1#100) (99#100) (winsorize_column l));
        [lra | lra | lra | exact F01 | exact F99]).
  repeat (split; [assumption|]).
  set (once := winsorize_column l) in *.
  split.
  - intros He. destruct (has_outliers once) eqn:G.
    + rewrite (winsorize_column_changes once G) in He. discriminate.
    + pose proof (no_outliers_inside once p01' p99' F01 F99 G) as Hins.
      pose proof (Hins y1 Hy1). pose proof (Hins y9 Hy9). split; lra.
  - intros [Q1 Q9]. rewrite winsorize_column_settled; [apply values_eqb_refl|].
    unfold has_outliers. rewrite F01, F99.
    assert (Gu : Nat.ltb 0 (count_above p99' once) = false).
    { destruct (Nat.ltb 0 (count_above p99' once)) eqn:Gu; [|reflexivity].
      destruct (count_positive _ _ Gu) as ([x|] & Hx & Hc); [|discriminate].
      unfold nan_ltb in Hc. apply negb_true_iff in Hc.
      pose proof (Hin x Hx).
      assert (Qle_bool x p99' = true) by (apply Qle_bool_iff; lra). congruence. }
    assert (Gl : Nat.ltb 0 (count_below p01' once) = false).
    { destruct (Nat.ltb 0 (count_below p01' once)) eqn:Gl; [|reflexivity].
      destruct (count_positive _ _ Gl) as ([x|] & Hx & Hc); [|discriminate].
      unfold nan_ltb in Hc. apply negb_true_iff in Hc.
      pose proof (Hin x Hx).
      assert (Qle_bool p01' x = true) by (apply Qle_bool_iff; lra). congruence. }
    rewrite Gu, Gl. apply andb_false_r.
Qed.

Lemma winsorize_In (df : DataFrame) (name : string) (l : list (option Q)) :
  In (name, Numeric l) df -> mem name exclude_cols = false ->
  In (name, Numeric (winsorize_column l)) (winsorize df).
Proof.
  intros Hin Hn. unfold winsorize. apply in_map_iff.
  exists (name, Numeric l). split; [|exact Hin].
  unfold winsorize_named. cbn [fst snd]. rewrite Hn. reflexivity.
Qed.

Lemma to_float64_small (z : Z) :
  (Z.abs z <= 9007199254740992)%Z -> to_float64 z = inject_Z z.
Proof.
  intros Hz. unfold to_float64.
  destruct (Z.log2 (Z.abs z) - 52 <=? 0)%Z eqn:E; [reflexivity|].
  apply Z.leb_gt in E.
  assert (L : (Z.log2 (Z.abs z) <= Z.log2 9007199254740992)%Z) by (apply Z.log2_le_mono, Hz).
  change (Z.log2 9007199254740992) with 53%Z in L.
  assert (E1 : (Z.log2 (Z.abs z) = 53)%Z) by lia.
  assert (Hpos : (0 < Z.abs z)%Z).
  { destruct (Z.eq_dec (Z.abs z) 0) as [E0|]; [rewrite E0 in E1; discriminate | lia]. }
  destruct (Z.log2_spec _ Hpos) as [Hlo _]. rewrite E1 in Hlo.
  change (2 ^ 53)%Z with 9007199254740992%Z in Hlo.
  assert (Ea : Z.abs z = 9007199254740992%Z) by lia.
  rewrite E1, Ea. cbv zeta.
  change (Z.shiftr 9007199254740992 (53 - 52)) with 4503599627370496%Z.
  change (53 - 52)%Z with 1%Z.
  change (Z.shiftl (if (9007199254740992 - Z.shiftl 4503599627370496 1 <? Z.shiftl 1 (1 - 1))%Z
                    then 4503599627370496%Z
                    else if (Z.shiftl 1 (1 - 1) <? 9007199254740992 - Z.shiftl 4503599627370496 1)%Z
                         then (4503599627370496 + 1)%Z
                         else if Z.even 4503599627370496 then 4503599627370496%Z
                              else (4503599627370496 + 1)%Z) 1)
    with 9007199254740992%Z.
  f_equal. rewrite <- Ea. rewrite Z.mul_comm. apply Z.abs_sgn.
Qed.
End ContractionFacts.

(** C5 (as stated) fails: on a column holding 0 and 10 the first pass
    clips to 0.1 and 9.9, the second recomputes the percentiles of these
    and clips to 0.198 and 9.802. *)
Lemma C5_second_pass_counterexample :
  ~ Claims.winsorize_idempotent Examples.winsor_frame.
Proof. unfold Claims.winsorize_idempotent. vm_compute. discriminate. Qed.

(** C5 (amended) — winsorizing is a contraction, not an idempotent map.
    Take a float64 column of a table, outside the excluded names, with at
    least one value, and let p01 and p99 be its 1st and 99th percentile.
    The first pass clips the column to [p01, p99].  The second pass
    recomputes the percentiles on the clipped values: they satisfy
    p01 <= p01' <= p99' <= p99, and the second pass clips the
    once-winsorized column to [p01', p99'].  The second pass reproduces
    the first exactly when both percentiles are unmoved, p01' = p01 and
    p99' = p99; when one of them has moved inward, the second pass changes
    the column again. *)
Theorem C5_second_pass_contracts :
  forall (df : Winsorization.DataFrame) (name : string)
         (l : list (option Q)) (p01 p99 : Q),
    In (name, Winsorization.Numeric l) df ->
    Frame.mem name Winsorization.exclude_cols = false ->
    Winsorization.quantile (1#100) l = Some p01 ->
    Winsorization.quantile (99#100) l = Some p99 ->
    let once := Winsorization.winsorize_column l in
    let twice := Winsorization.winsorize_column once in
    In (name, Winsorization.Numeric once) (Winsorization.winsorize df) /\
    In (name, Winsorization.Numeric twice)
       (Winsorization.winsorize (Winsorization.winsorize df)) /\
    Forall2 (Properties.clipped p01 p99) l once /\
    exists p01' p99',
      Winsorization.quantile (1#100) once = Some p01' /\
      Winsorization.quantile (99#100) once = Some p99' /\
      (p01 <= p01')%Q /\ (p01' <= p99')%Q /\ (p99' <= p99)%Q /\
      Forall2 (Properties.clipped p01' p99') once twice /\
      (Winsorization.values_eqb twice once = true <-> (p01' == p01 /\ p99' == p99)%Q).
Proof.
  intros df name l p01 p99 Hin Hn E01 E99 once twice.
  split; [apply winsorize_In; assumption|].
  split; [apply winsorize_In; [apply winsorize_In|]; assumption|].
  split; [apply winsorize_column_clipped; assumption|].
  destruct (second_pass l p01 p99 E01 E99)
    as (p01' & p99' & F01 & F99 & L1 & Lm & L9 & Hiff).
  exists p01', p99'. repeat (split; [assumption|]).
  split; [apply winsorize_column_clipped; assumption | exact Hiff].
Qed.

(** On the column 0, 1, ..., 100 the first pass moves 0 to 1 and 100 to
    99; the percentiles of the result are again 1 and 99, and the second
    pass changes nothing. *)
Lemma C5_second_pass_witness :
  Winsorization.values_eqb (Winsorization.winsorize_column Examples.winsor_centile)
                           Examples.winsor_centile = false /\
  Winsorization.values_eqb
    (Winsorization.winsorize_column (Winsorization.winsorize_column Examples.winsor_centile))
    (Winsorization.winsorize_column Examples.winsor_centile) = true.
Proof.
  split; [vm_compute; reflexivity|].
  destruct (C5_second_pass_contracts
              [("x", Winsorization.Numeric Examples.winsor_centile)] "x"
              Examples.winsor_centile (100#100) (9900#100)
              (or_introl eq_refl) eq_refl)
    as (_ & _ & _ & p01' & p99' & F01 & F99 & _ & _ & _ & _ & Hiff);
    [vm_compute; reflexivity | vm_compute; reflexivity |].
  apply Hiff. vm_compute in F01, F99.
  injection F01 as <-. injection F99 as <-. split; reflexivity.
Defined.

(** ** Per-country transforms *)

Section GroupFacts.
Import Frame MissingValues Claims.
Context {A : Type}.

Lemma group_values_scatter_other (c c' : string) :
  c <> c' ->
  forall (cs : list string) (new acc : list A),
    group_values cs c (scatter cs c' new acc) = group_values cs c acc.
Proof.
  intros Hne. induction cs as [|k ks IH]; intros new acc; [destruct acc; reflexivity|].
  destruct acc as [|v vs]; [reflexivity|].
  cbn [scatter]. destruct (String.eqb k c') eqn:E'.
  - apply String.eqb_eq in E'. subst k.
    assert (E : String.eqb c' c = false) by (apply String.eqb_neq; congruence).
    destruct new as [|n ns]; cbn [group_values]; rewrite E; apply IH.
  - cbn [group_values]. destruct (String.eqb k c); [f_equal|]; apply IH.
Qed.

Lemma group_values_scatter_same (c : string) :
  forall (cs : list string) (new acc : list A),
    length new = length (group_values cs c acc) ->
    group_values cs c (scatter cs c new acc) = new.
Proof.
  induction cs as [|k ks IH]; intros new acc Hlen.
  - destruct acc; simpl in Hlen; destruct new; try discriminate; reflexivity.
  - destruct acc as [|v vs].
    + simpl in Hlen. destruct new; [reflexivity | discriminate].
    + cbn [scatter group_values] in *. destruct (String.eqb k c) eqn:E.
      * destruct new as [|n ns]; [discriminate|].
        cbn [group_values]; rewrite ?E. f_equal. apply IH.
        simpl in Hlen. lia.
      * cbn [group_values]; rewrite ?E. apply IH, Hlen.
Qed.

Lemma group_values_absent (c : string) (cs : list string) (col : list A) :
  ~ In c cs -> group_values cs c col = [].
Proof.
  revert col. induction cs as [|k ks IH]; intros col Hc; [reflexivity|].
  destruct col as [|v vs]; [reflexivity|]. cbn [group_values].
  assert (E : String.eqb k c = false).
  { apply String.eqb_neq. intros ->. apply Hc. left. reflexivity. }
  rewrite E. apply IH. intros H. apply Hc. right. exact H.
Qed.

Variable f : list A -> list A.
Hypothesis f_length : forall g, length (f g) = length g.

Lemma transform_groups (cs : list string) (col : list A) (groups : list string) :
  NoDup groups ->
  forall acc,
    (forall c, In c groups -> group_values cs c acc = group_values cs c col) ->
    forall c,
      group_values cs c
        (fold_left (fun acc c => scatter cs c (f (group_values cs c col)) acc) groups acc)
      = if in_dec string_dec c groups then f (group_values cs c col)
        else group_values cs c acc.
Proof.
  induction 1 as [|c0 t Hc0 Hnd IH]; intros acc Hacc c; [reflexivity|].
  cbn [fold_left].
  set (acc1 := scatter cs c0 (f (group_values cs c0 col)) acc).
  assert (H1 : forall x, In x t -> group_values cs x acc1 = group_values cs x col).
  { intros x Hx. unfold acc1. rewrite group_values_scatter_other.
    - apply Hacc. right. exact Hx.
    - intros ->. contradiction. }
  rewrite (IH acc1 H1 c).
  destruct (in_dec string_dec c t) as [Ht|Ht];
    destruct (in_dec string_dec c (c0 :: t)) as [Ht'|Ht']; try reflexivity.
  - exfalso. apply Ht'. right. exact Ht.
  - destruct Ht' as [->|Ht']; [|contradiction].
    unfold acc1. apply group_values_scatter_same.
    rewrite f_length, Hacc; [reflexivity | left; reflexivity].
  - unfold acc1. apply group_values_scatter_other.
    intros ->. apply Ht'. left. reflexivity.
Qed.

Lemma transform_group_values (cs : list string) (col : list A) (c : string) :
  group_values cs c (transform f cs col) = f (group_values cs c col).
Proof.
  unfold transform.
  rewrite (transform_groups cs col (nodup string_dec cs)
             (NoDup_nodup _ _) col (fun _ _ => eq_refl) c).
  destruct (in_dec string_dec c (nodup string_dec cs)) as [H|H]; [reflexivity|].
  rewrite group_values_absent by (intros Hc; apply H, nodup_In, Hc).
  symmetry. apply length_zero_iff_nil. rewrite f_length. reflexivity.
Qed.
End GroupFacts.

Section GroupCells.
Import Frame MissingValues Claims.

(** The cell of a row belongs to the values of the country of the row. *)
Lemma group_values_nth {A : Type} (cs : list string) (c : string) :
  forall (col : list A) (i : nat) (v : A),
    nth_error cs i = Some c -> nth_error col i = Some v ->
    In v (group_values cs c col).
Proof.
  induction cs as [|k ks IH]; intros col i v Hc Hv; [destruct i; discriminate|].
  destruct col as [|x xs]; [destruct i; discriminate|].
  cbn [group_values]. destruct i as [|i]; cbn [nth_error] in Hc, Hv.
  - injection Hc as ->. injection Hv as ->. rewrite String.eqb_refl. left. reflexivity.
  - destruct (String.eqb k c); [right|]; eapply IH; eassumption.
Qed.

Lemma interpolate_all_null (l : list (option Q)) :
  forallb isnull l = true -> forallb isnull (interpolate l) = true.
Proof.
  unfold interpolate. induction l as [|[x|] t IH]; [reflexivity | discriminate|].
  cbn [forallb isnull andb]. intros H. cbn [interpolate_from].
  assert (E : next_valid t = None).
  { clear IH. induction t as [|[y|] u IHu]; [reflexivity | discriminate|].
    cbn [forallb isnull andb] in H. cbn [next_valid]. rewrite (IHu H). reflexivity. }
  rewrite E. cbn [forallb isnull andb]. apply IH, H.
Qed.

Lemma ffill_bfill_all_null (l : list (option Q)) :
  forallb isnull l = true -> forallb isnull (ffill_bfill l) = true.
Proof.
  unfold ffill_bfill, ffill. intros H.
  assert (E : ffill_from None l = l).
  { induction l as [|[x|] t IH]; [reflexivity | discriminate|].
    cbn [forallb isnull andb] in H. cbn [ffill_from]. rewrite (IH H). reflexivity. }
  rewrite E. clear E. induction l as [|[x|] t IH]; [reflexivity | discriminate|].
  cbn [forallb isnull andb] in H. cbn [bfill].
  assert (F : first_valid t = None).
  { clear IH. induction t as [|[y|] u IHu]; [reflexivity | discriminate|].
    cbn [forallb isnull andb] in H. cbn [first_valid]. apply IHu, H. }
  rewrite F. cbn [forallb isnull andb]. apply IH, H.
Qed.
End GroupCells.

(** ** Missing-value handler *)

Section FillFacts.
Import Frame MissingValues Claims.

Lemma extends_refl {A : Type} (l : list (option A)) : extends l l.
Proof. induction l; constructor; [reflexivity | assumption]. Qed.

Lemma extends_trans {A : Type} (l1 l2 l3 : list (option A)) :
  extends l1 l2 -> extends l2 l3 -> extends l1 l3.
Proof.
  unfold extends. intros H. revert l3.
  induction H as [|a b s t Hab _ IH]; intros l3 H23; inversion H23; subst;
    constructor.
  - intros Ha. rewrite <- (Hab Ha). match goal with H : b <> None -> _ |- _ => apply H end.
    rewrite (Hab Ha). exact Ha.
  - apply IH. assumption.
Qed.

Lemma extends_In {A : Type} (l l' : list (option A)) (x : A) :
  extends l l' -> In (Some x) l -> In (Some x) l'.
Proof.
  induction 1 as [|a b s t Hab _ IH]; simpl; [auto|].
  intros [->|Hin]; [left; apply Hab; discriminate | right; apply IH, Hin].
Qed.

Lemma interpolate_extends (l : list (option Q)) :
  forall prev, extends l (interpolate_from prev l).
Proof.
  induction l as [|[x|] t IH]; intros prev; simpl; constructor;
    try apply IH; try reflexivity.
  intros H. contradiction H. reflexivity.
Qed.

Lemma ffill_extends {A : Type} (l : list (option A)) :
  forall prev, extends l (ffill_from prev l).
Proof.
  induction l as [|[x|] t IH]; intros prev; simpl; constructor;
    try apply IH; try reflexivity.
  intros H. contradiction H. reflexivity.
Qed.

Lemma bfill_extends {A : Type} (l : list (option A)) : extends l (bfill l).
Proof.
  induction l as [|[x|] t IH]; simpl; constructor;
    try apply IH; try reflexivity.
  intros H. contradiction H. reflexivity.
Qed.

Lemma ffill_bfill_extends {A : Type} (l : list (option A)) : extends l (ffill_bfill l).
Proof.
  unfold ffill_bfill, ffill.
  eapply extends_trans; [apply ffill_extends | apply bfill_extends].
Qed.

(** Writing a filled group back keeps what the column already had. *)
Lemma scatter_extends {A : Type} (c : string) (countries : list string) :
  forall (col acc new : list (option A)),
    extends col acc ->
    extends (group_values countries c col) new ->
    extends col (scatter countries c new acc).
Proof.
  induction countries as [|k ks IH]; intros col acc new Hacc Hnew.
  - destruct acc; exact Hacc.
  - inversion Hacc as [|v a vs rest Hva Hrest]; subst; [constructor|].
    simpl in *. destruct (String.eqb k c).
    + inversion Hnew as [|? n ? ns Hvn Hns]; subst.
      constructor; [exact Hvn | apply IH; assumption].
    + constructor; [exact Hva | apply IH; assumption].
Qed.

Lemma transform_extends {A : Type} (f : list (option A) -> list (option A))
      (countries : list string) (col : list (option A)) :
  (forall g, extends g (f g)) -> extends col (transform f countries col).
Proof.
  intros Hf. unfold transform.
  assert (H : forall groups acc,
             extends col acc ->
             extends col (fold_left
                            (fun acc c => scatter countries c
                                                  (f (group_values countries c col)) acc)
                            groups acc)).
  { induction groups as [|c t IH]; simpl; intros acc Hacc; [exact Hacc|].
    apply IH, scatter_extends; [exact Hacc | apply Hf]. }
  apply H, extends_refl.
Qed.

Lemma impute_extends (countries : list string) (name : string) (l : list (option Q)) :
  exists li, impute countries name (Numeric l) = Numeric li /\ extends l li.
Proof.
  unfold impute.
  destruct (mem name time_invariant_vars); [exists l; split; [reflexivity | apply extends_refl]|].
  destruct (_ || _);
    [eexists; split; [reflexivity | apply transform_extends; intros g; apply interpolate_extends]|].
  destruct (_ || _); eexists; (split; [reflexivity|]); apply transform_extends; intros g.
  - apply ffill_bfill_extends.
  - apply interpolate_extends.
Qed.

Lemma mean_none (l : list (option Q)) : mean l = None -> all_null l.
Proof.
  unfold mean, all_null. intros H.
  assert (E : dropna l = []) by (destruct (dropna l); [reflexivity | discriminate]).
  clear H. induction l as [|[x|] t IH]; simpl in E; [constructor | discriminate|].
  constructor; [reflexivity | apply IH, E].
Qed.

Lemma mean_some (l : list (option Q)) (x : Q) : In (Some x) l -> mean l <> None.
Proof.
  intros Hin H. apply mean_none in H. unfold all_null in H.
  rewrite Forall_forall in H. specialize (H _ Hin). discriminate.
Qed.

Lemma fillna_null_free (m : Q) (l : list (option Q)) : null_free (fillna m l).
Proof.
  unfold null_free, fillna. apply Forall_forall. intros c Hc.
  apply in_map_iff in Hc. destruct Hc as [[x|] [<- _]]; discriminate.
Qed.

Lemma no_isnull_null_free (l : list (option Q)) :
  existsb isnull l = false -> null_free l.
Proof.
  intros H. apply Forall_forall. intros c Hc ->.
  assert (existsb isnull l = true) by (apply existsb_exists; exists None; auto).
  congruence.
Qed.

(** After the column-mean fill a column has no gap, or nothing but gaps. *)
Lemma fill_mean_cases (l : list (option Q)) :
  null_free (fill_mean l) \/ (all_null (fill_mean l) /\ all_null l).
Proof.
  unfold fill_mean. destruct (existsb isnull l) eqn:E.
  - destruct (mean l) as [m|] eqn:Em.
    + left. apply fillna_null_free.
    + right. split; apply mean_none, Em.
  - left. apply no_isnull_null_free, E.
Qed.

Lemma fill_mean_observed (l : list (option Q)) (x : Q) :
  In (Some x) l -> null_free (fill_mean l).
Proof.
  intros Hin. destruct (fill_mean_cases l) as [H|[_ H]]; [exact H|].
  unfold all_null in H. rewrite Forall_forall in H. specialize (H _ Hin). discriminate.
Qed.

Lemma handle_column_numeric (countries : list string) (name : string)
      (l : list (option Q)) :
  exists li, handle_column countries name (Numeric l) = Numeric (fill_mean li) /\
             extends l li.
Proof.
  unfold handle_column.
  destruct (impute_extends countries name l) as [li [E H]].
  exists li. rewrite E. split; [reflexivity | exact H].
Qed.

Lemma handle_column_object (countries : list string) (name : string)
      (l : list (option string)) :
  exists l', handle_column countries name (Object l) = Object l'.
Proof.
  unfold handle_column, impute.
  destruct (mem name time_invariant_vars); [eexists; reflexivity|].
  destruct (_ || _); [eexists; reflexivity|].
  destruct (_ || _); eexists; reflexivity.
Qed.
End FillFacts.

Section SortFrameFacts.
Import Frame MissingValues Claims.

Lemma order_perm (df : DataFrame) :
  length (year df) = length (country df) ->
  Permutation (order df) (seq 0 (length (country df))).
Proof.
  intros H. unfold order.
  eapply perm_trans; [apply Permutation_map, sort_values_perm|].
  rewrite map_snd_combine; [apply Permutation_refl|].
  rewrite length_seq.
  etransitivity; [apply (length_combine (country df) (year df))|].
  rewrite H. apply Nat.min_id.
Qed.

Lemma take_keeps (df : DataFrame) (l : list (option Q)) (x : Q) :
  length (year df) = length (country df) ->
  length l = length (country df) ->
  In (Some x) l -> In (Some x) (take None (order df) l).
Proof.
  intros Hy Hl Hin.
  destruct (In_nth l (Some x) None Hin) as [i [Hi E]].
  unfold take. apply in_map_iff. exists i. split; [exact E|].
  eapply Permutation_in; [apply Permutation_sym, order_perm; exact Hy|].
  apply in_seq. lia.
Qed.
Lemma take_length {A : Type} (d : A) (idx : list nat) (l : list A) :
  length (take d idx l) = length idx.
Proof. unfold take. apply length_map. Qed.

Lemma order_length (df : DataFrame) :
  length (year df) = length (country df) ->
  length (order df) = length (country df).
Proof.
  intros H. rewrite (Permutation_length (order_perm df H)). apply length_seq.
Qed.
End SortFrameFacts.

Section ResidualFacts.
Import Frame MissingValues Claims.

Lemma extends_length {A : Type} (l l' : list (option A)) :
  extends l l' -> length l' = length l.
Proof. intros H. symmetry. exact (Forall2_length H). Qed.

(** A country without any observation of a column has none after the
    per-country fill either. *)
Lemma impute_group_null (cs : list string) (name : string) (c : string)
      (l li : list (option Q)) :
  impute cs name (Numeric l) = Numeric li ->
  no_observation cs c l = true ->
  forallb isnull (group_values cs c li) = true.
Proof.
  unfold impute, no_observation. intros E H.
  assert (Hi : forall g, length (interpolate g) = length g)
    by (intros g; apply extends_length, interpolate_extends).
  assert (Hf : forall g : list (option Q), length (ffill_bfill g) = length g)
    by (intros g; apply extends_length, ffill_bfill_extends).
  destruct (mem name time_invariant_vars); [injection E as <-; exact H|].
  destruct (_ || _).
  - injection E as <-. rewrite (transform_group_values interpolate Hi).
    apply interpolate_all_null, H.
  - destruct (_ || _); injection E as <-.
    + rewrite (transform_group_values ffill_bfill Hf). apply ffill_bfill_all_null, H.
    + rewrite (transform_group_values interpolate Hi). apply interpolate_all_null, H.
Qed.

Lemma fill_mean_gap (li : list (option Q)) (i : nat) :
  nth_error li i = Some None -> nth_error (fill_mean li) i = Some (mean li).
Proof.
  intros H. unfold fill_mean.
  assert (E : existsb isnull li = true).
  { apply existsb_exists. exists None. split; [|reflexivity].
    eapply nth_error_In. exact H. }
  rewrite E. destruct (mean li) as [m|]; [|exact H].
  unfold fillna. rewrite nth_error_map, H. reflexivity.
Qed.
End ResidualFacts.

(** C6 (as stated) fails: country B has no observation of gdp_per_capita,
    yet its row is filled with the global mean 2 of country A's values 1
    and 3 instead of staying missing. *)
Lemma C6_fabricated_mean_counterexample :
  ~ Claims.structural_nulls_only Examples.missing_frame.
Proof.
  intros H.
  specialize (H "gdp_per_capita" [Some (1#1); Some (3#1); None]
                [Some (1#1); Some (3#1); Some (4#2)]).
  destruct (H (or_introl eq_refl) eq_refl 2%nat "B" eq_refl) as [_ Hnull].
  specialize (Hnull eq_refl). discriminate.
Qed.

(** C6 (amended) — after the handler has run on a panel file, every
    numeric column is free of missing values or consists of missing
    values only; on a rectangular file, a numeric column with at least one
    observation anywhere has no missing value left.  The rows of a country
    without any observation of a column are not left missing: each of them
    receives the mean of the column as it stands after the per-country
    fills, which keep the observed values; it stays missing only when that
    mean does not exist, the column having no observation at all. *)
Theorem C6_missing_values_amended :
  forall (df : MissingValues.DataFrame),
    (forall name l',
       In (name, MissingValues.Numeric l') (MissingValues.columns (MissingValues.handle df)) ->
       Claims.null_free l' \/ Claims.all_null l') /\
    (Claims.rectangular df ->
     forall name l x,
       In (name, MissingValues.Numeric l) (MissingValues.columns df) ->
       In (Some x) l ->
       exists l',
         In (name, MissingValues.Numeric l') (MissingValues.columns (MissingValues.handle df)) /\
         Claims.null_free l') /\
    (Claims.rectangular df ->
     forall name l,
       In (name, MissingValues.Numeric l)
          (MissingValues.columns (MissingValues.sort_frame df)) ->
       exists li l',
         MissingValues.impute (MissingValues.country (MissingValues.sort_frame df)) name
                              (MissingValues.Numeric l) = MissingValues.Numeric li /\
         Claims.extends l li /\
         MissingValues.handle_column (MissingValues.country (MissingValues.sort_frame df))
                                     name (MissingValues.Numeric l)
           = MissingValues.Numeric l' /\
         In (name, MissingValues.Numeric l') (MissingValues.columns (MissingValues.handle df)) /\
         forall i c,
           nth_error (MissingValues.country (MissingValues.handle df)) i = Some c ->
           MissingValues.no_observation
             (MissingValues.country (MissingValues.sort_frame df)) c l = true ->
           nth_error l' i = Some (Frame.mean li)).
Proof.
  intros df. split; [|split].
  - intros name l' Hin. unfold MissingValues.handle in Hin.
    cbv zeta in Hin. cbn [MissingValues.columns] in Hin.
    apply in_map_iff in Hin. destruct Hin as [[n col] [E _]]. cbn [fst snd] in E.
    injection E as -> E.
    destruct col as [l|l].
    + match type of E with
      | MissingValues.handle_column ?cs _ _ = _ =>
          destruct (handle_column_numeric cs name l) as [li [E' _]]
      end.
      rewrite E' in E. injection E as <-.
      destruct (fill_mean_cases li) as [H|[H _]]; auto.
    + match type of E with
      | MissingValues.handle_column ?cs _ _ = _ =>
          destruct (handle_column_object cs name l) as [lo E']
      end.
      rewrite E' in E. discriminate.
  - intros [Hy Hcols] name l x Hin Hx.
    rewrite Forall_forall in Hcols. pose proof (Hcols _ Hin) as Hlen. simpl in Hlen.
    set (ls := MissingValues.take None (MissingValues.order df) l).
    assert (Hs : In (Some x) ls) by (apply take_keeps; assumption).
    destruct (handle_column_numeric
                (MissingValues.country (MissingValues.sort_frame df)) name ls)
      as [li [E Hext]].
    exists (MissingValues.fill_mean li). split.
    + unfold MissingValues.handle. cbv zeta. cbn [MissingValues.columns].
      apply in_map_iff.
      exists (name, MissingValues.Numeric ls). split.
      * cbn [fst snd]. f_equal. exact E.
      * unfold MissingValues.sort_frame. cbn [MissingValues.columns].
        apply in_map_iff. exists (name, MissingValues.Numeric l).
        split; [reflexivity | exact Hin].
    + apply fill_mean_observed with x. eapply extends_In; eassumption.
  - intros [Hy Hcols] name l Hin.
    set (cs := MissingValues.country (MissingValues.sort_frame df)).
    destruct (impute_extends cs name l) as [li [Ei Hext]].
    exists li, (MissingValues.fill_mean li).
    assert (Eh : MissingValues.handle_column cs name (MissingValues.Numeric l)
                 = MissingValues.Numeric (MissingValues.fill_mean li))
      by (unfold MissingValues.handle_column; rewrite Ei; reflexivity).
    split; [exact Ei|]. split; [exact Hext|]. split; [exact Eh|]. split.
    + unfold MissingValues.handle. cbv zeta. cbn [MissingValues.columns].
      apply in_map_iff. exists (name, MissingValues.Numeric l).
      split; [cbn [fst snd]; f_equal; exact Eh | exact Hin].
    + intros i c Hc Hno.
      change (MissingValues.country (MissingValues.handle df)) with cs in Hc.
      assert (Hlen : length l = length cs).
      { unfold cs, MissingValues.sort_frame in *. cbn [MissingValues.country].
        cbn [MissingValues.columns] in Hin. apply in_map_iff in Hin.
        destruct Hin as [[n0 col] [E Hcol]]. cbn [fst snd] in E.
        rewrite Forall_forall in Hcols. specialize (Hcols _ Hcol). cbn [snd] in Hcols.
        rewrite take_length. destruct col as [l0|l0]; cbn [MissingValues.take_column] in E;
          [|discriminate].
        injection E as _ <-. apply take_length. }
      assert (Hi : (i < length li)%nat).
      { rewrite (extends_length _ _ Hext), Hlen. apply nth_error_Some. congruence. }
      destruct (nth_error li i) as [v|] eqn:Ev;
        [|apply nth_error_None in Ev; lia].
      pose proof (impute_group_null cs name c l li Ei Hno) as Hnull.
      rewrite forallb_forall in Hnull.
      specialize (Hnull v (group_values_nth cs c li i v Hc Ev)).
      destruct v; [discriminate|].
      apply fill_mean_gap, Ev.
Qed.

Lemma C6_missing_values_witness :
  exists li l',
    MissingValues.impute (MissingValues.country (MissingValues.sort_frame Examples.missing_frame))
                         "gdp_per_capita"
                         (MissingValues.Numeric [Some (1#1); Some (3#1); None])
      = MissingValues.Numeric li /\
    Claims.extends [Some (1#1); Some (3#1); None] li /\
    MissingValues.handle_column
      (MissingValues.country (MissingValues.sort_frame Examples.missing_frame))
      "gdp_per_capita" (MissingValues.Numeric [Some (1#1); Some (3#1); None])
      = MissingValues.Numeric l' /\
    In ("gdp_per_capita", MissingValues.Numeric l')
       (MissingValues.columns (MissingValues.handle Examples.missing_frame)) /\
    forall i c,
      nth_error (MissingValues.country (MissingValues.handle Examples.missing_frame)) i
        = Some c ->
      MissingValues.no_observation
        (MissingValues.country (MissingValues.sort_frame Examples.missing_frame)) c
        [Some (1#1); Some (3#1); None] = true ->
      nth_error l' i = Some (Frame.mean li).
Proof.
  apply (proj2 (proj2 (C6_missing_values_amended Examples.missing_frame))).
  - split; [reflexivity | repeat constructor].
  - left. reflexivity.
Defined.

(** The interpolation scenario of the specification: the gap between 1000
    and 1200 is filled with 1100. *)
Example interpolation_scenario :
  MissingValues.interpolate [Some (1000#1); None; Some (1200#1)] =
    [Some (1000#1); Some (2200#2); Some (1200#1)].
Proof. reflexivity. Qed.

(** * Further properties of the stages *)

(** ** Congestion proxy estimator: estimates, errors, keys *)

Section EstimateBounds.
Import Frame CongestionProxy.

Lemma bounded_estimate_range (x : option Q) :
  exists q, py_max (num 15) (py_min (num 75) x) = Some q /\ (15 <= q)%Q /\ (q <= 75)%Q.
Proof.
  unfold py_max, py_min, num, nan_ltb.
  change (inject_Z 15) with 15%Q. change (inject_Z 75) with 75%Q.
  destruct x as [v|]; cbn -[Qle_bool].
  - destruct (Qle_bool 75 v) eqn:E1; cbn -[Qle_bool].
    + exists 75%Q. split; [reflexivity | lra].
    + destruct (Qle_bool v 15) eqn:E2; cbn -[Qle_bool].
      * exists 15%Q. split; [reflexivity | lra].
      * exists v. split; [reflexivity|].
        assert (~ (75 <= v)%Q) by (rewrite <- Qle_bool_iff; congruence).
        assert (~ (v <= 15)%Q) by (rewrite <- Qle_bool_iff; congruence).
        lra.
  - exists 75%Q. split; [reflexivity | lra].
Qed.

Lemma lookup_present (col : string) (cols : list string) (cs : list (option Q)) :
  mem col cols = true -> lookup col cols cs <> None.
Proof.
  revert cs. induction cols as [|c t IH]; intros cs H; [discriminate|].
  simpl in *. destruct (String.eqb c col) eqn:E; [discriminate|].
  rewrite String.eqb_sym, E in H. apply IH, H.
Qed.

Lemma lookup_absent (col : string) (cols : list string) (cs : list (option Q)) :
  mem col cols = false -> lookup col cols cs = None.
Proof.
  revert cs. induction cols as [|c t IH]; intros cs H; [reflexivity|].
  simpl in *. apply orb_false_iff in H. destruct H as [H1 H2].
  rewrite String.eqb_sym, H1. apply IH, H2.
Qed.

Lemma estimate_congestion_range (cols : list string) (row : WBRow) (noise : Q)
      (e : option Q) :
  estimate_congestion cols row noise = Ok e ->
  exists q, e = Some q /\ (15 <= q)%Q /\ (q <= 75)%Q.
Proof.
  unfold estimate_congestion, getitem.
  destruct (lookup "gdp_per_capita" cols _); simpl; [|discriminate].
  destruct (lookup "urban_population_pct" cols _); simpl; [|discriminate].
  destruct (lookup "population" cols _); simpl; [|discriminate].
  intros E. injection E as <-. apply bounded_estimate_range.
Qed.
End EstimateBounds.

(** X1 — the rule-based estimate of a row is always a number between 15
    and 75, whatever the covariates (missing ones included) and whatever
    the noise drawn. *)
Theorem X1_rule_based_estimate_bounded :
  forall (cols : list string) (row : CongestionProxy.WBRow) (noise : Q) (e : option Q),
    CongestionProxy.estimate_congestion cols row noise = Frame.Ok e ->
    exists q, e = Some q /\ (15 <= q)%Q /\ (q <= 75)%Q.
Proof.
  intros cols row noise e. apply estimate_congestion_range.
Qed.

Lemma X1_rule_based_estimate_bounded_witness :
  exists q, Some 75%Q = Some q /\ (15 <= q)%Q /\ (q <= 75)%Q.
Proof.
  apply (X1_rule_based_estimate_bounded
           ["gdp_per_capita"; "urban_population_pct"; "population"]
           (CongestionProxy.mkWB "A" 2020 [Some (10000#1); None; Some (1000000#1)])
           3%Q (Some 75%Q)).
  vm_compute. reflexivity.
Defined.

Section RuleBasedTotal.
Import Frame CongestionProxy.

Lemma apply_estimate_total (cols : list string) (entropy : nat -> Q) (rows : list WBRow) :
  mem "gdp_per_capita" cols = true ->
  mem "urban_population_pct" cols = true ->
  mem "population" cols = true ->
  forall i, exists es, apply_estimate cols entropy i rows = Ok es.
Proof.
  intros Hg Hu Hp. induction rows as [|r t IH]; intros i; simpl; [eexists; reflexivity|].
  unfold estimate_congestion, getitem.
  destruct (lookup "gdp_per_capita" cols (wb_cells r)) eqn:Eg;
    [|exfalso; revert Eg; apply lookup_present, Hg].
  destruct (lookup "urban_population_pct" cols (wb_cells r)) eqn:Eu;
    [|exfalso; revert Eu; apply lookup_present, Hu].
  destruct (lookup "population" cols (wb_cells r)) eqn:Ep;
    [|exfalso; revert Ep; apply lookup_present, Hp].
  cbn [bind]. destruct (IH (S i)) as [es ->]. eexists. reflexivity.
Qed.
End RuleBasedTotal.

(** X2 — the rule-based estimator is total over the economic panel when
    the panel has the columns gdp_per_capita, urban_population_pct and
    population: it returns one estimate per row.  When the panel has a row
    and lacks one of them, it raises KeyError for the first one missing in
    that order. *)
Theorem X2_rule_based_total_or_key_error :
  forall (entropy : nat -> Q) (wb : CongestionProxy.WBFrame),
    let has c := Frame.mem c (CongestionProxy.wb_columns wb) in
    (has "gdp_per_capita" = true -> has "urban_population_pct" = true ->
     has "population" = true ->
     exists E, CongestionProxy.rule_based_estimates entropy wb = Frame.Ok E /\
               map CongestionProxy.e_key E =
                 map CongestionProxy.wb_key (CongestionProxy.wb_rows wb)) /\
    (CongestionProxy.wb_rows wb <> [] ->
     (has "gdp_per_capita" = false ->
      CongestionProxy.rule_based_estimates entropy wb =
        Frame.Raise (Frame.KeyError "gdp_per_capita")) /\
     (has "gdp_per_capita" = true -> has "urban_population_pct" = false ->
      CongestionProxy.rule_based_estimates entropy wb =
        Frame.Raise (Frame.KeyError "urban_population_pct")) /\
     (has "gdp_per_capita" = true -> has "urban_population_pct" = true ->
      has "population" = false ->
      CongestionProxy.rule_based_estimates entropy wb =
        Frame.Raise (Frame.KeyError "population"))).
Proof.
  intros entropy wb has. split.
  - intros Hg Hu Hp.
    destruct (apply_estimate_total (CongestionProxy.wb_columns wb) entropy
                (CongestionProxy.wb_rows wb) Hg Hu Hp 0%nat) as [es Ees].
    assert (Hrun : CongestionProxy.rule_based_estimates entropy wb =
                   Frame.Ok (map (fun p =>
                     CongestionProxy.mkEstimate
                       (CongestionProxy.wb_country (fst p)) (CongestionProxy.wb_year (fst p))
                       (snd p)
                       (Frame.lift2 Qplus (CongestionProxy.num 1)
                          (Frame.lift2 Qdiv (snd p) (CongestionProxy.num 100)))
                       "rule_based")
                     (combine (CongestionProxy.wb_rows wb) es)))
      by (rewrite rule_based_estimates_eq;
          [rewrite Ees; reflexivity
          | right; fold (has "gdp_per_capita"); fold (has "urban_population_pct");
            fold (has "population"); rewrite Hg, Hu, Hp; reflexivity]).
    eexists. split; [exact Hrun|].
    apply (rule_based_estimates_ok _ _ _ Hrun).
  - intros Hrows. rewrite rule_based_estimates_eq by (left; exact Hrows).
    destruct (CongestionProxy.wb_rows wb) as [|r t]; [congruence|].
    cbn [CongestionProxy.apply_estimate].
    unfold CongestionProxy.estimate_congestion, CongestionProxy.getitem.
    repeat split.
    + intros Hg. rewrite (lookup_absent _ _ _ Hg). reflexivity.
    + intros Hg Hu.
      destruct (CongestionProxy.lookup "gdp_per_capita" _ _) eqn:Eg;
        [|exfalso; revert Eg; apply lookup_present, Hg].
      cbn [Frame.bind]. rewrite (lookup_absent _ _ _ Hu). reflexivity.
    + intros Hg Hu Hp.
      destruct (CongestionProxy.lookup "gdp_per_capita" _ _) eqn:Eg;
        [|exfalso; revert Eg; apply lookup_present, Hg].
      destruct (CongestionProxy.lookup "urban_population_pct" _ _) eqn:Eu;
        [|exfalso; revert Eu; apply lookup_present, Hu].
      cbn [Frame.bind]. rewrite (lookup_absent _ _ _ Hp). reflexivity.
Qed.

Lemma X2_rule_based_total_witness :
  exists E,
    CongestionProxy.rule_based_estimates Examples.draws_three Examples.wb_one = Frame.Ok E /\
    map CongestionProxy.e_key E = [("A", 2020)].
Proof.
  apply (X2_rule_based_total_or_key_error Examples.draws_three Examples.wb_one);
    reflexivity.
Defined.

Section OutputFacts.
Import Frame CongestionProxy Claims.

Lemma clip_range (x : Q) : (10 <= clip 10 80 x)%Q /\ (clip 10 80 x <= 80)%Q.
Proof.
  unfold clip. split.
  - apply Q.min_glb; [lra | apply Q.le_max_l].
  - apply Q.le_min_l.
Qed.

Lemma apply_estimate_bounded (cols : list string) (entropy : nat -> Q) (rows : list WBRow) :
  forall (i : nat) (es : list (option Q)),
    apply_estimate cols entropy i rows = Ok es ->
    Forall (fun e => exists q, e = Some q /\ (15 <= q)%Q /\ (q <= 75)%Q) es.
Proof.
  induction rows as [|r t IH]; simpl; intros i es E.
  - injection E as <-. constructor.
  - destruct (estimate_congestion cols r (entropy i)) as [e|] eqn:Ee; simpl in E;
      [|discriminate].
    destruct (apply_estimate cols entropy (S i) t) as [es'|] eqn:Et; simpl in E;
      [|discriminate].
    injection E as <-. constructor; [|eapply IH; exact Et].
    eapply estimate_congestion_range. exact Ee.
Qed.

Lemma rule_based_estimates_bounded (entropy : nat -> Q) (wb : WBFrame) (E : list Estimate) :
  rule_based_estimates entropy wb = Ok E ->
  Forall (fun e => exists q, e_congestion_level_pct e = Some q /\ (15 <= q)%Q /\ (q <= 75)%Q) E.
Proof.
  intros H. apply rule_based_estimates_saved in H.
  destruct (apply_estimate (wb_columns wb) entropy 0 (wb_rows wb)) as [es|] eqn:Ea;
    simpl in H; [|discriminate].
  injection H as <-. pose proof (apply_estimate_bounded _ _ _ _ _ Ea) as Hall.
  apply Forall_forall. intros e He. apply in_map_iff in He.
  destruct He as [[w est] [<- Hin]]. simpl.
  apply in_combine_r in Hin. rewrite Forall_forall in Hall. apply Hall, Hin.
Qed.

Lemma ml_estimates_bounded (sk : Sklearn) (mg : list (GroupRow * WBRow)) (wb : WBFrame)
      (E : list Estimate) :
  ml_estimates sk mg wb = Ok E ->
  Forall (fun e => exists q, e_congestion_level_pct e = Some q /\ (10 <= q)%Q /\ (q <= 80)%Q) E.
Proof.
  unfold ml_estimates. intros H.
  destruct (mem "congestion_level_pct" (wb_columns wb)); [discriminate|].
  destruct (fit_transform sk _) as [sx|]; simpl in H; [|discriminate].
  destruct (existsb isnull _); [discriminate|].
  destruct (rf_fit sk _ _ _) as [model|]; simpl in H; [|discriminate].
  destruct (transform sk _ _) as [Xs|]; simpl in H; [|discriminate].
  destruct (rf_predict sk _ _) as [pred|]; simpl in H; [|discriminate].
  destruct (negb _); simpl in H; [discriminate|].
  injection H as <-.
  apply Forall_forall. intros e He. apply in_map_iff in He.
  destruct He as [[w raw] [<- Hin]]. cbn [e_congestion_level_pct fst snd].
  eexists. split; [reflexivity | apply clip_range].
Qed.

(** The saved table, with the branch that produced the estimates. *)
Lemma congestion_comprehensive_branch (sk : Sklearn) (entropy : nat -> Q)
      (wb : WBFrame) (tomtom : list CityRow) (out : list Row) :
  congestion_comprehensive sk entropy wb tomtom = Ok out ->
  exists E,
    (if use_rule_based (merged (tomtom_country tomtom) wb)
     then rule_based_estimates entropy wb
     else ml_estimates sk (merged (tomtom_country tomtom) wb) wb) = Ok E /\
    out = sort_values (fun a b => key_leb (key a) (key b))
                      (combined (tomtom_country tomtom) E).
Proof.
  unfold congestion_comprehensive. intros H.
  destruct (if use_rule_based _ then _ else _) as [E|]; simpl in H; [|discriminate].
  injection H as <-. exists E. auto.
Qed.

Lemma branch_estimates_for (sk : Sklearn) (entropy : nat -> Q)
      (wb : WBFrame) (tomtom : list CityRow) (E : list Estimate) :
  (if use_rule_based (merged (tomtom_country tomtom) wb)
   then rule_based_estimates entropy wb
   else ml_estimates sk (merged (tomtom_country tomtom) wb) wb) = Ok E ->
  estimates_for wb (if use_rule_based (merged (tomtom_country tomtom) wb)
                    then "rule_based" else "ml_random_forest") E.
Proof.
  destruct (use_rule_based _); intros H;
    [eapply rule_based_estimates_ok | eapply ml_estimates_ok]; exact H.
Qed.

Lemma key_leb_total (a b : Key) : key_leb a b = true \/ key_leb b a = true.
Proof. apply (leb_of_total _ key_compare_ok). Qed.

Lemma key_leb_trans (a b c : Key) :
  key_leb a b = true -> key_leb b c = true -> key_leb a c = true.
Proof. apply (leb_of_trans _ key_compare_ok). Qed.

(** Sorted by a key without repeated keys is strictly increasing. *)
Lemma sorted_distinct_strict {A : Type} (k : A -> Key) (l : list A) :
  StronglySorted (fun a b => key_leb (k a) (k b) = true) l ->
  NoDup (map k l) ->
  StronglySorted (fun a b => key_compare (k a) (k b) = Lt) l.
Proof.
  induction 1 as [|x t Ht IH Hx]; intros Hnd; [constructor|].
  inversion Hnd as [|? ? Hnin Hnd']; subst.
  constructor; [apply IH, Hnd'|].
  rewrite Forall_forall in *. intros y Hy.
  specialize (Hx y Hy). unfold key_leb in Hx.
  destruct (key_compare (k x) (k y)) eqn:E; [|reflexivity|discriminate].
  apply key_compare_eq in E. exfalso. apply Hnin. rewrite E. apply in_map, Hy.
Qed.
End OutputFacts.

(** X3 — every estimated row of the saved table carries a number within
    the bounds of its estimator: between 15 and 75 when tagged
    'rule_based', between 10 and 80 when tagged 'ml_random_forest'. *)
Theorem X3_estimated_rows_bounded :
  forall (sk : CongestionProxy.Sklearn) (entropy : nat -> Q)
         (wb_df : CongestionProxy.WBFrame) (tomtom_df : list CongestionProxy.CityRow)
         (out : list CongestionProxy.Row) (r : CongestionProxy.Row),
    CongestionProxy.congestion_comprehensive sk entropy wb_df tomtom_df = Frame.Ok out ->
    In r out ->
    CongestionProxy.data_source r <> "actual_tomtom" ->
    exists q,
      CongestionProxy.congestion_level_pct r = Some q /\
      ((CongestionProxy.data_source r = "rule_based" /\ (15 <= q)%Q /\ (q <= 75)%Q) \/
       (CongestionProxy.data_source r = "ml_random_forest" /\ (10 <= q)%Q /\ (q <= 80)%Q)).
Proof.
  intros sk entropy wb tomtom out r Hrun Hr Hsrc.
  destruct (congestion_comprehensive_branch _ _ _ _ _ Hrun) as [E [HE ->]].
  apply sort_values_In in Hr.
  destruct (combined_origin _ _ _ Hr) as [[a [_ ->]]|[e [He ->]]];
    [exfalso; apply Hsrc; reflexivity|].
  pose proof (branch_estimates_for _ _ _ _ _ HE) as [_ Hmeth].
  rewrite Forall_forall in Hmeth. destruct (Hmeth e He) as [Hm _].
  destruct (CongestionProxy.use_rule_based _).
  - pose proof (rule_based_estimates_bounded _ _ _ HE) as Hb.
    rewrite Forall_forall in Hb. destruct (Hb e He) as [q [Hq Hrange]].
    exists q. split; [exact Hq|]. left. split; [exact Hm | exact Hrange].
  - pose proof (ml_estimates_bounded _ _ _ _ HE) as Hb.
    rewrite Forall_forall in Hb. destruct (Hb e He) as [q [Hq Hrange]].
    exists q. split; [exact Hq|]. right. split; [exact Hm | exact Hrange].
Qed.

Lemma X3_estimated_rows_bounded_witness :
  exists q,
    Some (5500#100) = Some q /\
    (("rule_based" = "rule_based" /\ (15 <= q)%Q /\ (q <= 75)%Q) \/
     ("rule_based" = "ml_random_forest" /\ (10 <= q)%Q /\ (q <= 80)%Q)).
Proof.
  eapply (X3_estimated_rows_bounded CongestionProxy.mean_learner Examples.draws_three
           Examples.wb_one [] _
           (CongestionProxy.mkRow "A" 2020 (Some (5500#100)) (Some (15500#10000))
                                  "rule_based" "rule_based")).
  - reflexivity.
  - left. reflexivity.
  - discriminate.
Defined.

(** X4 — the saved table is strictly increasing in (country, year), so
    sorted and without repeated keys, and its keys are exactly the keys of
    the country-level actual table together with the keys of the economic
    panel: no key is lost and none is invented. *)
Theorem X4_saved_keys_sorted_union :
  forall (sk : CongestionProxy.Sklearn) (entropy : nat -> Q)
         (wb_df : CongestionProxy.WBFrame) (tomtom_df : list CongestionProxy.CityRow)
         (out : list CongestionProxy.Row),
    CongestionProxy.congestion_comprehensive sk entropy wb_df tomtom_df = Frame.Ok out ->
    StronglySorted
      (fun a b => Frame.key_compare (CongestionProxy.key a) (CongestionProxy.key b) = Lt)
      out /\
    (forall k,
       In k (map CongestionProxy.key out) <->
       In k (map CongestionProxy.tt_key tomtom_df) \/
       In k (map CongestionProxy.wb_key (CongestionProxy.wb_rows wb_df))).
Proof.
  intros sk entropy wb tomtom out Hrun.
  pose proof (congestion_comprehensive_keys_unique _ _ _ _ _ Hrun) as Hnd.
  destruct (congestion_comprehensive_branch _ _ _ _ _ Hrun) as [E [HE Hout]].
  pose proof (branch_estimates_for _ _ _ _ _ HE) as [Hkeys _].
  split.
  - apply sorted_distinct_strict; [|exact Hnd].
    rewrite Hout.
    apply (sort_values_sorted
             (fun a b => Frame.key_leb (CongestionProxy.key a) (CongestionProxy.key b))).
    + intros a b. apply key_leb_total.
    + intros a b c. apply key_leb_trans.
  - intros k. rewrite <- Hkeys, <- group_keys_In, <- tomtom_country_keys.
    rewrite Hout. split.
    + intros Hk. apply in_map_iff in Hk. destruct Hk as [r [<- Hr]].
      apply sort_values_In in Hr.
      destruct (combined_origin _ _ _ Hr) as [[a [Ha ->]]|[e [He ->]]].
      * left. apply (in_map CongestionProxy.g_key) in Ha. exact Ha.
      * right. apply (in_map CongestionProxy.e_key) in He. exact He.
    + intros Hk.
      assert (Hpool : exists x, In x (CongestionProxy.tag_actual
                                        (CongestionProxy.tomtom_country tomtom) ++ E) /\
                                CongestionProxy.e_key x = k).
      { destruct Hk as [Hk|Hk]; apply in_map_iff in Hk; destruct Hk as [x [<- Hx]].
        - exists (CongestionProxy.tag x). split; [|reflexivity].
          apply in_or_app. left. apply tag_actual_In. exists x. auto.
        - exists x. split; [|reflexivity]. apply in_or_app. right. exact Hx. }
      destruct Hpool as [x [Hx <-]].
      destruct (combined_complete _ _ x Hx) as [r [Hr Hkr]].
      rewrite <- Hkr. apply in_map, sort_values_In, Hr.
Qed.

Lemma X4_saved_keys_sorted_union_witness :
  StronglySorted
    (fun a b => Frame.key_compare (CongestionProxy.key a) (CongestionProxy.key b) = Lt)
    [CongestionProxy.mkRow "A" 2020 (Some (40#1)) (Some (14#10))
                           "actual_tomtom" "actual_tomtom"] /\
  (In ("A", 2020%Z) (map CongestionProxy.key
                         [CongestionProxy.mkRow "A" 2020 (Some (40#1)) (Some (14#10))
                                                "actual_tomtom" "actual_tomtom"]) <->
   In ("A", 2020%Z) (map CongestionProxy.tt_key Examples.tomtom_measured) \/
   In ("A", 2020%Z) (map CongestionProxy.wb_key (CongestionProxy.wb_rows Examples.wb_one))).
Proof.
  destruct (X4_saved_keys_sorted_union CongestionProxy.mean_learner Examples.draws_three
              Examples.wb_one Examples.tomtom_measured _ eq_refl) as [Hs Hk].
  split; [exact Hs | exact (Hk ("A", 2020%Z))].
Defined.

(** X5 — a key of the economic panel that has no actual measurement gets
    the estimate of the branch that ran: its row is tagged 'rule_based'
    when fewer than 20 joined rows were available for training,
    'ml_random_forest' otherwise. *)
Theorem X5_unmeasured_key_gets_branch_estimate :
  forall (sk : CongestionProxy.Sklearn) (entropy : nat -> Q)
         (wb_df : CongestionProxy.WBFrame) (tomtom_df : list CongestionProxy.CityRow)
         (out : list CongestionProxy.Row) (w : CongestionProxy.WBRow)
         (r : CongestionProxy.Row),
    CongestionProxy.congestion_comprehensive sk entropy wb_df tomtom_df = Frame.Ok out ->
    In w (CongestionProxy.wb_rows wb_df) ->
    ~ In (CongestionProxy.wb_key w) (map CongestionProxy.tt_key tomtom_df) ->
    In r out ->
    CongestionProxy.key r = CongestionProxy.wb_key w ->
    CongestionProxy.data_source r =
      (if CongestionProxy.use_rule_based
            (CongestionProxy.merged (CongestionProxy.tomtom_country tomtom_df) wb_df)
       then "rule_based" else "ml_random_forest") /\
    CongestionProxy.estimation_method r = CongestionProxy.data_source r.
Proof.
  intros sk entropy wb tomtom out w r Hrun Hw Hnot Hr Hk.
  destruct (congestion_comprehensive_branch _ _ _ _ _ Hrun) as [E [HE ->]].
  apply sort_values_In in Hr.
  pose proof (branch_estimates_for _ _ _ _ _ HE) as [_ Hmeth].
  destruct (combined_origin _ _ _ Hr) as [[a [Ha ->]]|[e [He ->]]].
  - exfalso. apply Hnot. rewrite <- Hk.
    apply group_keys_In. rewrite <- tomtom_country_keys.
    apply (in_map CongestionProxy.g_key) in Ha. exact Ha.
  - rewrite Forall_forall in Hmeth. destruct (Hmeth e He) as [Hm _].
    split; [exact Hm | reflexivity].
Qed.

Lemma X5_unmeasured_key_witness :
  "rule_based" = "rule_based" /\ "rule_based" = "rule_based".
Proof.
  eapply (X5_unmeasured_key_gets_branch_estimate CongestionProxy.mean_learner
           Examples.draws_three Examples.wb_one [] _
           (CongestionProxy.mkWB "A" 2020 [Some (10000#1); Some 0%Q; Some (1000000#1)])
           (CongestionProxy.mkRow "A" 2020 (Some (5500#100)) (Some (15500#10000))
                                  "rule_based" "rule_based")).
  - reflexivity.
  - left. reflexivity.
  - intros [].
  - left. reflexivity.
  - reflexivity.
Defined.


(** X6 — aggregation of city rows to country rows: the country-level table
    has one row per (country, year) of the city table, in ascending key
    order, and a country-level congestion value is missing exactly when
    every city value of its key is missing. *)
Theorem X6_country_rows_per_city_key :
  forall (df : list CongestionProxy.CityRow),
    NoDup (map CongestionProxy.g_key (CongestionProxy.tomtom_country df)) /\
    StronglySorted (fun a b => Frame.key_leb (CongestionProxy.g_key a)
                                             (CongestionProxy.g_key b) = true)
                   (CongestionProxy.tomtom_country df) /\
    (forall k, In k (map CongestionProxy.g_key (CongestionProxy.tomtom_country df)) <->
               In k (map CongestionProxy.tt_key df)) /\
    (forall a,
       In a (CongestionProxy.tomtom_country df) ->
       (CongestionProxy.g_congestion_level_pct a = None <->
        forall r, In r df ->
                  CongestionProxy.tt_key r = CongestionProxy.g_key a ->
                  CongestionProxy.tt_congestion_level_pct r = None)).
Proof.
  intros df.
  split; [apply tomtom_country_NoDup|].
  split.
  { assert (H : StronglySorted (fun a b => Frame.key_leb a b = true)
                               (map CongestionProxy.g_key (CongestionProxy.tomtom_country df))).
    { rewrite tomtom_country_keys. unfold CongestionProxy.group_keys.
      apply sort_values_sorted; [apply key_leb_total | apply key_leb_trans]. }
    induction (CongestionProxy.tomtom_country df) as [|x t IH]; [constructor|].
    simpl in H. inversion H as [|? ? Ht Hx]; subst.
    constructor; [apply IH, Ht|]. rewrite Forall_map in Hx. exact Hx. }
  split.
  { intros k. rewrite tomtom_country_keys. apply group_keys_In. }
  intros a Ha.
  unfold CongestionProxy.tomtom_country in Ha. apply in_map_iff in Ha.
  destruct Ha as [k [<- _]].
  cbn [CongestionProxy.g_congestion_level_pct]. unfold CongestionProxy.g_key.
  cbn [CongestionProxy.g_country CongestionProxy.g_year].
  rewrite <- surjective_pairing. split.
  - intros Hm r Hr Hk. apply mean_none in Hm. unfold Claims.all_null in Hm.
    rewrite Forall_forall in Hm. apply Hm, in_map, filter_In.
    split; [exact Hr | apply key_eqb_eq, Hk].
  - intros Hall.
    destruct (Frame.mean _) as [m|] eqn:Em; [|reflexivity]. exfalso.
    unfold Frame.mean in Em.
    destruct (Frame.dropna _) as [|x t] eqn:Ed; [discriminate|].
    assert (Hx : In x (Frame.dropna
                         (map CongestionProxy.tt_congestion_level_pct
                              (filter (fun r => Frame.key_eqb (CongestionProxy.tt_key r) k) df))))
      by (rewrite Ed; left; reflexivity).
    apply dropna_In, in_map_iff in Hx. destruct Hx as (r & E & Hr).
    apply filter_In in Hr. destruct Hr as [Hr Hk]. apply key_eqb_eq in Hk.
    rewrite (Hall r Hr Hk) in E. discriminate.
Qed.

(** ** Time-based splitter: what a run writes and when it aborts *)

(** X7 — a run that finds worldbank_data.csv with rows on both sides of
    2020 raises nothing and writes, in this order, the worldbank train and
    test files and the chart, the two clean-panel files when
    clean_panel.csv exists, and the report.  Conversely, whenever the
    worldbank train and test files are written they are the rows before
    2020 and the rows from 2020 on, both non-empty, and they pass the
    leakage check. *)
Theorem X7_split_run_writes :
  forall (inp : TrainTestSplit.Inputs),
    (forall df,
       TrainTestSplit.worldbank_data inp = Some df ->
       TrainTestSplit.train_of 2020 df <> [] ->
       TrainTestSplit.test_of 2020 df <> [] ->
       TrainTestSplit.raised (TrainTestSplit.script inp) = None /\
       TrainTestSplit.written (TrainTestSplit.script inp) =
         [("worldbank_train.csv", TrainTestSplit.Csv (TrainTestSplit.train_of 2020 df));
          ("worldbank_test.csv", TrainTestSplit.Csv (TrainTestSplit.test_of 2020 df));
          ("train_test_split.png", TrainTestSplit.Png)]
         ++ match TrainTestSplit.clean_panel inp with
            | Some dc =>
                [("clean_panel_train.csv", TrainTestSplit.Csv (TrainTestSplit.train_of 2020 dc));
                 ("clean_panel_test.csv", TrainTestSplit.Csv (TrainTestSplit.test_of 2020 dc))]
            | None => []
            end
         ++ [("train_test_split_report.txt", TrainTestSplit.Text)]) /\
    (forall tr te,
       TrainTestSplit.csv_written "worldbank_train.csv"
         (TrainTestSplit.written (TrainTestSplit.script inp)) = Some tr ->
       TrainTestSplit.csv_written "worldbank_test.csv"
         (TrainTestSplit.written (TrainTestSplit.script inp)) = Some te ->
       exists df,
         TrainTestSplit.worldbank_data inp = Some df /\
         tr = TrainTestSplit.train_of 2020 df /\
         te = TrainTestSplit.test_of 2020 df /\
         tr <> [] /\ te <> [] /\
         TrainTestSplit.no_leakage tr te = true).
Proof.
  intros [wb cp]. split.
  - intros df Hwb Htr Hte. simpl in Hwb. subst wb.
    pose proof (split_no_leakage 2020 df Htr Hte) as Hleak.
    unfold TrainTestSplit.script, TrainTestSplit.split_worldbank,
      TrainTestSplit.split_clean_panel, TrainTestSplit.split_report.
    cbn [TrainTestSplit.worldbank_data TrainTestSplit.clean_panel].
    unfold TrainTestSplit.split_year. rewrite Hleak.
    destruct df as [|r t]; [contradiction Htr; reflexivity|].
    cbn [length Nat.eqb negb]. destruct cp as [dc|]; split; reflexivity.
  - intros tr te.
    unfold TrainTestSplit.script, TrainTestSplit.split_worldbank,
      TrainTestSplit.split_clean_panel, TrainTestSplit.split_report.
    cbn [TrainTestSplit.worldbank_data TrainTestSplit.clean_panel].
    unfold TrainTestSplit.split_year.
    destruct wb as [df|].
    + destruct (Nat.eqb (length df) 0); [discriminate|].
      destruct (TrainTestSplit.no_leakage _ _) eqn:E; cbn [negb]; [|discriminate].
      assert (Hne : TrainTestSplit.train_of 2020 df <> [] /\
                    TrainTestSplit.test_of 2020 df <> []).
      { unfold TrainTestSplit.no_leakage in E.
        destruct (TrainTestSplit.train_of 2020 df); [discriminate|].
        destruct (TrainTestSplit.test_of 2020 df); [discriminate|].
        split; discriminate. }
      destruct cp as [dc|]; simpl; intros H1 H2;
        injection H1 as <-; injection H2 as <-;
        exists df; repeat split; try apply Hne; exact E.
    + destruct cp as [dc|]; simpl; discriminate.
Qed.

Lemma X7_split_run_writes_witness :
  TrainTestSplit.raised (TrainTestSplit.script Examples.stale_clean_panel) = None /\
  TrainTestSplit.written (TrainTestSplit.script Examples.stale_clean_panel) =
    [("worldbank_train.csv", TrainTestSplit.Csv [TrainTestSplit.mkRow "Philippines" 2019 []]);
     ("worldbank_test.csv", TrainTestSplit.Csv [TrainTestSplit.mkRow "Philippines" 2020 []]);
     ("train_test_split.png", TrainTestSplit.Png);
     ("clean_panel_train.csv", TrainTestSplit.Csv []);
     ("clean_panel_test.csv",
      TrainTestSplit.Csv [TrainTestSplit.mkRow "Philippines" 2020 [];
                          TrainTestSplit.mkRow "Philippines" 2021 []]);
     ("train_test_split_report.txt", TrainTestSplit.Text)].
Proof.
  apply (proj1 (X7_split_run_writes Examples.stale_clean_panel)
               [TrainTestSplit.mkRow "Philippines" 2019 [];
                TrainTestSplit.mkRow "Philippines" 2020 []]).
  - reflexivity.
  - simpl. discriminate.
  - simpl. discriminate.
Defined.

(** X8 — when the splitter writes nothing.  Without worldbank_data.csv the
    script ends in a NameError on [split_year], whether or not a clean
    panel exists; on a worldbank file without rows it ends in a
    ZeroDivisionError; on one whose rows all lie before 2020, or all from
    2020 on, the leakage assertion fails.  In each case no file has been
    written. *)
Theorem X8_split_aborts_without_writing :
  forall (inp : TrainTestSplit.Inputs),
    (TrainTestSplit.worldbank_data inp = None ->
     TrainTestSplit.script inp =
       TrainTestSplit.mkOutcome [] (Some (Frame.NameError "split_year"))) /\
    (TrainTestSplit.worldbank_data inp = Some [] ->
     TrainTestSplit.script inp =
       TrainTestSplit.mkOutcome [] (Some Frame.ZeroDivisionError)) /\
    (forall df,
       TrainTestSplit.worldbank_data inp = Some df ->
       df <> [] ->
       TrainTestSplit.train_of 2020 df = [] \/ TrainTestSplit.test_of 2020 df = [] ->
       TrainTestSplit.script inp =
         TrainTestSplit.mkOutcome []
           (Some (Frame.AssertionError "Data leakage detected!"))).
Proof.
  intros [wb cp].
  unfold TrainTestSplit.script, TrainTestSplit.split_worldbank,
    TrainTestSplit.split_clean_panel, TrainTestSplit.split_report.
  cbn [TrainTestSplit.worldbank_data TrainTestSplit.clean_panel].
  unfold TrainTestSplit.split_year.
  split; [|split].
  - intros ->. destruct cp; reflexivity.
  - intros ->. reflexivity.
  - intros df -> Hne Hempty.
    destruct df as [|r t]; [contradiction Hne; reflexivity|].
    cbn [length Nat.eqb].
    replace (TrainTestSplit.no_leakage (TrainTestSplit.train_of 2020 (r :: t))
                                       (TrainTestSplit.test_of 2020 (r :: t)))
      with false; [reflexivity|].
    unfold TrainTestSplit.no_leakage.
    destruct Hempty as [-> | ->]; [reflexivity|].
    destruct (TrainTestSplit.year_max _); reflexivity.
Qed.

Lemma X8_split_aborts_witness :
  TrainTestSplit.script
    (TrainTestSplit.mkInputs (Some [TrainTestSplit.mkRow "Philippines" 2018 []]) None) =
  TrainTestSplit.mkOutcome [] (Some (Frame.AssertionError "Data leakage detected!")).
Proof.
  apply (proj2 (proj2 (X8_split_aborts_without_writing
                         (TrainTestSplit.mkInputs
                            (Some [TrainTestSplit.mkRow "Philippines" 2018 []]) None)))
               [TrainTestSplit.mkRow "Philippines" 2018 []]).
  - reflexivity.
  - discriminate.
  - right. reflexivity.
Defined.

(** ** Panel balancer: re-running and thresholds at the edge *)

Section BalanceMore.
Import Frame PanelBalance.

Lemma filter_all {A : Type} (p : A -> bool) (l : list A) :
  (forall x, In x l -> p x = true) -> filter p l = l.
Proof.
  induction l as [|x t IH]; simpl; intros H; [reflexivity|].
  rewrite (H x (or_introl eq_refl)), IH; [reflexivity|].
  intros y Hy. apply H. right. exact Hy.
Qed.

Lemma filter_none {A : Type} (p : A -> bool) (l : list A) :
  (forall x, In x l -> p x = false) -> filter p l = [].
Proof.
  induction l as [|x t IH]; simpl; intros H; [reflexivity|].
  rewrite (H x (or_introl eq_refl)). apply IH.
  intros y Hy. apply H. right. exact Hy.
Qed.

(** Filtering by a property of the country keeps or empties each group. *)
Lemma count_filter_by_country (g : string -> bool) (c : string) (df : DataFrame) :
  count c (filter (fun r => g (country r)) df) = if g c then count c df else 0%nat.
Proof.
  unfold count. induction df as [|r t IH]; [destruct (g c); reflexivity|].
  cbn [filter]. destruct (g (country r)) eqn:Eg; cbn [filter].
  - destruct (String.eqb (country r) c) eqn:Ec; cbn [andb].
    + apply String.eqb_eq in Ec. rewrite <- Ec, Eg in *.
      destruct (negb (isnull (year r))); cbn [length]; [f_equal|]; exact IH.
    + exact IH.
  - destruct (String.eqb (country r) c) eqn:Ec; cbn [andb]; [|exact IH].
    apply String.eqb_eq in Ec. rewrite <- Ec, Eg in *. exact IH.
Qed.

Lemma count_positive_of_row (df : DataFrame) (r : Row) :
  In r df -> year r <> None -> (1 <= count (country r) df)%nat.
Proof.
  intros Hin Hy. unfold count.
  assert (H : In r (filter (fun x => String.eqb (country x) (country r)
                                     && negb (isnull (year x))) df)).
  { apply filter_In. split; [exact Hin|]. rewrite String.eqb_refl.
    destruct (year r); [reflexivity | contradiction]. }
  destruct (filter _ df); [contradiction | simpl; lia].
Qed.

Lemma count_le_length (c : string) (df : DataFrame) : (count c df <= length df)%nat.
Proof. unfold count. apply filter_length_le. Qed.

Lemma filter_partition_perm {A : Type} (p : A -> bool) (l : list A) :
  Permutation (filter p l ++ filter (fun x => negb (p x)) l) l.
Proof.
  induction l as [|x t IH]; simpl; [constructor|].
  destruct (p x); simpl.
  - apply perm_skip, IH.
  - apply Permutation_sym.
    eapply perm_trans; [apply perm_skip, Permutation_sym, IH|].
    apply Permutation_middle.
Qed.

Lemma country_counts_names (df : DataFrame) :
  Permutation (map fst (country_counts df)) (nodup string_dec (map country df)).
Proof.
  unfold country_counts.
  eapply perm_trans; [apply Permutation_map, sort_values_perm|].
  rewrite map_map. simpl. rewrite map_id. apply sort_values_perm.
Qed.
End BalanceMore.

(** X9 — balancing is idempotent: running the balancer on its own output
    with the same threshold removes nothing more. *)
Theorem X9_balance_idempotent :
  forall (threshold : nat) (df : PanelBalance.DataFrame),
    PanelBalance.df_filtered threshold (PanelBalance.df_filtered threshold df) =
    PanelBalance.df_filtered threshold df.
Proof.
  intros n df. rewrite (df_filtered_eq n (PanelBalance.df_filtered n df)).
  apply filter_all. intros r Hr.
  rewrite (df_filtered_eq n df) in Hr |- *.
  apply filter_In in Hr. destruct Hr as [_ Hk].
  rewrite (count_filter_by_country (fun c => Nat.leb n (PanelBalance.count c df))).
  rewrite Hk. exact Hk.
Qed.

Section BalanceReport.
Import Frame PanelBalance.

Lemma kept_and_filtered_perm (n : nat) (df : DataFrame) :
  Permutation (valid_countries n df ++ filtered_countries n df)
              (nodup string_dec (map country df)).
Proof.
  unfold valid_countries, filtered_countries.
  rewrite (filter_ext (fun p => Nat.ltb (snd p) n)
                      (fun p => negb (Nat.leb n (snd p))))
    by (intros p; apply Nat.ltb_antisym).
  rewrite <- map_app.
  eapply perm_trans; [apply Permutation_map, filter_partition_perm|].
  apply country_counts_names.
Qed.

Lemma balance_report_In (n : nat) (df : DataFrame) (c : string) (k : nat) (kept : bool) :
  In (c, k, kept) (balance_report n df) <->
  In c (map country df) /\ k = Claims.dated_row_count c df /\ kept = Nat.leb n k.
Proof.
  rewrite <- count_dated.
  unfold balance_report. rewrite sort_values_In, in_map_iff. split.
  - intros [[c' k'] [E H]]. simpl in E. injection E as -> -> <-.
    apply country_counts_In in H. tauto.
  - intros (Hc & -> & ->). exists (c, count c df). split; [reflexivity|].
    apply country_counts_In. auto.
Qed.
End BalanceReport.

(** X10 — the coverage report accounts for every country of the panel
    exactly once: the kept and the filtered-out countries are disjoint,
    without repetition, and together they are the countries of the panel;
    a line of the balance report is a country of the panel with the number
    of its rows that have a year and the flag telling whether that number
    reaches the threshold. *)
Theorem X10_balance_report_accounts :
  forall (threshold : nat) (df : PanelBalance.DataFrame),
    NoDup (PanelBalance.valid_countries threshold df
           ++ PanelBalance.filtered_countries threshold df) /\
    (forall c, In c (map PanelBalance.country df) <->
               In c (PanelBalance.valid_countries threshold df
                     ++ PanelBalance.filtered_countries threshold df)) /\
    (forall c k kept,
       In (c, k, kept) (PanelBalance.balance_report threshold df) <->
       In c (map PanelBalance.country df) /\
       k = Claims.dated_row_count c df /\
       kept = Nat.leb threshold k) /\
    length (PanelBalance.balance_report threshold df) =
      (length (PanelBalance.valid_countries threshold df)
       + length (PanelBalance.filtered_countries threshold df))%nat.
Proof.
  intros n df.
  pose proof (kept_and_filtered_perm n df) as Hperm.
  split; [|split; [|split]].
  - eapply Permutation_NoDup; [apply Permutation_sym, Hperm | apply NoDup_nodup].
  - intros c. rewrite <- (nodup_In string_dec). split; apply Permutation_in;
      [apply Permutation_sym, Hperm | exact Hperm].
  - intros c k kept. apply balance_report_In.
  - rewrite <- length_app, (Permutation_length Hperm).
    unfold PanelBalance.balance_report.
    rewrite sort_values_length, length_map.
    rewrite <- (length_map fst (PanelBalance.country_counts df)).
    apply Permutation_length, country_counts_names.
Qed.

(** X11 — thresholds at the edge: a threshold of 0 keeps the whole panel,
    a threshold of 1 keeps it when no year is blank (a country whose rows
    all lack a year is counted 0 and removed), and a threshold above the
    number of rows of the panel removes every row. *)
Theorem X11_balance_threshold_edges :
  forall (threshold : nat) (df : PanelBalance.DataFrame),
    (threshold = 0%nat -> PanelBalance.df_filtered threshold df = df) /\
    ((threshold <= 1)%nat ->
     (forall r, In r df -> PanelBalance.year r <> None) ->
     PanelBalance.df_filtered threshold df = df) /\
    ((length df < threshold)%nat -> PanelBalance.df_filtered threshold df = []).
Proof.
  intros n df. rewrite df_filtered_eq. split; [|split].
  - intros ->. apply filter_all. intros r _. reflexivity.
  - intros Hn Hy. apply filter_all. intros r Hr. apply Nat.leb_le.
    pose proof (count_positive_of_row df r Hr (Hy r Hr)). lia.
  - intros Hn. apply filter_none. intros r _. apply Nat.leb_gt.
    pose proof (count_le_length (PanelBalance.country r) df). lia.
Qed.

Lemma X11_balance_threshold_edges_witness :
  PanelBalance.df_filtered 1 Examples.balance_panel = Examples.balance_panel /\
  PanelBalance.df_filtered 5 Examples.balance_panel = [] /\
  PanelBalance.df_filtered 1 [PanelBalance.mkRow "C" None []] = [].
Proof.
  destruct (X11_balance_threshold_edges 1 Examples.balance_panel) as (_ & H1 & _).
  destruct (X11_balance_threshold_edges 5 Examples.balance_panel) as (_ & _ & H5).
  split; [|split; [|reflexivity]].
  - apply H1; [lia|]. intros r Hr. simpl in Hr.
    destruct Hr as [<-|[<-|[<-|[<-|[]]]]]; discriminate.
  - apply H5. simpl. lia.
Defined.

(** ** Panel merger: what a left join keeps, lags, renamed columns *)

Section JoinFacts.
Import Frame MergePanel Properties.

Lemma firstn_app_repeat (n m : nat) (cs : list Cell) :
  (n <= m)%nat -> firstn n (cs ++ repeat None m) = firstn n (cs ++ repeat None n).
Proof.
  revert m cs. induction n as [|n IH]; intros m cs Hm; [reflexivity|].
  destruct cs as [|x t].
  - destruct m as [|m]; [lia|]. simpl. f_equal.
    apply (IH m []). lia.
  - cbn [app firstn]. f_equal.
    rewrite (IH m t) by lia. symmetry. apply IH. lia.
Qed.

Lemma pad_succ (n : nat) (cs : list Cell) :
  pad (S n) cs = hd None cs :: pad n (tl cs).
Proof.
  unfold pad. destruct cs as [|x t]; simpl.
  - reflexivity.
  - f_equal. apply (firstn_app_repeat n (S n) t). lia.
Qed.

Lemma pad_length (n : nat) (cs : list Cell) : length (pad n cs) = n.
Proof.
  unfold pad. rewrite length_firstn, length_app, repeat_length. lia.
Qed.

(** A left column reads the same in the joined row. *)
Lemma lookup_left (c : string) (cols extra : list string) (more : list Cell) :
  mem c cols = true ->
  forall cs, lookup c (cols ++ extra) (pad (length cols) cs ++ more) = lookup c cols cs.
Proof.
  intros Hmem. induction cols as [|x t IH]; intros cs; [discriminate|].
  cbn [length app]. rewrite pad_succ. cbn [app lookup hd tl].
  destruct (String.eqb x c) eqn:E; [reflexivity|].
  apply IH. simpl in Hmem. rewrite String.eqb_sym, E in Hmem. exact Hmem.
Qed.

(** A right column whose name the left frame does not have reads as in
    the right row. *)
Lemma lookup_right (c : string) (cols extra : list string) (more : list Cell) :
  mem c cols = false ->
  forall cs, lookup c (cols ++ extra) (pad (length cols) cs ++ more) = lookup c extra more.
Proof.
  intros Hmem. induction cols as [|x t IH]; intros cs; [reflexivity|].
  cbn [length app]. rewrite pad_succ. cbn [app lookup hd tl].
  simpl in Hmem. apply orb_false_iff in Hmem. destruct Hmem as [H1 H2].
  rewrite String.eqb_sym, H1. apply IH, H2.
Qed.

Lemma lookup_pad (c : string) (cols : list string) :
  forall cs, lookup c cols (pad (length cols) cs) = lookup c cols cs.
Proof.
  induction cols as [|x t IH]; intros cs; [reflexivity|].
  cbn [length]. rewrite pad_succ. cbn [lookup hd tl].
  destruct (String.eqb x c); [reflexivity | apply IH].
Qed.

Lemma lookup_nulls (c : string) (cols : list string) (n : nat) :
  lookup c cols (repeat None n) = None \/ lookup c cols (repeat None n) = Some None.
Proof.
  revert n. induction cols as [|x t IH]; intros n; [left; reflexivity|].
  simpl. destruct (String.eqb x c).
  - right. destruct n; reflexivity.
  - destruct n; [apply (IH 0%nat) | apply (IH n)].
Qed.

Lemma suffixed_disjoint (suffix : string) (left_cols right_cols : list string) :
  (forall c, mem c left_cols = true -> mem c right_cols = false) ->
  suffixed suffix left_cols right_cols = right_cols.
Proof.
  intros H. unfold suffixed.
  rewrite <- (map_id right_cols) at 2. apply map_ext_in. intros c Hc.
  destruct (mem c left_cols) eqn:E; [|reflexivity].
  apply H in E. apply mem_In in Hc. congruence.
Qed.

(** The rows of a left join: each is a left row, cut or filled to the
    header, followed by more cells; every left row yields one. *)
Lemma join_rows {R : Type} (p : Row -> R -> bool) (cs : R -> list Cell)
      (others : list R) (n k : nat) (ls : list Row) :
  let joined := fun l =>
    match filter (p l) others with
    | [] => [mkRow (country l) (year l) (pad n (cells l) ++ repeat None k)]
    | ms => map (fun r => mkRow (country l) (year l)
                               (pad n (cells l) ++ pad k (cs r))) ms
    end in
  (forall r, In r (flat_map joined ls) ->
     exists l more, In l ls /\
       r = mkRow (country l) (year l) (pad n (cells l) ++ more)) /\
  (forall l, In l ls ->
     exists more,
       In (mkRow (country l) (year l) (pad n (cells l) ++ more)) (flat_map joined ls)).
Proof.
  intros joined. split.
  - intros r Hr. apply in_flat_map in Hr. destruct Hr as [l [Hl Hr]].
    unfold joined in Hr. destruct (filter (p l) others) as [|m ms].
    + destruct Hr as [<-|[]]. eauto.
    + apply in_map_iff in Hr. destruct Hr as [x [<- _]]. eauto.
  - intros l Hl. unfold joined.
    destruct (filter (p l) others) as [|m ms] eqn:E.
    + exists (repeat None k). apply in_flat_map. exists l. split; [exact Hl|].
      rewrite E. left. reflexivity.
    + exists (pad k (cs m)). apply in_flat_map. exists l. split; [exact Hl|].
      rewrite E. left. reflexivity.
Qed.

Lemma same_left_extended (df df' : DataFrame) (extra : list string) (l : Row)
      (more : list Cell) :
  columns df' = columns df ++ extra ->
  same_left df df' l
    (mkRow (country l) (year l) (pad (length (columns df)) (cells l) ++ more)).
Proof.
  intros E. split; [reflexivity|]. intros c Hc. unfold get. cbn [cells].
  rewrite E, lookup_left by exact Hc. reflexivity.
Qed.

Lemma keeps_left_refl (df : DataFrame) : keeps_left df df.
Proof.
  split; [auto|].
  split; intros r Hr; exists r; (split; [exact Hr|]); split; auto.
Qed.

Lemma keeps_left_trans (a b c : DataFrame) :
  keeps_left a b -> keeps_left b c -> keeps_left a c.
Proof.
  intros (Hc1 & Hf1 & Hb1) (Hc2 & Hf2 & Hb2).
  assert (T : forall l m r, same_left a b l m -> same_left b c m r -> same_left a c l r).
  { intros l m r [K1 G1] [K2 G2]. split; [congruence|].
    intros x Hx. rewrite G2 by (apply Hc1, Hx). apply G1, Hx. }
  split; [auto|]. split.
  - intros r Hr. destruct (Hf2 r Hr) as [m [Hm S2]].
    destruct (Hf1 m Hm) as [l [Hl S1]]. exists l. split; [exact Hl|]. eapply T; eauto.
  - intros l Hl. destruct (Hb1 l Hl) as [m [Hm S1]].
    destruct (Hb2 m Hm) as [r [Hr S2]]. exists r. split; [exact Hr|]. eapply T; eauto.
Qed.

Lemma mem_app_l (c : string) (cols extra : list string) :
  mem c cols = true -> mem c (cols ++ extra) = true.
Proof.
  intros H. unfold mem. rewrite existsb_app. apply orb_true_iff. left. exact H.
Qed.

Lemma merge_keeps_left (df other : DataFrame) (suffix : string) :
  keeps_left df (merge df other suffix).
Proof.
  destruct (join_rows (fun l r => key_eqb (key r) (key l)) cells (rows other)
                      (length (columns df)) (length (columns other)) (rows df))
    as [Hf Hb].
  split; [intros c; apply mem_app_l|]. split.
  - intros r Hr. destruct (Hf r Hr) as (l & more & Hl & ->).
    exists l. split; [exact Hl|]. eapply same_left_extended. reflexivity.
  - intros l Hl. destruct (Hb l Hl) as [more Hr].
    eexists. split; [exact Hr|]. eapply same_left_extended. reflexivity.
Qed.

Lemma merge_on_country_keeps_left (df : DataFrame) (other : StaticFrame) (suffix : string) :
  keeps_left df (merge_on_country df other suffix).
Proof.
  destruct (join_rows (fun l r => String.eqb (s_country r) (country l)) s_cells
                      (s_rows other)
                      (length (columns df)) (length (s_columns other)) (rows df))
    as [Hf Hb].
  split; [intros c; apply mem_app_l|]. split.
  - intros r Hr. destruct (Hf r Hr) as (l & more & Hl & ->).
    exists l. split; [exact Hl|]. eapply same_left_extended. reflexivity.
  - intros l Hl. destruct (Hb l Hl) as [more Hr].
    eexists. split; [exact Hr|]. eapply same_left_extended. reflexivity.
Qed.

Lemma merge_if_keeps_left (df : DataFrame) (src : option DataFrame) (suffix : string) :
  keeps_left df (merge_if df src suffix).
Proof.
  destruct src; [apply merge_keeps_left | apply keeps_left_refl].
Qed.
End JoinFacts.

(** X12 — the chain of left joins never loses a World Bank row and never
    changes a World Bank column: when the joins succeed, every column of
    the base frame is still there, every row of the result extends a base
    row (same key, same base values) and every base row is extended by
    some row of the result. *)
Theorem X12_joins_keep_base_rows :
  forall (inp : MergePanel.Inputs) (df : MergePanel.DataFrame),
    MergePanel.merge_sources inp = Frame.Ok df ->
    Properties.keeps_left (MergePanel.worldbank_data inp) df.
Proof.
  intros inp df. unfold MergePanel.merge_sources.
  destruct (MergePanel.merge_congestion _ inp) as [d1|e1] eqn:E1; cbn [Frame.bind];
    [|discriminate].
  assert (K1 : Properties.keeps_left (MergePanel.worldbank_data inp) d1).
  { unfold MergePanel.merge_congestion in E1.
    destruct (MergePanel.congestion_comprehensive inp);
      [destruct (_ && _); [discriminate|]|]; injection E1 as <-;
      [apply merge_keeps_left | apply merge_if_keeps_left]. }
  destruct (MergePanel.merge_uitp d1 inp) as [d2|e] eqn:E2; [|discriminate].
  assert (K2 : Properties.keeps_left d1 d2).
  { unfold MergePanel.merge_uitp in E2.
    destruct (MergePanel.uitp_modal_share inp) as [uitp|].
    - destruct (Frame.mem "city" (MergePanel.columns uitp)).
      + destruct (MergePanel.uitp_country uitp) as [uc|]; [|discriminate].
        injection E2 as <-. apply merge_keeps_left.
      + injection E2 as <-. apply merge_keeps_left.
    - injection E2 as <-. apply keeps_left_refl. }
  cbn [Frame.bind]. intros H. injection H as <-.
  eapply keeps_left_trans; [exact K1|].
  eapply keeps_left_trans; [exact K2|].
  eapply keeps_left_trans; [apply merge_if_keeps_left|].
  eapply keeps_left_trans; [apply merge_if_keeps_left|].
  eapply keeps_left_trans;
    [|eapply keeps_left_trans; [apply merge_if_keeps_left|];
      eapply keeps_left_trans; apply merge_if_keeps_left].
  unfold MergePanel.merge_overpass.
  destruct (MergePanel.overpass_data inp) as [[f|f]|];
    [apply merge_on_country_keeps_left | apply merge_keeps_left | apply keeps_left_refl].
Qed.

Lemma X12_joins_keep_base_rows_witness :
  exists df,
    MergePanel.merge_sources Examples.merge_inputs = Frame.Ok df /\
    Properties.keeps_left (MergePanel.worldbank_data Examples.merge_inputs) df.
Proof.
  eexists. split; [reflexivity|].
  apply (X12_joins_keep_base_rows Examples.merge_inputs). reflexivity.
Defined.

Section JoinValues.
Import Frame MergePanel Properties.

Lemma filter_key_In (others : list Row) (k : Key) (m : Row) :
  In m (filter (fun r => key_eqb (key r) k) others) <-> In m others /\ key m = k.
Proof. rewrite filter_In, key_eqb_eq. reflexivity. Qed.

Lemma get_right (df other : DataFrame) (l : Row) (cs : list Cell) (c : string) :
  disjoint_columns df other ->
  mem c (columns other) = true ->
  get (columns df ++ columns other)
      (pad (length (columns df)) (cells l) ++ pad (length (columns other)) cs) c
  = get (columns other) cs c.
Proof.
  intros Hd Hc. unfold get.
  assert (Hl : mem c (columns df) = false).
  { destruct (mem c (columns df)) eqn:E; [|reflexivity].
    apply Hd in E. congruence. }
  rewrite lookup_right by exact Hl. rewrite lookup_pad. reflexivity.
Qed.

Lemma get_nulls (cols : list string) (n : nat) (c : string) :
  get cols (repeat None n) c = None.
Proof.
  unfold get. destruct (lookup_nulls c cols n) as [-> | ->]; reflexivity.
Qed.

Lemma get_right_nulls (df other : DataFrame) (l : Row) (c : string) :
  disjoint_columns df other ->
  mem c (columns other) = true ->
  get (columns df ++ columns other)
      (pad (length (columns df)) (cells l) ++ repeat None (length (columns other))) c
  = None.
Proof.
  intros Hd Hc.
  assert (Hl : mem c (columns df) = false).
  { destruct (mem c (columns df)) eqn:E; [|reflexivity].
    apply Hd in E. congruence. }
  unfold get. rewrite lookup_right by exact Hl.
  apply (get_nulls (columns other)).
Qed.
End JoinValues.

(** X13 — what a left join attaches: when the two frames share no column
    name and the right frame has one row per key, a joined row reads, in
    every right column, the value of the right row with its key, and a
    missing value when the right frame has no row with that key. *)
Theorem X13_left_join_attaches_right_values :
  forall (df other : MergePanel.DataFrame) (suffix : string),
    Properties.disjoint_columns df other ->
    NoDup (map MergePanel.key (MergePanel.rows other)) ->
    forall r c,
      In r (MergePanel.rows (MergePanel.merge df other suffix)) ->
      Frame.mem c (MergePanel.columns other) = true ->
      (forall m, In m (MergePanel.rows other) ->
                 MergePanel.key m = MergePanel.key r ->
                 MergePanel.get (MergePanel.columns (MergePanel.merge df other suffix))
                                (MergePanel.cells r) c
                 = MergePanel.get (MergePanel.columns other) (MergePanel.cells m) c) /\
      ((forall m, In m (MergePanel.rows other) ->
                  MergePanel.key m <> MergePanel.key r) ->
       MergePanel.get (MergePanel.columns (MergePanel.merge df other suffix))
                      (MergePanel.cells r) c = None).
Proof.
  intros df other suffix Hd Hnd r c Hr Hc.
  unfold MergePanel.merge in *. cbn [MergePanel.columns MergePanel.rows] in *.
  rewrite (suffixed_disjoint suffix _ _ Hd).
  apply in_flat_map in Hr. destruct Hr as [l [Hl Hr]]. cbv zeta in Hr.
  destruct (filter_at_most_one MergePanel.key
              (fun x => Frame.key_eqb (MergePanel.key x) (MergePanel.key l))
              (MergePanel.rows other)) as [E | [m0 E]].
  - intros x y Hx Hy. apply key_eqb_eq in Hx, Hy. congruence.
  - exact Hnd.
  - rewrite E in Hr. destruct Hr as [<-|[]]. cbn [MergePanel.cells]. split.
    + intros m Hm Hk. exfalso.
      assert (Hin : In m (filter (fun x => Frame.key_eqb (MergePanel.key x) (MergePanel.key l))
                                 (MergePanel.rows other)))
        by (apply filter_key_In; split; [exact Hm | exact Hk]).
      rewrite E in Hin. exact Hin.
    + intros _. apply get_right_nulls; assumption.
  - rewrite E in Hr. destruct Hr as [<-|[]]. cbn [MergePanel.cells].
    assert (H0 : In m0 (MergePanel.rows other) /\ MergePanel.key m0 = MergePanel.key l).
    { apply filter_key_In. rewrite E. left. reflexivity. }
    split.
    + intros m Hm Hk.
      assert (Hin : In m (filter (fun x => Frame.key_eqb (MergePanel.key x) (MergePanel.key l))
                                 (MergePanel.rows other)))
        by (apply filter_key_In; split; [exact Hm | exact Hk]).
      rewrite E in Hin. destruct Hin as [<-|[]].
      apply get_right; assumption.
    + intros Hno. exfalso. apply (Hno m0); tauto.
Qed.

Lemma X13_left_join_attaches_witness :
  MergePanel.get
    (MergePanel.columns
       (MergePanel.merge Examples.merge_base Examples.merge_congestion_table "_congestion"))
    (MergePanel.cells
       (MergePanel.mkRow "B" 2020
          [Some (MergePanel.Num (900#1)); None;
           Some (MergePanel.Num (55#1)); Some (MergePanel.Num (155#100));
           Some (MergePanel.Str "rule_based"); Some (MergePanel.Str "rule_based")]))
    "congestion_level_pct"
  = Some (MergePanel.Num (55#1)).
Proof.
  refine (proj1 (X13_left_join_attaches_right_values
                   Examples.merge_base Examples.merge_congestion_table "_congestion"
                   _ _
                   (MergePanel.mkRow "B" 2020
                      [Some (MergePanel.Num (900#1)); None;
                       Some (MergePanel.Num (55#1)); Some (MergePanel.Num (155#100));
                       Some (MergePanel.Str "rule_based");
                       Some (MergePanel.Str "rule_based")])
                   "congestion_level_pct" _ eq_refl)
                (MergePanel.mkRow "B" 2020
                   [Some (MergePanel.Num (55#1)); Some (MergePanel.Num (155#100));
                    Some (MergePanel.Str "rule_based"); Some (MergePanel.Str "rule_based")])
                _ eq_refl).
  - intros c Hc. apply mem_In in Hc. simpl in Hc.
    destruct Hc as [<-|[<-|[]]]; reflexivity.
  - simpl. repeat constructor; simpl; intuition discriminate.
  - left. reflexivity.
  - right. left. reflexivity.
Defined.

(** ** Lags *)

Section LagFacts.
Import Frame MergePanel Properties.

Lemma shift1_nth (l1 l2 : list (string * Cell)) (c : string) (v : Cell) :
  forall prev,
    nth_error (shift1 prev (l1 ++ (c, v) :: l2)) (length l1)
    = Some (last_of c (rev l1 ++ prev)).
Proof.
  induction l1 as [|[c1 v1] t IH]; intros prev.
  - reflexivity.
  - cbn [app shift1 length nth_error]. rewrite IH.
    cbn [rev]. rewrite <- app_assoc. reflexivity.
Qed.

Lemma shift1_length_eq (rs : list (string * Cell)) :
  forall prev, length (shift1 prev rs) = length rs.
Proof.
  induction rs as [|[c v] t IH]; intros prev; simpl; [reflexivity|].
  rewrite IH. reflexivity.
Qed.

Lemma last_of_absent (c : string) (l : list (string * Cell)) :
  (forall p, In p l -> fst p <> c) -> last_of c l = None.
Proof.
  intros H. unfold last_of.
  destruct (find _ l) as [p|] eqn:E; [|reflexivity].
  apply find_some in E. destruct E as [Hin E]. apply String.eqb_eq in E.
  exfalso. exact (H p Hin E).
Qed.

Lemma last_of_skip (c : string) (l rest : list (string * Cell)) :
  (forall p, In p l -> fst p <> c) -> last_of c (l ++ rest) = last_of c rest.
Proof.
  intros H. unfold last_of. induction l as [|x t IH]; [reflexivity|].
  cbn [app find]. destruct (String.eqb (fst x) c) eqn:E.
  - apply String.eqb_eq in E. exfalso. apply (H x); [left; reflexivity | exact E].
  - apply IH. intros p Hp. apply H. right. exact Hp.
Qed.
End LagFacts.

Section LagRows.
Import Frame MergePanel Properties.

Lemma sorted_app {A : Type} (R : A -> A -> Prop) (l1 l2 : list A) :
  StronglySorted R (l1 ++ l2) ->
  forall x y, In x l1 -> In y l2 -> R x y.
Proof.
  induction l1 as [|a t IH]; intros Hs x y Hx Hy; [destruct Hx|].
  cbn [app] in Hs. apply StronglySorted_inv in Hs. destruct Hs as [Ht Ha].
  destruct Hx as [<-|Hx].
  - rewrite Forall_forall in Ha. apply Ha, in_or_app. right. exact Hy.
  - apply IH; assumption.
Qed.

Lemma key_lt_same_country (a b : Row) :
  key_compare (key a) (key b) = Lt -> country a = country b -> (year a < year b)%Z.
Proof.
  unfold key_compare, key. cbn [fst snd]. intros H E. rewrite E in H.
  rewrite (cmp_refl _ string_compare_ok) in H. exact H.
Qed.

Variable value : Row -> Cell.

Let pair_of (r : Row) : string * Cell := (country r, value r).

(** Every row is paired with the value of the latest row of its country
    before it. *)
Lemma combine_shift1_In (s : list Row) :
  forall prev r x,
    In (r, x) (combine s (shift1 prev (map pair_of s))) ->
    exists l1 l2, s = l1 ++ r :: l2 /\
                  x = last_of (country r) (rev (map pair_of l1) ++ prev).
Proof.
  induction s as [|a t IH]; intros prev r x Hin; [destruct Hin|].
  cbn [map shift1 combine pair_of fst snd] in Hin. destruct Hin as [E|Hin].
  - injection E as <- <-. exists [], t. split; reflexivity.
  - destruct (IH _ r x Hin) as (l1 & l2 & -> & ->).
    exists (a :: l1), l2. split; [reflexivity|].
    cbn [map rev]. rewrite <- app_assoc. reflexivity.
Qed.

(** In a list strictly sorted by (country, year), the latest earlier row
    of the country of [r] is the row of that country with the greatest
    year below the year of [r]. *)
Lemma last_of_sorted (l1 l2 : list Row) (r : Row) :
  StronglySorted (fun a b => key_compare (key a) (key b) = Lt) (l1 ++ r :: l2) ->
  (forall p, In p (l1 ++ r :: l2) -> country p = country r -> (year p < year r)%Z ->
     (forall q, In q (l1 ++ r :: l2) -> country q = country r -> (year q < year r)%Z ->
                (year q <= year p)%Z) ->
     last_of (country r) (rev (map pair_of l1)) = value p) /\
  ((forall p, In p (l1 ++ r :: l2) -> country p = country r -> (year r <= year p)%Z) ->
   last_of (country r) (rev (map pair_of l1)) = None).
Proof.
  set (R := fun a b : Row => key_compare (key a) (key b) = Lt).
  intros Hs. split.
  - intros p Hp Hc Hy Hmax.
    assert (Hp1 : In p l1).
    { apply in_app_or in Hp. destruct Hp as [Hp|[<-|Hp]]; [exact Hp | lia |].
      exfalso.
      assert (L : key_compare (key r) (key p) = Lt).
      { apply (sorted_app R (l1 ++ [r]) l2);
          [rewrite <- app_assoc; exact Hs | apply in_or_app; right; left; reflexivity
           | exact Hp]. }
      apply key_lt_same_country in L; [lia | congruence]. }
    apply in_split in Hp1. destruct Hp1 as (a & b & ->).
    rewrite map_app, rev_app_distr. cbn [map rev]. rewrite <- !app_assoc.
    rewrite last_of_skip.
    + unfold last_of. cbn [app find pair_of fst snd].
      assert (E : String.eqb (country p) (country r) = true)
        by (apply String.eqb_eq; exact Hc).
      rewrite E. reflexivity.
    + intros x Hx Ex. apply in_rev, in_map_iff in Hx.
      destruct Hx as (q & <- & Hq). cbn [pair_of fst] in Ex.
      assert (L1 : key_compare (key p) (key q) = Lt).
      { apply (sorted_app R (a ++ [p]) (b ++ r :: l2)).
        - rewrite <- !app_assoc. rewrite <- !app_assoc in Hs. exact Hs.
        - apply in_or_app. right. left. reflexivity.
        - apply in_or_app. left. exact Hq. }
      assert (L2 : key_compare (key q) (key r) = Lt).
      { apply (sorted_app R (a ++ p :: b) (r :: l2) Hs).
        - apply in_or_app. right. right. exact Hq.
        - left. reflexivity. }
      apply key_lt_same_country in L1; [|congruence].
      apply key_lt_same_country in L2; [|congruence].
      assert (Hq' : In q ((a ++ p :: b) ++ r :: l2)).
      { apply in_or_app. left. apply in_or_app. right. right. exact Hq. }
      specialize (Hmax q Hq' Ex L2). lia.
  - intros Hnone. apply last_of_absent. intros x Hx Ex.
    apply in_rev, in_map_iff in Hx. destruct Hx as (q & <- & Hq).
    cbn [pair_of fst] in Ex.
    assert (L : key_compare (key q) (key r) = Lt).
    { apply (sorted_app R l1 (r :: l2) Hs); [exact Hq | left; reflexivity]. }
    apply key_lt_same_country in L; [|exact Ex].
    assert (Hq' : In q (l1 ++ r :: l2)) by (apply in_or_app; left; exact Hq).
    specialize (Hnone q Hq' Ex). lia.
Qed.
End LagRows.

(** X14 — the lag column holds the previous observation of the country:
    with an investment column, one row per (country, year) and no lag
    column yet, the lag of a
    row is the investment value of the row of the same country with the
    greatest earlier year (whatever the distance in years), and it is
    missing on the earliest row of a country. *)
Theorem X14_lag_is_previous_observation :
  forall (df : MergePanel.DataFrame),
    Frame.mem "transit_investment_gdp" (MergePanel.columns df) = true ->
    Frame.mem "transit_invest_lag1" (MergePanel.columns df) = false ->
    NoDup (map MergePanel.key (MergePanel.rows df)) ->
    forall r, In r (MergePanel.rows (MergePanel.lagged df)) ->
      let lag := MergePanel.get (MergePanel.columns (MergePanel.lagged df))
                                (MergePanel.cells r) "transit_invest_lag1" in
      (forall p, In p (MergePanel.rows df) ->
         MergePanel.country p = MergePanel.country r ->
         (MergePanel.year p < MergePanel.year r)%Z ->
         (forall q, In q (MergePanel.rows df) ->
            MergePanel.country q = MergePanel.country r ->
            (MergePanel.year q < MergePanel.year r)%Z ->
            (MergePanel.year q <= MergePanel.year p)%Z) ->
         lag = MergePanel.get (MergePanel.columns df) (MergePanel.cells p)
                              "transit_investment_gdp") /\
      ((forall p, In p (MergePanel.rows df) ->
          MergePanel.country p = MergePanel.country r ->
          (MergePanel.year r <= MergePanel.year p)%Z) ->
       lag = None).
Proof.
  intros df _ Hlag Hnd r Hr lag. subst lag. revert Hr.
  unfold MergePanel.lagged. cbn [MergePanel.columns MergePanel.rows].
  rewrite Hlag.
  set (leb := fun a b => Frame.key_leb (MergePanel.key a) (MergePanel.key b)).
  set (s := Frame.sort_values leb (MergePanel.rows df)).
  set (value := fun x => MergePanel.get (MergePanel.columns df) (MergePanel.cells x)
                                        "transit_investment_gdp").
  unfold MergePanel.set_column. cbn [MergePanel.columns MergePanel.rows].
  intros Hr. apply in_map_iff in Hr. destruct Hr as ([r0 x] & <- & Hin).
  cbn [fst snd MergePanel.cells MergePanel.country MergePanel.year].
  unfold MergePanel.get at 1 3. rewrite lookup_assign_same.
  destruct (combine_shift1_In value s [] r0 x Hin) as (l1 & l2 & Es & ->).
  rewrite app_nil_r.
  assert (Hsorted : StronglySorted
                      (fun a b => Frame.key_compare (MergePanel.key a) (MergePanel.key b) = Lt) s).
  { apply sorted_distinct_strict.
    - apply (sort_values_sorted leb).
      + intros a b. apply key_leb_total.
      + intros a b c. apply key_leb_trans.
    - eapply Permutation_NoDup; [|exact Hnd].
      apply Permutation_sym, Permutation_map, sort_values_perm. }
  rewrite Es in Hsorted.
  destruct (last_of_sorted value l1 l2 r0 Hsorted) as [H1 H2].
  assert (Hs : forall p, In p (MergePanel.rows df) <-> In p (l1 ++ r0 :: l2)).
  { intros p. rewrite <- Es. symmetry. apply sort_values_In. }
  split.
  - intros p Hp Hc Hy Hmax. apply H1; [apply Hs, Hp | exact Hc | exact Hy |].
    intros q Hq. apply Hmax, Hs, Hq.
  - intros Hnone. apply H2. intros p Hp. apply Hnone, Hs, Hp.
Qed.

Lemma X14_lag_is_previous_observation_witness :
  MergePanel.get (MergePanel.columns (MergePanel.lagged MoreExamples.lag_frame))
                 [Some (MergePanel.Num (7#1)); Some (MergePanel.Num (5#1))]
                 "transit_invest_lag1"
  = Some (MergePanel.Num (5#1)).
Proof.
  refine (proj1 (X14_lag_is_previous_observation MoreExamples.lag_frame eq_refl eq_refl _
                   (MergePanel.mkRow "A" 2003
                      [Some (MergePanel.Num (7#1)); Some (MergePanel.Num (5#1))]) _)
                (MergePanel.mkRow "A" 2001 [Some (MergePanel.Num (5#1))])
                _ eq_refl eq_refl _).
  - simpl. repeat constructor; simpl; intuition discriminate.
  - right. left. reflexivity.
  - right. right. left. reflexivity.
  - intros q Hq Hc Hy. simpl in Hq.
    destruct Hq as [<-|[<-|[<-|[]]]]; simpl in *; try lia; discriminate.
Defined.

(** ** Columns of the clean panel *)

Section TrackFacts.
Import Frame MergePanel Properties.

Lemma tracks_refl (c : string) (df : DataFrame) :
  mem c (columns df) = true -> tracks c c df df.
Proof.
  intros H. split; [exact H|]. intros r Hr. exists r. auto.
Qed.

Lemma tracks_trans (a b c : string) (d1 d2 d3 : DataFrame) :
  tracks a b d1 d2 -> tracks b c d2 d3 -> tracks a c d1 d3.
Proof.
  intros [_ H1] [M2 H2]. split; [exact M2|].
  intros r3 H3. destruct (H2 r3 H3) as (r2 & Hr2 & K2 & G2).
  destruct (H1 r2 Hr2) as (r1 & Hr1 & K1 & G1).
  exists r1. split; [exact Hr1|]. split; congruence.
Qed.

Lemma tracks_set_column (c col : string) (values : list Cell) (df : DataFrame) :
  c <> col -> mem c (columns df) = true ->
  tracks c c df (set_column col values df).
Proof.
  intros Hne Hc. split.
  - apply mem_header_with_other, Hc.
  - intros r' Hr'. unfold set_column in Hr'. cbn [rows] in Hr'.
    apply in_map_iff in Hr'. destruct Hr' as ([r v] & <- & Hin).
    exists r. split; [eapply in_combine_l; exact Hin|].
    split; [reflexivity|].
    unfold set_column, get. cbn [columns cells fst snd].
    rewrite lookup_assign_other by assumption. reflexivity.
Qed.

Lemma tracks_sorted (c : string) (leb : Row -> Row -> bool) (df : DataFrame) :
  mem c (columns df) = true ->
  tracks c c df (mkFrame (columns df) (sort_values leb (rows df))).
Proof.
  intros Hc. split; [exact Hc|]. intros r Hr. cbn [rows] in Hr.
  apply sort_values_In in Hr. exists r. auto.
Qed.

Lemma tracks_transit (c : string) (df : DataFrame) :
  c <> "transit_investment_gdp" -> mem c (columns df) = true ->
  tracks c c df (transit_investment_gdp df).
Proof.
  intros Hne Hc. unfold transit_investment_gdp.
  destruct (_ || _); [|apply tracks_refl, Hc].
  destruct (_ && _); [apply tracks_set_column; assumption|].
  destruct (_ && _); apply tracks_set_column; assumption.
Qed.

Lemma tracks_lagged (c : string) (df : DataFrame) :
  mem c (columns df) = true -> tracks c c df (lagged df).
Proof.
  intros Hc. unfold lagged. cbn [columns rows].
  set (leb := fun a b => key_leb (key a) (key b)).
  destruct (mem "transit_invest_lag1" (columns df)) eqn:E.
  - apply tracks_sorted, Hc.
  - eapply tracks_trans; [apply (tracks_sorted c leb), Hc|].
    apply tracks_set_column; [|exact Hc].
    intros ->. congruence.
Qed.

Lemma lookup_renamed (old_name new_name : string) (cols : list string) :
  mem new_name cols = false ->
  forall cs, lookup new_name
                    (map (fun x => if String.eqb x old_name then new_name else x) cols) cs
             = lookup old_name cols cs.
Proof.
  intros Hn. induction cols as [|x t IH]; intros cs; [reflexivity|].
  simpl in Hn. apply orb_false_iff in Hn. destruct Hn as [H1 H2].
  cbn [map lookup]. destruct (String.eqb x old_name) eqn:E.
  - rewrite String.eqb_refl. reflexivity.
  - rewrite String.eqb_sym, H1. apply IH, H2.
Qed.

Lemma mem_renamed (old_name new_name : string) (cols : list string) :
  mem old_name cols = true ->
  mem new_name (map (fun x => if String.eqb x old_name then new_name else x) cols) = true.
Proof.
  unfold mem. induction cols as [|x t IH]; simpl; [discriminate|].
  intros H. apply orb_true_iff in H. apply orb_true_iff.
  destruct H as [H|H].
  - left. rewrite String.eqb_sym in H. rewrite H. apply String.eqb_refl.
  - right. apply IH, H.
Qed.

Lemma tracks_rename_same (old_name new_name : string) (df : DataFrame) :
  mem old_name (columns df) = true -> mem new_name (columns df) = false ->
  tracks old_name new_name df (rename old_name new_name df).
Proof.
  intros Ho Hn. split; [apply mem_renamed, Ho|].
  intros r Hr. exists r. split; [exact Hr|]. split; [reflexivity|].
  unfold rename, get. cbn [columns]. rewrite lookup_renamed by exact Hn. reflexivity.
Qed.

Lemma tracks_rename_other (c old_name new_name : string) (df : DataFrame) :
  c <> old_name -> c <> new_name -> mem c (columns df) = true ->
  tracks c c df (rename old_name new_name df).
Proof.
  intros Ho Hn Hc. split; [apply mem_rename; assumption|].
  intros r Hr. exists r. split; [exact Hr|]. split; [reflexivity|].
  unfold rename, get. cbn [columns]. rewrite lookup_rename by assumption. reflexivity.
Qed.

(** A column that is present and is not an old name passes every rename:
    a rename to its name is skipped because the name is taken. *)
Lemma tracks_renames (c : string) (l : list (string * string)) :
  Forall (fun p => fst p <> c) l ->
  forall df, mem c (columns df) = true ->
    tracks c c df
      (fold_left (fun df p =>
                    if mem (fst p) (columns df) && negb (mem (snd p) (columns df))
                    then rename (fst p) (snd p) df
                    else df) l df).
Proof.
  induction l as [|[o n] t IH]; intros Hl df Hc; [apply tracks_refl, Hc|].
  inversion Hl as [|? ? Ho Ht]; subst. cbn [fold_left fst snd]. cbn [fst] in Ho.
  destruct (mem o (columns df) && negb (mem n (columns df))) eqn:E.
  - apply andb_true_iff in E. destruct E as [_ En]. apply negb_true_iff in En.
    assert (T : tracks c c df (rename o n df)).
    { apply tracks_rename_other; [congruence | | exact Hc]. intros ->. congruence. }
    eapply tracks_trans; [exact T|]. apply IH; [exact Ht | apply T].
  - apply IH; assumption.
Qed.

Lemma tracks_ensure (c : string) (l : list string) :
  forall df, mem c (columns df) = true ->
    tracks c c df
      (fold_left (fun df col =>
                    if mem col (columns df) then df
                    else set_column col (map (fun _ => None) (rows df)) df) l df).
Proof.
  induction l as [|col t IH]; intros df Hc; [apply tracks_refl, Hc|].
  cbn [fold_left]. destruct (mem col (columns df)) eqn:E; [apply IH, Hc|].
  assert (T : tracks c c df (set_column col (map (fun _ => None) (rows df)) df)).
  { apply tracks_set_column; [|exact Hc]. intros ->. congruence. }
  eapply tracks_trans; [exact T|]. apply IH, T.
Qed.

Lemma lookup_map (c : string) (f : string -> Cell) (l : list string) :
  mem c l = true -> lookup c l (map f l) = Some (f c).
Proof.
  induction l as [|x t IH]; [discriminate|]. intros H.
  cbn [map lookup hd tl]. destruct (String.eqb x c) eqn:E.
  - apply String.eqb_eq in E. subst. reflexivity.
  - apply IH. simpl in H. rewrite String.eqb_sym, E in H. exact H.
Qed.

Lemma tracks_select_final (c : string) (df : DataFrame) :
  mem c final_columns = true -> tracks c c df (select_final df).
Proof.
  intros Hc. split; [exact Hc|]. intros r' Hr'.
  unfold select_final in Hr'. cbn [rows] in Hr'.
  apply in_map_iff in Hr'. destruct Hr' as (r & <- & Hr).
  exists r. split; [exact Hr|]. split; [reflexivity|].
  unfold select_final. cbn [columns cells].
  unfold get at 1. rewrite lookup_map by exact Hc. reflexivity.
Qed.

Lemma tracks_tail (c : string) (df : DataFrame) :
  mem c final_columns = true -> mem c (columns df) = true ->
  tracks c c df (select_final (ensure_columns df)).
Proof.
  intros Hf Hc. eapply tracks_trans; [apply tracks_ensure, Hc|].
  apply tracks_select_final, Hf.
Qed.

Lemma mem_header_with_neq (col c : string) (cols : list string) :
  c <> col -> mem c (header_with col cols) = mem c cols.
Proof.
  intros Hne. unfold header_with. destruct (mem col cols); [reflexivity|].
  unfold mem. rewrite existsb_app. simpl.
  assert (E : String.eqb c col = false)
    by (apply String.eqb_neq; exact Hne).
  rewrite E. rewrite !orb_false_r. reflexivity.
Qed.

Lemma columns_head (c : string) (df : DataFrame) :
  c <> "transit_investment_gdp" -> c <> "transit_invest_lag1" ->
  mem c (columns (lagged (transit_investment_gdp df))) = mem c (columns df).
Proof.
  intros H1 H2.
  assert (E1 : mem c (columns (transit_investment_gdp df)) = mem c (columns df)).
  { unfold transit_investment_gdp. destruct (_ || _); [|reflexivity].
    destruct (_ && _); [apply mem_header_with_neq, H1|].
    destruct (_ && _); apply mem_header_with_neq, H1. }
  rewrite <- E1. unfold lagged. cbn [columns].
  destruct (mem "transit_invest_lag1" _); [reflexivity|].
  apply mem_header_with_neq, H2.
Qed.

Lemma mem_renames_false (n : string) (l : list (string * string)) :
  Forall (fun p => snd p <> n) l ->
  forall df, mem n (columns df) = false ->
    mem n (columns
             (fold_left (fun df p =>
                           if mem (fst p) (columns df) && negb (mem (snd p) (columns df))
                           then rename (fst p) (snd p) df
                           else df) l df)) = false.
Proof.
  induction l as [|[o' n'] t IH]; intros Hl df Hn; [exact Hn|].
  inversion Hl as [|? ? Hne Ht]; subst. cbn [fold_left fst snd]. cbn [snd] in Hne.
  apply IH; [exact Ht|].
  destruct (_ && _); [|exact Hn].
  unfold rename. cbn [columns]. unfold mem in *.
  induction (columns df) as [|x xs IHx]; [reflexivity|].
  simpl in Hn. apply orb_false_iff in Hn. destruct Hn as [Hx Hxs].
  simpl. rewrite (IHx Hxs), orb_false_r.
  destruct (String.eqb x o'); [|exact Hx].
  apply String.eqb_neq. congruence.
Qed.

(** The pair [(o, n)] of the rename map takes effect when no earlier pair
    touches [o] or produces [n] and no later pair renames [n] away. *)
Lemma tracks_rename_pair (o n : string) (pre post : list (string * string)) :
  Forall (fun p => fst p <> o) pre -> Forall (fun p => snd p <> n) pre ->
  Forall (fun p => fst p <> n) post ->
  forall df, mem o (columns df) = true -> mem n (columns df) = false ->
    tracks o n df
      (fold_left (fun df p =>
                    if mem (fst p) (columns df) && negb (mem (snd p) (columns df))
                    then rename (fst p) (snd p) df
                    else df) (pre ++ (o, n) :: post) df).
Proof.
  intros Hpo Hpn Hpost df Ho Hn. rewrite fold_left_app.
  set (step := fun (df : DataFrame) (p : string * string) =>
                 if mem (fst p) (columns df) && negb (mem (snd p) (columns df))
                 then rename (fst p) (snd p) df else df).
  set (d1 := fold_left step pre df).
  assert (T1 : tracks o o df d1) by (apply tracks_renames; assumption).
  assert (N1 : mem n (columns d1) = false) by (apply mem_renames_false; assumption).
  assert (O1 : mem o (columns d1) = true) by apply T1.
  cbn [fold_left]. unfold step at 2. cbn [fst snd]. rewrite O1, N1. cbn [negb andb].
  assert (T2 : tracks o n d1 (rename o n d1)) by (apply tracks_rename_same; assumption).
  eapply tracks_trans; [exact T1|].
  eapply tracks_trans; [exact T2|].
  apply tracks_renames; [exact Hpost | apply T2].
Qed.

Lemma tracks_head (c : string) (df : DataFrame) :
  c <> "transit_investment_gdp" -> mem c (columns df) = true ->
  tracks c c df (lagged (transit_investment_gdp df)).
Proof.
  intros Hne Hc.
  assert (T : tracks c c df (transit_investment_gdp df))
    by (apply tracks_transit; assumption).
  eapply tracks_trans; [exact T|]. apply tracks_lagged, T.
Qed.
End TrackFacts.

(** X15 — a column of the merged frame that the clean panel keeps under
    its own name reaches the panel unchanged: for every final column
    other than the investment share that the merged frame has, each row of
    the clean panel reads, in that column, the value of a merged row with
    the same key. *)
Theorem X15_final_column_passes_through :
  forall (df : MergePanel.DataFrame) (c : string),
    In c MergePanel.final_columns ->
    c <> "transit_investment_gdp" ->
    Frame.mem c (MergePanel.columns df) = true ->
    Properties.tracks c c df (MergePanel.after_merge df).
Proof.
  intros df c Hf Hne Hc. unfold MergePanel.after_merge.
  assert (T1 := tracks_head c df Hne Hc).
  eapply tracks_trans; [exact T1|].
  assert (T2 : Properties.tracks c c
                 (MergePanel.lagged (MergePanel.transit_investment_gdp df))
                 (MergePanel.standardize_names
                    (MergePanel.lagged (MergePanel.transit_investment_gdp df)))).
  { unfold MergePanel.standardize_names. apply tracks_renames; [|apply T1].
    unfold MergePanel.rename_map. cbn [MergePanel.final_columns In] in Hf.
    repeat (destruct Hf as [<-|Hf]; [repeat constructor; cbn [fst]; discriminate|]).
    destruct Hf. }
  eapply tracks_trans; [exact T2|].
  apply tracks_tail; [apply mem_In, Hf | apply T2].
Qed.

Lemma X15_final_column_passes_through_witness :
  Properties.tracks "data_source" "data_source" MoreExamples.merged_frame
                    (MergePanel.after_merge MoreExamples.merged_frame).
Proof.
  apply (X15_final_column_passes_through MoreExamples.merged_frame "data_source");
    [simpl; tauto | discriminate | reflexivity].
Defined.

(** X16 — the renamed columns of the clean panel: when the merged frame
    has [congestion_level_pct] and no [congestion_index] (likewise
    [pm25_annual_mean] and [pm25], [urban_population_pct] and
    [population_density]), the new column of the clean panel reads, row by
    row, the value the old column has in a merged row with the same key. *)
Theorem X16_renamed_column_carries_old_values :
  forall (df : MergePanel.DataFrame) (old_name new_name : string),
    In (old_name, new_name)
       [("congestion_level_pct", "congestion_index");
        ("pm25_annual_mean", "pm25");
        ("urban_population_pct", "population_density")] ->
    Frame.mem old_name (MergePanel.columns df) = true ->
    Frame.mem new_name (MergePanel.columns df) = false ->
    Properties.tracks old_name new_name df (MergePanel.after_merge df).
Proof.
  intros df o n Hin Ho Hn. unfold MergePanel.after_merge.
  set (d1 := MergePanel.lagged (MergePanel.transit_investment_gdp df)).
  assert (T1 : Properties.tracks o o df d1).
  { apply tracks_head; [|exact Ho].
    cbn [In] in Hin. intuition (try congruence); injection H as <- <-; discriminate. }
  assert (N1 : Frame.mem n (MergePanel.columns d1) = false).
  { unfold d1. rewrite columns_head; [exact Hn| |];
      cbn [In] in Hin; intuition (try congruence); injection H as <- <-; discriminate. }
  assert (T2 : Properties.tracks o n d1 (MergePanel.standardize_names d1)).
  { unfold MergePanel.standardize_names, MergePanel.rename_map.
    cbn [In] in Hin. destruct Hin as [E|[E|[E|[]]]]; injection E as <- <-.
    - apply (tracks_rename_pair _ _ []); [constructor | constructor | | apply T1 | exact N1].
      repeat constructor; cbn [fst]; discriminate.
    - apply (tracks_rename_pair _ _
               [("congestion_level_pct", "congestion_index");
                ("congestion_level", "congestion_index")]);
        [| | | apply T1 | exact N1]; repeat constructor; cbn [fst snd]; discriminate.
    - apply (tracks_rename_pair _ _
               [("congestion_level_pct", "congestion_index");
                ("congestion_level", "congestion_index");
                ("pm25_annual_mean", "pm25");
                ("pm25_value", "pm25")]);
        [| | | apply T1 | exact N1]; repeat constructor; cbn [fst snd]; discriminate. }
  eapply tracks_trans; [exact T1|].
  eapply tracks_trans; [exact T2|].
  apply tracks_tail; [|apply T2].
  cbn [In] in Hin. destruct Hin as [E|[E|[E|[]]]]; injection E as <- <-; reflexivity.
Qed.

Lemma X16_renamed_column_witness :
  Properties.tracks "congestion_level_pct" "congestion_index" MoreExamples.merged_frame
                    (MergePanel.after_merge MoreExamples.merged_frame).
Proof.
  apply (X16_renamed_column_carries_old_values MoreExamples.merged_frame);
    [simpl; tauto | reflexivity | reflexivity].
Defined.

(** ** Winsorizer: range, order and shape *)

(** X17 — a winsorized column lies between the percentiles of its input.
    On a float64 column the pass keeps every missing cell missing, keeps
    every value inside the range of the 1st and 99th percentile of the
    input as it is, and moves a value below (above) the range to the 1st
    (99th) percentile; the number of cells does not change.  An int64
    column outside the excluded names either has no value outside the
    percentiles and is written back as the same integers, or is written
    back as a float64 column: the float64 of each integer, clipped in the
    same way to the percentiles of these float64 values, so that an
    integer of more than 53 bits inside the range is saved rounded. *)
Theorem X17_winsorized_values_in_range :
  (forall (l : list (option Q)) (p01 p99 : Q),
     Winsorization.quantile (1#100) l = Some p01 ->
     Winsorization.quantile (99#100) l = Some p99 ->
     Forall2 (Properties.clipped p01 p99) l (Winsorization.winsorize_column l)) /\
  (forall (name : string) (zs : list Z) (p01 p99 : Q),
     Frame.mem name Winsorization.exclude_cols = false ->
     Winsorization.quantile (1#100) (Winsorization.as_float64 zs) = Some p01 ->
     Winsorization.quantile (99#100) (Winsorization.as_float64 zs) = Some p99 ->
     (Winsorization.winsorize_named (name, Winsorization.Integer zs)
      = (name, Winsorization.Integer zs) /\
      Forall (fun z => p01 <= Winsorization.to_float64 z <= p99)%Q zs) \/
     (exists l',
        Winsorization.winsorize_named (name, Winsorization.Integer zs)
        = (name, Winsorization.Numeric l') /\
        Forall2 (Properties.clipped p01 p99) (Winsorization.as_float64 zs) l' /\
        Exists (fun z => ~ (p01 <= Winsorization.to_float64 z <= p99)%Q) zs)) /\
  Winsorization.to_float64 9007199254740993 = inject_Z 9007199254740992 /\
  (forall z, (Z.abs z <= 9007199254740992)%Z -> Winsorization.to_float64 z = inject_Z z).
Proof.
  split; [|split; [|split]].
  - intros l p01 p99. apply winsorize_column_clipped.
  - intros name zs p01 p99 Hn E01 E99.
    unfold Winsorization.winsorize_named. cbn [fst snd]. rewrite Hn.
    pose proof (winsorize_column_clipped _ _ _ E01 E99) as HF.
    destruct (Winsorization.has_outliers (Winsorization.as_float64 zs)) eqn:G.
    + right. exists (Winsorization.winsorize_column (Winsorization.as_float64 zs)).
      split; [reflexivity|]. split; [exact HF|].
      destruct (has_outliers_outside _ _ _ E01 E99 G) as (x & Hx & Hout).
      apply Exists_exists. unfold Winsorization.as_float64 in Hx.
      apply in_map_iff in Hx. destruct Hx as (z & Ez & Hz).
      exists z. split; [exact Hz|]. injection Ez as <-. exact Hout.
    + left. split; [reflexivity|]. apply Forall_forall. intros z Hz.
      apply (no_outliers_inside _ _ _ E01 E99 G).
      unfold Winsorization.as_float64. apply in_map_iff. exists z. auto.
  - vm_compute. reflexivity.
  - intros z Hz. apply to_float64_small, Hz.
Qed.

Lemma X17_winsorized_values_in_range_witness :
  (exists p01 p99,
     Forall2 (Properties.clipped p01 p99)
             [Some 0%Q; Some (10#1)]
             (Winsorization.winsorize_column [Some 0%Q; Some (10#1)])) /\
  Winsorization.to_float64 2020 = inject_Z 2020.
Proof.
  split.
  - eexists. eexists.
    apply (proj1 X17_winsorized_values_in_range [Some 0%Q; Some (10#1)]);
      vm_compute; reflexivity.
  - apply (proj2 (proj2 (proj2 X17_winsorized_values_in_range))). vm_compute. discriminate.
Defined.

(** The int64 column 0, 2^53 + 1, 2^53 + 3 is written back as float64:
    its ends are clipped and the middle integer, inside the range, is
    saved as 2^53. *)
Example int64_column_saved_rounded :
  exists lo hi,
    Winsorization.winsorize Examples.winsor_int64
    = [("x", Winsorization.Numeric [Some lo; Some (inject_Z 9007199254740992); Some hi])].
Proof. eexists. eexists. vm_compute. reflexivity. Qed.

(** X18 — winsorizing keeps the relative order of the observations: two
    observed values of a column that stand in the order x <= y before the
    pass are both still observed afterwards, in the same cells, and still
    stand in that order. *)
Theorem X18_winsorize_keeps_order :
  forall (l : list (option Q)) (i j : nat) (x y : Q),
    nth_error l i = Some (Some x) ->
    nth_error l j = Some (Some y) ->
    (x <= y)%Q ->
    exists x' y',
      nth_error (Winsorization.winsorize_column l) i = Some (Some x') /\
      nth_error (Winsorization.winsorize_column l) j = Some (Some y') /\
      (x' <= y')%Q.
Proof.
  intros l i j x y Hi Hj Hxy.
  destruct (winsorize_column_cases l) as [[-> _]|(p01 & p99 & _ & _ & ->)].
  - exists x, y. auto.
  - rewrite (where_nth p01 p99 l i _ Hi), (where_nth p01 p99 l j _ Hj).
    destruct (clip_cell_mono p01 p99 x y Hxy) as (x' & y' & -> & -> & H).
    exists x', y'. auto.
Qed.

Lemma X18_winsorize_keeps_order_witness :
  exists x' y',
    nth_error (Winsorization.winsorize_column [Some 0%Q; Some (10#1)]) 0 = Some (Some x') /\
    nth_error (Winsorization.winsorize_column [Some 0%Q; Some (10#1)]) 1 = Some (Some y') /\
    (x' <= y')%Q.
Proof.
  apply (X18_winsorize_keeps_order [Some 0%Q; Some (10#1)] 0 1 0%Q (10#1));
    [reflexivity | reflexivity | vm_compute; discriminate].
Defined.

Section WinsorShape.
Import Frame Winsorization.

Lemma winsorize_column_length (l : list (option Q)) :
  length (winsorize_column l) = length l.
Proof.
  destruct (winsorize_column_cases l) as [[-> _]|(p01 & p99 & _ & _ & ->)];
    [reflexivity|].
  unfold where_below, where_above. rewrite !length_map. reflexivity.
Qed.
End WinsorShape.

(** What the winsorizer leaves alone: the processed file has the same
    columns in the same order; a text column, and a numeric column named
    year, time_idx, index or id, is written back as read; every other
    numeric column keeps its number of cells. *)
Lemma winsorize_keeps_shape :
  forall (df : Winsorization.DataFrame),
    map fst (Winsorization.winsorize df) = map fst df /\
    Forall2 (fun before after =>
               match snd before with
               | Winsorization.Object _ => after = before
               | Winsorization.Numeric l =>
                   if Frame.mem (fst before) Winsorization.exclude_cols
                   then after = before
                   else exists l', snd after = Winsorization.Numeric l' /\
                                   length l' = length l
               | Winsorization.Integer zs =>
                   if Frame.mem (fst before) Winsorization.exclude_cols
                   then after = before
                   else after = before \/
                        exists l', snd after = Winsorization.Numeric l' /\
                                   length l' = length zs
               end)
            df (Winsorization.winsorize df).
Proof.
  intros df. unfold Winsorization.winsorize. split.
  - rewrite map_map. apply map_ext.
    intros [name [l|zs|l]]; unfold Winsorization.winsorize_named; cbn [fst snd];
      try destruct (Frame.mem _ _); try destruct (Winsorization.has_outliers _); reflexivity.
  - induction df as [|[name col] t IH]; [constructor|].
    cbn [map]. constructor; [|exact IH].
    unfold Winsorization.winsorize_named. cbn [fst snd].
    destruct col as [l|zs|l]; [| |reflexivity].
    + destruct (Frame.mem name Winsorization.exclude_cols); [reflexivity|].
      exists (Winsorization.winsorize_column l). split; [reflexivity|].
      apply winsorize_column_length.
    + destruct (Frame.mem name Winsorization.exclude_cols); [reflexivity|].
      destruct (Winsorization.has_outliers _); [|left; reflexivity].
      right. eexists. split; [reflexivity|].
      rewrite winsorize_column_length. unfold Winsorization.as_float64.
      apply length_map.
Qed.

(** ** Missing-value handler: what the fills produce *)

Section InterpolationFacts.
Import Frame MissingValues Claims.

Lemma next_valid_some (t : list (option Q)) (b : Q) (db : nat) :
  next_valid t = Some (b, db) -> In (Some b) t /\ (1 <= db)%nat.
Proof.
  revert db. induction t as [|[x|] t IH]; intros db; simpl; [discriminate| |].
  - intros E. injection E as <- <-. split; [left; reflexivity | lia].
  - destruct (next_valid t) as [[x d]|]; [|discriminate].
    intros E. injection E as <- <-. destruct (IH d eq_refl) as [H _].
    split; [right; exact H | lia].
Qed.

Lemma next_valid_observed (t : list (option Q)) (x : Q) :
  In (Some x) t -> next_valid t <> None.
Proof.
  induction t as [|[y|] t IH]; simpl; [tauto | discriminate |].
  intros [E|H]; [discriminate|].
  destruct (next_valid t) as [[b d]|]; [discriminate | exact (IH H)].
Qed.

Lemma between_range (lo hi a b : Q) (da db : nat) :
  (lo <= a <= hi)%Q -> (lo <= b <= hi)%Q -> (1 <= da)%nat -> (1 <= db)%nat ->
  (lo <= between a da b db <= hi)%Q.
Proof.
  intros Ha Hb Hda Hdb. unfold between.
  rewrite Nat2Z.inj_add, inject_Z_plus.
  assert (Hn : (1 <= inject_Z (Z.of_nat da))%Q)
    by (change 1%Q with (inject_Z 1); rewrite <- Zle_Qle; lia).
  assert (Hm : (1 <= inject_Z (Z.of_nat db))%Q)
    by (change 1%Q with (inject_Z 1); rewrite <- Zle_Qle; lia).
  set (n := inject_Z (Z.of_nat da)) in *.
  set (m := inject_Z (Z.of_nat db)) in *.
  assert (Hd : (0 < n + m)%Q) by lra.
  set (X := ((b - a) * n / (n + m))%Q).
  assert (HX : (X * (n + m) == (b - a) * n)%Q).
  { unfold X. field. lra. }
  split.
  - apply Qmult_le_r with (z := (n + m)%Q); [exact Hd|].
    setoid_replace ((a + X) * (n + m))%Q with (a * (n + m) + X * (n + m))%Q by ring.
    rewrite HX. nra.
  - apply Qmult_le_r with (z := (n + m)%Q); [exact Hd|].
    setoid_replace ((a + X) * (n + m))%Q with (a * (n + m) + X * (n + m))%Q by ring.
    rewrite HX. nra.
Qed.

Lemma interpolate_from_range (lo hi : Q) (l : list (option Q)) :
  (forall x, In (Some x) l -> (lo <= x <= hi)%Q) ->
  forall prev,
    (forall a da, prev = Some (a, da) -> (lo <= a <= hi)%Q /\ (1 <= da)%nat) ->
    forall y, In (Some y) (interpolate_from prev l) -> (lo <= y <= hi)%Q.
Proof.
  induction l as [|[x|] t IH]; intros Hl prev Hprev y Hy; [destruct Hy| |].
  - cbn [interpolate_from] in Hy. destruct Hy as [E|Hy].
    + injection E as <-. apply Hl. left. reflexivity.
    + apply (IH (fun z Hz => Hl z (or_intror Hz)) (Some (x, 1%nat))); [|exact Hy].
      intros a da E. injection E as <- <-. split; [apply Hl; left; reflexivity | lia].
  - cbn [interpolate_from] in Hy. destruct Hy as [E|Hy].
    + destruct prev as [[a da]|].
      * destruct (Hprev a da eq_refl) as [Ha Hda].
        destruct (next_valid t) as [[b db]|] eqn:En.
        -- apply next_valid_some in En. destruct En as [Hb Hdb].
           injection E as <-. apply between_range; auto.
           apply Hl. right. exact Hb.
        -- injection E as <-. exact Ha.
      * destruct (next_valid t) as [[b db]|] eqn:En; [|discriminate].
        apply next_valid_some in En. destruct En as [Hb _].
        injection E as <-. apply Hl. right. exact Hb.
    + apply (IH (fun z Hz => Hl z (or_intror Hz))
                (match prev with Some (a, da) => Some (a, S da) | None => None end));
        [|exact Hy].
      intros a da E. destruct prev as [[a' da']|]; [|discriminate].
      injection E as <- <-. destruct (Hprev a' da' eq_refl) as [Ha _].
      split; [exact Ha | lia].
Qed.

Lemma interpolate_from_filled (l : list (option Q)) :
  forall prev,
    prev <> None \/ (exists x, In (Some x) l) ->
    null_free (interpolate_from prev l).
Proof.
  unfold null_free.
  induction l as [|[x|] t IH]; intros prev H; cbn [interpolate_from]; [constructor| |].
  - constructor; [discriminate|]. apply IH. left. discriminate.
  - constructor.
    + destruct prev as [[a da]|].
      * destruct (next_valid t) as [[b db]|]; discriminate.
      * destruct H as [H|[x [E|Hx]]]; [contradiction | discriminate |].
        pose proof (next_valid_observed t x Hx) as Hn.
        destruct (next_valid t) as [[b db]|]; [discriminate | contradiction].
    + apply IH. destruct prev as [[a da]|]; [left; discriminate|].
      right. destruct H as [H|[x [E|Hx]]]; [contradiction | discriminate |].
      exists x. exact Hx.
Qed.
End InterpolationFacts.

(** X19 — linear interpolation stays within what was observed: the
    interpolated series keeps every observed value where it stands, every
    value it fills in lies within any range that contains the observed
    values (gaps inside a run lie between their neighbours, leading and
    trailing gaps repeat the nearest observation), and as soon as the
    series has one observation no gap is left. *)
Theorem X19_interpolation_within_observed_range :
  forall (l : list (option Q)),
    Claims.extends l (MissingValues.interpolate l) /\
    (forall lo hi,
       (forall x, In (Some x) l -> (lo <= x <= hi)%Q) ->
       forall y, In (Some y) (MissingValues.interpolate l) -> (lo <= y <= hi)%Q) /\
    (forall x, In (Some x) l -> Claims.null_free (MissingValues.interpolate l)).
Proof.
  intros l. unfold MissingValues.interpolate. split; [apply interpolate_extends|]. split.
  - intros lo hi Hl y Hy.
    apply (interpolate_from_range lo hi l Hl None); [discriminate | exact Hy].
  - intros x Hx. apply interpolate_from_filled. right. exists x. exact Hx.
Qed.

Lemma X19_interpolation_witness :
  Claims.null_free
    (MissingValues.interpolate [None; Some (1000#1); None; Some (1200#1); None]).
Proof.
  apply (proj2 (proj2 (X19_interpolation_within_observed_range
                         [None; Some (1000#1); None; Some (1200#1); None]))
               (1000#1)).
  simpl. tauto.
Defined.

Section FillCells.
Import Frame MissingValues Claims.
Context {A : Type}.

Lemma first_valid_app (a b : list (option A)) :
  first_valid (a ++ b) =
  match first_valid a with Some y => Some y | None => first_valid b end.
Proof.
  induction a as [|[x|] t IH]; simpl; [destruct (first_valid b) | | exact IH]; reflexivity.
Qed.

Lemma first_valid_ffill (t : list (option A)) :
  first_valid (ffill_from None t) = first_valid t.
Proof.
  induction t as [|[x|] t IH]; simpl; [reflexivity | reflexivity | exact IH].
Qed.

(** A cell of [bfill (ffill_from prev l)]: the latest observation at or
    before it, else the value carried in, else the first observation
    after it. *)
Lemma ffill_bfill_nth (l : list (option A)) :
  forall prev i, (i < length l)%nat ->
    nth_error (bfill (ffill_from prev l)) i =
    Some (match first_valid (rev (firstn (S i) l)) with
          | Some x => Some x
          | None =>
              match prev with
              | Some p => Some p
              | None => first_valid (skipn (S i) l)
              end
          end).
Proof.
  induction l as [|c t IH]; intros prev i Hi; [simpl in Hi; lia|].
  destruct i as [|i].
  - cbn [firstn rev app skipn]. destruct c as [x|]; [reflexivity|].
    cbn [ffill_from first_valid]. destruct prev as [p|]; cbn [bfill nth_error]; [reflexivity|].
    rewrite first_valid_ffill. reflexivity.
  - cbn [length] in Hi. assert (Hi' : (i < length t)%nat) by lia.
    change (firstn (S (S i)) (c :: t)) with (c :: firstn (S i) t).
    change (skipn (S (S i)) (c :: t)) with (skipn (S i) t).
    cbn [rev]. rewrite first_valid_app.
    destruct c as [x|].
    + cbn [ffill_from bfill nth_error]. rewrite (IH (Some x) i Hi').
      cbn [first_valid]. destruct (first_valid (rev (firstn (S i) t))); reflexivity.
    + cbn [ffill_from first_valid].
      destruct prev as [p|]; cbn [bfill nth_error]; rewrite (IH _ i Hi');
        destruct (first_valid (rev (firstn (S i) t))); reflexivity.
Qed.
End FillCells.

(** X20 — forward fill followed by backward fill: every cell of the
    filled series holds the latest observation at or before it, and, when
    there is none, the first observation after it; a cell stays missing
    only if the series has no observation at all. *)
Theorem X20_ffill_bfill_nearest_observation :
  forall (A : Type) (l : list (option A)) (i : nat),
    (i < length l)%nat ->
    nth_error (MissingValues.ffill_bfill l) i =
    Some (match MissingValues.first_valid (rev (firstn (S i) l)) with
          | Some x => Some x
          | None => MissingValues.first_valid (skipn (S i) l)
          end).
Proof.
  intros A l i Hi. unfold MissingValues.ffill_bfill, MissingValues.ffill.
  rewrite (ffill_bfill_nth l None i Hi). reflexivity.
Qed.

Lemma X20_ffill_bfill_witness :
  nth_error (MissingValues.ffill_bfill [None; Some 4%Z; None; Some 7%Z; None]) 2 =
  Some (match MissingValues.first_valid
                (rev (firstn 3 [None; Some 4%Z; None; Some 7%Z; None])) with
        | Some x => Some x
        | None => MissingValues.first_valid (skipn 3 [None; Some 4%Z; None; Some 7%Z; None])
        end).
Proof.
  apply (X20_ffill_bfill_nearest_observation Z [None; Some 4%Z; None; Some 7%Z; None] 2).
  simpl. lia.
Defined.


(** X21 — a per-country transform works country by country: for a fill
    that keeps the length of a series, the values of a country in the
    transformed column are the fill applied to the values of that country
    alone; the observations of other countries play no part. *)
Theorem X21_transform_is_per_country :
  forall (A : Type) (f : list A -> list A),
    (forall g, length (f g) = length g) ->
    forall (countries : list string) (col : list A) (c : string),
      MissingValues.group_values countries c (MissingValues.transform f countries col)
      = f (MissingValues.group_values countries c col).
Proof.
  intros A f Hf countries col c. apply transform_group_values, Hf.
Qed.

Lemma X21_transform_is_per_country_witness :
  MissingValues.group_values ["A"; "B"; "A"] "A"
    (MissingValues.transform MissingValues.interpolate ["A"; "B"; "A"]
                             [Some 1%Q; None; None])
  = MissingValues.interpolate
      (MissingValues.group_values ["A"; "B"; "A"] "A" [Some 1%Q; None; None]).
Proof.
  apply (X21_transform_is_per_country _ MissingValues.interpolate).
  intros g. symmetry. apply (Forall2_length (interpolate_extends g None)).
Defined.

Section HandlerFacts.
Import Frame MissingValues Claims.

Lemma fill_mean_extends (l : list (option Q)) : extends l (fill_mean l).
Proof.
  unfold fill_mean. destruct (existsb isnull l); [|apply extends_refl].
  destruct (mean l) as [m|]; [|apply extends_refl].
  unfold fillna, extends. induction l as [|[x|] t IH]; cbn [map]; constructor;
    try exact IH; [reflexivity|].
  intros H. contradiction H. reflexivity.
Qed.

Lemma handle_column_numeric_extends (countries : list string) (name : string)
      (l : list (option Q)) :
  exists l', handle_column countries name (Numeric l) = Numeric l' /\ extends l l'.
Proof.
  destruct (handle_column_numeric countries name l) as [li [E H]].
  exists (fill_mean li). split; [exact E|].
  eapply extends_trans; [exact H | apply fill_mean_extends].
Qed.

Lemma handle_column_object_extends (countries : list string) (name : string)
      (l : list (option string)) :
  exists l', handle_column countries name (Object l) = Object l' /\ extends l l'.
Proof.
  unfold handle_column, impute.
  destruct (mem name time_invariant_vars);
    [exists l; split; [reflexivity | apply extends_refl]|].
  destruct (_ || _); [exists l; split; [reflexivity | apply extends_refl]|].
  destruct (_ || _); [|exists l; split; [reflexivity | apply extends_refl]].
  eexists. split; [reflexivity|].
  apply transform_extends. intros g. apply ffill_bfill_extends.
Qed.

Lemma combine_seq_nth {A : Type} (d : A) (l : list A) :
  forall (s i : nat) (x : A),
    In (x, i) (combine l (seq s (length l))) -> nth (i - s) l d = x /\ (s <= i)%nat.
Proof.
  induction l as [|a t IH]; intros s i x Hin; [destruct Hin|].
  cbn [length seq combine] in Hin. destruct Hin as [E|Hin].
  - injection E as <- <-. rewrite Nat.sub_diag. split; [reflexivity | lia].
  - destruct (IH (S s) i x Hin) as [H Hs].
    replace (i - s)%nat with (S (i - S s)) by lia. split; [exact H | lia].
Qed.

Lemma combine_nth_pair {A B : Type} (da : A) (db : B) (la : list A) (lb : list B) (n : nat) :
  length la = length lb ->
  nth n (combine la lb) (da, db) = (nth n la da, nth n lb db).
Proof. intros H. apply combine_nth, H. Qed.

Lemma sorted_map {A B : Type} (R : B -> B -> Prop) (f : A -> B) (l : list A) :
  StronglySorted (fun a b => R (f a) (f b)) l -> StronglySorted R (map f l).
Proof.
  induction 1 as [|x t Ht IH Hx]; cbn [map]; constructor; [exact IH|].
  rewrite Forall_forall in *. intros y Hy. apply in_map_iff in Hy.
  destruct Hy as (z & <- & Hz). apply Hx, Hz.
Qed.

(** The keys of the sorted frame are in ascending (country, year) order. *)
Lemma sort_frame_sorted (df : DataFrame) :
  length (year df) = length (country df) ->
  StronglySorted (fun a b => key_leb a b = true)
                 (combine (country (sort_frame df)) (year (sort_frame df))).
Proof.
  intros Hlen. unfold sort_frame, order. cbn [country year].
  set (pairs := combine (combine (country df) (year df)) (seq 0 (length (country df)))).
  set (sorted := sort_values (fun a b => key_leb (fst a) (fst b)) pairs).
  assert (E : combine (take EmptyString (map snd sorted) (country df))
                      (take 0%Z (map snd sorted) (year df))
              = map fst sorted).
  { unfold take. rewrite !map_map.
    assert (Hin : forall p, In p sorted ->
                            (nth (snd p) (country df) EmptyString, nth (snd p) (year df) 0%Z)
                            = fst p).
    { intros [k i] Hp. apply sort_values_In in Hp. unfold pairs in Hp.
      assert (Hl : length (combine (country df) (year df)) = length (country df)).
      { rewrite length_combine, Hlen. apply Nat.min_id. }
      rewrite <- Hl in Hp.
      destruct (combine_seq_nth (EmptyString, 0%Z) _ 0 i k Hp) as [Hn _].
      rewrite Nat.sub_0_r in Hn. cbn [fst snd].
      rewrite <- Hn. symmetry. apply combine_nth. symmetry. exact Hlen. }
    clear - Hin. induction sorted as [|p t IH]; [reflexivity|].
    cbn [map combine]. rewrite (Hin p (or_introl eq_refl)).
    rewrite IH; [reflexivity|]. intros q Hq. apply Hin. right. exact Hq. }
  rewrite E. apply sorted_map.
  apply (sort_values_sorted (fun a b => key_leb (fst a) (fst b))).
  - intros a b. apply key_leb_total.
  - intros a b c. apply key_leb_trans.
Qed.
End HandlerFacts.

(** X22 — the handler only reorders rows and fills gaps: on a rectangular
    file the written frame is in ascending (country, year) order and has
    the rows of the input, the same columns in the same order, and in
    every column each observed cell of a row still holds the value it had;
    only missing cells receive a value. *)
Theorem X22_handler_keeps_observations :
  forall (df : MissingValues.DataFrame),
    Claims.rectangular df ->
    StronglySorted (fun a b => Frame.key_leb a b = true)
                   (combine (MissingValues.country (MissingValues.handle df))
                            (MissingValues.year (MissingValues.handle df))) /\
    exists idx,
      Permutation idx (seq 0 (length (MissingValues.country df))) /\
      MissingValues.country (MissingValues.handle df)
        = MissingValues.take EmptyString idx (MissingValues.country df) /\
      MissingValues.year (MissingValues.handle df)
        = MissingValues.take 0%Z idx (MissingValues.year df) /\
      Forall2 (fun before after =>
                 fst after = fst before /\
                 match snd before with
                 | MissingValues.Numeric l =>
                     exists l', snd after = MissingValues.Numeric l' /\
                                Claims.extends (MissingValues.take None idx l) l'
                 | MissingValues.Object l =>
                     exists l', snd after = MissingValues.Object l' /\
                                Claims.extends (MissingValues.take None idx l) l'
                 end)
              (MissingValues.columns df)
              (MissingValues.columns (MissingValues.handle df)).
Proof.
  intros df [Hy _]. split; [apply (sort_frame_sorted df Hy)|].
  exists (MissingValues.order df).
  split; [apply order_perm, Hy|].
  split; [reflexivity|]. split; [reflexivity|].
  unfold MissingValues.handle. cbv zeta. cbn [MissingValues.columns].
  generalize (MissingValues.country (MissingValues.sort_frame df)). intros cs.
  unfold MissingValues.sort_frame. cbn [MissingValues.columns].
  rewrite map_map. cbn [fst snd].
  induction (MissingValues.columns df) as [|[name col] t IH]; [constructor|].
  cbn [map]. constructor; [|exact IH]. cbn [fst snd]. split; [reflexivity|].
  destruct col as [l|l]; cbn [MissingValues.take_column].
  - apply handle_column_numeric_extends.
  - apply handle_column_object_extends.
Qed.

Lemma X22_handler_keeps_observations_witness :
  StronglySorted (fun a b => Frame.key_leb a b = true)
                 (combine (MissingValues.country (MissingValues.handle Examples.missing_frame))
                          (MissingValues.year (MissingValues.handle Examples.missing_frame))) /\
  exists idx,
    Permutation idx (seq 0 (length (MissingValues.country Examples.missing_frame))) /\
    MissingValues.country (MissingValues.handle Examples.missing_frame)
      = MissingValues.take EmptyString idx (MissingValues.country Examples.missing_frame) /\
    MissingValues.year (MissingValues.handle Examples.missing_frame)
      = MissingValues.take 0%Z idx (MissingValues.year Examples.missing_frame) /\
    Forall2 (fun before after =>
               fst after = fst before /\
               match snd before with
               | MissingValues.Numeric l =>
                   exists l', snd after = MissingValues.Numeric l' /\
                              Claims.extends (MissingValues.take None idx l) l'
               | MissingValues.Object l =>
                   exists l', snd after = MissingValues.Object l' /\
                              Claims.extends (MissingValues.take None idx l) l'
               end)
            (MissingValues.columns Examples.missing_frame)
            (MissingValues.columns (MissingValues.handle Examples.missing_frame)).
Proof.
  apply (X22_handler_keeps_observations Examples.missing_frame).
  split; [reflexivity | repeat constructor].
Defined.

(** ** Standardizer: names, years, failures *)

Section NameFacts.
Import Frame Standardization Properties.

Lemma text_eqb_eq (a b : Text) : text_eqb a b = true <-> a = b.
Proof.
  revert b. induction a as [|x s IH]; intros [|y t]; cbn [text_eqb];
    try (split; [discriminate | discriminate]); [tauto|].
  rewrite andb_true_iff, N.eqb_eq, IH. split.
  - intros [-> ->]. reflexivity.
  - intros E. injection E as -> ->. auto.
Qed.

Lemma lstrip_clean (s : Text) : clean_head (lstrip s).
Proof.
  induction s as [|c t IH]; cbn [lstrip]; [exact I|].
  destruct (is_space c) eqn:E; [exact IH | exact E].
Qed.

Lemma lstrip_of_clean (s : Text) : clean_head s -> lstrip s = s.
Proof. destruct s as [|c t]; cbn [lstrip clean_head]; [reflexivity|]. intros ->. reflexivity. Qed.

Lemma rstrip_cons (c : N) (t : Text) :
  rstrip (c :: t) =
  match rstrip t with
  | [] => if is_space c then [] else [c]
  | r => c :: r
  end.
Proof. reflexivity. Qed.

Lemma rstrip_clean (s : Text) : clean_head s -> clean_head (rstrip s).
Proof.
  destruct s as [|c t]; [auto|]. rewrite rstrip_cons. cbn [clean_head]. intros E.
  destruct (rstrip t); [rewrite E|]; exact E.
Qed.

Lemma rstrip_idem (s : Text) : rstrip (rstrip s) = rstrip s.
Proof.
  induction s as [|c t IH]; [reflexivity|]. rewrite rstrip_cons.
  destruct (rstrip t) as [|b r] eqn:E.
  - destruct (is_space c) eqn:Ec; [reflexivity|].
    rewrite rstrip_cons. cbn [rstrip]. rewrite Ec. reflexivity.
  - rewrite rstrip_cons, IH. reflexivity.
Qed.

Lemma strip_idem (s : Text) : strip (strip s) = strip s.
Proof.
  unfold strip.
  rewrite (lstrip_of_clean (rstrip (lstrip s))) by apply rstrip_clean, lstrip_clean.
  apply rstrip_idem.
Qed.

Lemma lookup_In (k v : Text) (m : list (Text * Text)) :
  lookup k m = Some v -> In (k, v) m.
Proof.
  induction m as [|[k' v'] t IH]; cbn [lookup]; [discriminate|].
  destruct (text_eqb k' k) eqn:E.
  - apply text_eqb_eq in E. intros H. injection H as <-. left. congruence.
  - intros H. right. apply IH, H.
Qed.

(** Every entry of the dictionary is found under its key, and its value
    is a name the normalization leaves as it is. *)
Lemma country_map_entries (k v : Text) :
  In (k, v) country_map -> lookup k country_map = Some v /\ replace (strip v) = v.
Proof.
  unfold country_map at 1. cbn [map In fst snd]. intros H.
  repeat (destruct H as [H|H]; [injection H as <- <-; split; vm_compute; reflexivity|]).
  destruct H.
Qed.

Lemma replace_strip_idem (s : Text) :
  replace (strip (replace (strip s))) = replace (strip s).
Proof.
  unfold replace at 2 3.
  destruct (lookup (strip s) country_map) as [v|] eqn:E.
  - apply lookup_In in E. apply (country_map_entries _ _ E).
  - rewrite strip_idem. unfold replace. rewrite E. reflexivity.
Qed.

Lemma normalize_idem (c : option Text) : normalize (normalize c) = normalize c.
Proof.
  destruct c as [s|]; [|reflexivity]. cbn [normalize option_map].
  rewrite replace_strip_idem. reflexivity.
Qed.
End NameFacts.

(** X24 — country names are brought to one canonical spelling: an alias
    of the dictionary, with or without surrounding white space (Unicode
    white space included), becomes the name the dictionary gives it; any
    other name is only stripped of its surrounding white space; a missing
    name stays missing; and normalizing a normalized name changes
    nothing. *)
Theorem X24_country_names_canonical :
  (forall k v s,
     In (k, v) Standardization.country_map ->
     Standardization.strip s = k ->
     Standardization.normalize (Some s) = Some v) /\
  (forall s,
     (forall k v, In (k, v) Standardization.country_map -> Standardization.strip s <> k) ->
     Standardization.normalize (Some s) = Some (Standardization.strip s)) /\
  Standardization.normalize None = None /\
  (forall c, Standardization.normalize (Standardization.normalize c)
             = Standardization.normalize c).
Proof.
  split; [|split; [|split; [reflexivity | apply normalize_idem]]].
  - intros k v s Hin <-. cbn [Standardization.normalize option_map].
    unfold Standardization.replace.
    destruct (country_map_entries _ _ Hin) as [-> _]. reflexivity.
  - intros s H. cbn [Standardization.normalize option_map].
    unfold Standardization.replace.
    destruct (Standardization.lookup (Standardization.strip s) Standardization.country_map)
      as [v|] eqn:E; [|reflexivity].
    apply lookup_In in E. exfalso. exact (H _ _ E eq_refl).
Qed.

(** The alias USA followed by a no-break space and a line feed. *)
Lemma X24_country_names_witness :
  Standardization.normalize
    (Some (Standardization.text "USA" ++ [160%N; 10%N]))
  = Some (Standardization.text "United States").
Proof.
  apply (proj1 X24_country_names_canonical (Standardization.text "USA")
               (Standardization.text "United States")
               (Standardization.text "USA" ++ [160%N; 10%N])).
  - vm_compute. tauto.
  - reflexivity.
Defined.

Section YearFacts.
Import Frame Standardization.
Context {P : Type} (parse : string -> option Q).

(** The cast keeps the rows and replaces each year by its integer. *)
Lemma cast_years_rows (rs out : list (Row P)) :
  cast_years parse rs = Saved out ->
  Forall2 (fun r r' => country r' = country r /\ payload r' = payload r /\
                       exists z, year r' = YInt z /\ to_int64 parse (year r) = Some z)
          rs out.
Proof.
  revert out. induction rs as [|r t IH]; intros out; cbn [cast_years].
  - intros E. injection E as <-. constructor.
  - destruct (to_int64 parse (year r)) as [z|] eqn:Ez; [|discriminate].
    destruct (cast_years parse t) as [t'|e]; [|discriminate].
    intros E. injection E as <-. constructor; [|apply IH; reflexivity].
    cbn [country payload year]. repeat split. exists z. auto.
Qed.

Lemma cast_years_fails (rs : list (Row P)) (e : error) :
  cast_years parse rs = Failed e ->
  e = TypeError /\ exists r, In r rs /\ to_int64 parse (year r) = None.
Proof.
  induction rs as [|r t IH]; cbn [cast_years]; [discriminate|].
  destruct (to_int64 parse (year r)) as [z|] eqn:Ez.
  - destruct (cast_years parse t) as [t'|e']; [discriminate|].
    intros E. injection E as <-. destruct (IH eq_refl) as [-> [x [Hx Hn]]].
    split; [reflexivity|]. exists x. split; [right; exact Hx | exact Hn].
  - intros E. injection E as <-. split; [reflexivity|].
    exists r. split; [left; reflexivity | exact Ez].
Qed.

Lemma cast_years_total (rs : list (Row P)) :
  (forall r, In r rs -> to_int64 parse (year r) <> None) ->
  exists out, cast_years parse rs = Saved out.
Proof.
  intros H. destruct (cast_years parse rs) as [out|e] eqn:E; [eauto|].
  destruct (cast_years_fails rs e E) as [_ [r [Hr Hn]]].
  exfalso. exact (H r Hr Hn).
Qed.

Lemma to_int64_value (c : YearCell) (z : Z) :
  to_int64 parse c = Some z ->
  exists q, to_numeric parse c = Some q /\ (q == inject_Z z)%Q.
Proof.
  unfold to_int64. destruct (to_numeric parse c) as [q|]; [|discriminate].
  destruct (Qeq_bool q (inject_Z (Qfloor q))) eqn:E; [|discriminate].
  intros H. injection H as <-. exists q. split; [reflexivity|].
  apply Qeq_bool_iff, E.
Qed.

Lemma in_range_bounds (c : YearCell) (z : Z) :
  in_range parse c = true -> to_int64 parse c = Some z -> (2000 <= z <= 2024)%Z.
Proof.
  intros Hr Hz. destruct (to_int64_value c z Hz) as (q & Eq & Hq).
  unfold in_range in Hr. rewrite Eq in Hr.
  apply andb_true_iff in Hr. destruct Hr as [H1 H2].
  apply Qle_bool_iff in H1, H2. unfold year_min, year_max in *.
  rewrite Hq in H1, H2.
  change (2000#1)%Q with (inject_Z 2000) in H1.
  change (2024#1)%Q with (inject_Z 2024) in H2.
  rewrite <- Zle_Qle in H1, H2. lia.
Qed.

Lemma standardize_countries_rows (rs out : list (Row P)) :
  standardize_countries rs = Saved out ->
  out = map (fun r => mkRow (normalize (country r)) (year r) (payload r)) rs.
Proof.
  unfold standardize_countries. destruct rs as [|r t].
  - intros E. injection E as <-. reflexivity.
  - destruct (forallb _ (r :: t)); [discriminate|].
    intros E. injection E as <-. reflexivity.
Qed.

Lemma filter_counts {A : Type} (p q : A -> bool) (l : list A) :
  (forall x, q x = true -> p x = false) ->
  (length (filter q l) + length (filter p l) <= length l)%nat.
Proof.
  intros H. induction l as [|x t IH]; simpl; [lia|].
  destruct (q x) eqn:Eq.
  - rewrite (H x Eq). simpl. lia.
  - destruct (p x); simpl; lia.
Qed.

Lemma filter_length_le {A : Type} (p : A -> bool) (l : list A) :
  (length (filter p l) <= length l)%nat.
Proof. induction l as [|x t IH]; simpl; [lia|]. destruct (p x); simpl; lia. Qed.

(** The rows after the country step have the years of the rows before. *)
Lemma country_step_years (df : DataFrame P) (rs : list (Row P)) :
  (if has_country df then standardize_countries (rows df) else Saved (rows df)) = Saved rs ->
  map year rs = map year (rows df) /\ map payload rs = map payload (rows df) /\
  (has_country df = true -> map country rs = map (fun r => normalize (country r)) (rows df)) /\
  (has_country df = false -> rs = rows df).
Proof.
  destruct (has_country df).
  - intros E. apply standardize_countries_rows in E. subst rs.
    rewrite !map_map. cbn [year payload country]. repeat split. discriminate.
  - intros E. injection E as <-. repeat split. discriminate.
Qed.





Lemma existsb_map {A B : Type} (g : A -> B) (p : B -> bool) (l : list A) :
  existsb p (map g l) = existsb (fun x => p (g x)) l.
Proof. induction l as [|x t IH]; simpl; [reflexivity|]. rewrite IH. reflexivity. Qed.
End YearFacts.

(** X25 — the standardized years: when a file with a year column is
    saved, every year of it is an integer between 2000 and 2024; the rows
    kept and the rows counted as filtered add up to the rows read, and the
    rows whose year is not a number are among the filtered ones. *)
Theorem X25_saved_years_in_range :
  forall (P : Type) (parse : string -> option Q)
         (df out : Standardization.DataFrame P),
    Standardization.standardize parse df = Standardization.Saved out ->
    Standardization.has_year df = true ->
    (forall r, In r (Standardization.rows out) ->
       exists z, Standardization.year r = Standardization.YInt z /\
                 (2000 <= z <= 2024)%Z) /\
    (length (Standardization.rows out)
     + Standardization.years_filtered parse (Standardization.rows df)
     = length (Standardization.rows df))%nat /\
    (Standardization.invalid_years parse (Standardization.rows df)
     <= Standardization.years_filtered parse (Standardization.rows df))%nat.
Proof.
  intros P parse df out H Hy. unfold Standardization.standardize in H.
  destruct (if Standardization.has_country df then _ else _) as [rs|e] eqn:Ec;
    [|discriminate].
  destruct (country_step_years df rs Ec) as (Hyears & _ & _ & _).
  rewrite Hy in H. unfold Standardization.standardize_years in H.
  destruct (Standardization.cast_years parse _) as [rs'|e] eqn:Ecast; [|discriminate].
  injection H as <-. cbn [Standardization.rows].
  pose proof (cast_years_rows parse _ _ Ecast) as HF.
  assert (Hf : forall l : list (Standardization.Row P),
             length (filter (fun r => Standardization.in_range parse (Standardization.year r)) l)
             = length (filter (Standardization.in_range parse) (map Standardization.year l))).
  { induction l as [|x t IH]; simpl; [reflexivity|].
    destruct (Standardization.in_range parse (Standardization.year x)); simpl; congruence. }
  split; [|split].
  - intros r' Hr'.
    destruct (Forall2_In_r _ _ _ _ HF Hr') as (r & Hr & _ & _ & z & Ez & Ei).
    apply filter_In in Hr. destruct Hr as [_ Hin].
    exists z. split; [exact Ez | exact (in_range_bounds parse _ z Hin Ei)].
  - rewrite <- (Forall2_length HF). unfold Standardization.years_filtered.
    rewrite (Hf rs), Hyears, <- (Hf (Standardization.rows df)).
    pose proof (filter_length_le
                  (fun r => Standardization.in_range parse (Standardization.year r))
                  (Standardization.rows df)).
    lia.
  - unfold Standardization.invalid_years, Standardization.years_filtered.
    pose proof (filter_counts
                  (fun r => Standardization.in_range parse (Standardization.year r))
                  (fun r => Frame.isnull
                              (Standardization.to_numeric parse (Standardization.year r)))
                  (Standardization.rows df)) as Hc.
    assert (Hq : forall x : Standardization.Row P,
               Frame.isnull (Standardization.to_numeric parse (Standardization.year x)) = true ->
               Standardization.in_range parse (Standardization.year x) = false).
    { intros x. unfold Standardization.in_range.
      destruct (Standardization.to_numeric parse (Standardization.year x));
        [discriminate | reflexivity]. }
    specialize (Hc Hq). lia.
Qed.

Lemma X25_saved_years_witness :
  exists out,
    Standardization.standardize MoreExamples.no_parse MoreExamples.raw_file
      = Standardization.Saved out /\
    (forall r, In r (Standardization.rows out) ->
       exists z, Standardization.year r = Standardization.YInt z /\
                 (2000 <= z <= 2024)%Z) /\
    (length (Standardization.rows out)
     + Standardization.years_filtered MoreExamples.no_parse
         (Standardization.rows MoreExamples.raw_file)
     = length (Standardization.rows MoreExamples.raw_file))%nat /\
    (Standardization.invalid_years MoreExamples.no_parse
       (Standardization.rows MoreExamples.raw_file)
     <= Standardization.years_filtered MoreExamples.no_parse
          (Standardization.rows MoreExamples.raw_file))%nat.
Proof.
  eexists. split; [reflexivity|].
  apply (X25_saved_years_in_range unit MoreExamples.no_parse MoreExamples.raw_file);
    reflexivity.
Defined.

(** X26 — when the standardizer fails: it stops with an AttributeError
    exactly on a file with a country column, at least one row and no
    country name at all; otherwise it stops with a TypeError exactly when
    a year within 2000-2024 is not a whole number; otherwise the file is
    saved, with no more rows than were read. *)
Theorem X26_standardize_failures :
  forall (P : Type) (parse : string -> option Q) (df : Standardization.DataFrame P),
    let blank :=
      Standardization.has_country df
      && negb (Nat.eqb (length (Standardization.rows df)) 0)
      && forallb (fun r => Frame.isnull (Standardization.country r))
                 (Standardization.rows df) in
    let fractional :=
      Standardization.has_year df
      && existsb (fun c => Standardization.in_range parse c
                           && Frame.isnull (Standardization.to_int64 parse c))
                 (map Standardization.year (Standardization.rows df)) in
    match Standardization.standardize parse df with
    | Standardization.Failed Standardization.AttributeError => blank = true
    | Standardization.Failed Standardization.TypeError =>
        blank = false /\ fractional = true
    | Standardization.Saved out =>
        blank = false /\ fractional = false /\
        (length (Standardization.rows out) <= length (Standardization.rows df))%nat
    end.
Proof.
  intros P parse df blank fractional.
  unfold Standardization.standardize.
  destruct (if Standardization.has_country df then _ else _) as [rs|e] eqn:Ec.
  - assert (Hb : blank = false).
    { unfold blank. destruct (Standardization.has_country df); [|reflexivity].
      unfold Standardization.standardize_countries in Ec.
      destruct (Standardization.rows df) as [|r t]; [reflexivity|].
      destruct (forallb _ (r :: t)); [discriminate|]. reflexivity. }
    destruct (country_step_years df rs Ec) as (Hyears & _ & _ & _).
    assert (Hlen : length rs = length (Standardization.rows df)).
    { rewrite <- (length_map Standardization.year rs), Hyears. apply length_map. }
    unfold fractional. rewrite <- Hyears, existsb_map.
    destruct (Standardization.has_year df).
    + unfold Standardization.standardize_years.
      destruct (Standardization.cast_years parse _) as [rs'|e] eqn:Ecast.
      * cbn [Standardization.rows]. split; [exact Hb|].
        pose proof (cast_years_rows parse _ _ Ecast) as HF. split.
        -- cbn [andb].
           destruct (existsb _ rs) eqn:Ex; [|reflexivity]. exfalso.
           apply existsb_exists in Ex. destruct Ex as (r & Hr & Hx).
           apply andb_true_iff in Hx. destruct Hx as [Hin Hnull].
           assert (Hf : In r (filter (fun r => Standardization.in_range parse
                                                  (Standardization.year r)) rs))
             by (apply filter_In; auto).
           destruct (Forall2_In_l _ _ _ _ HF Hf) as (r' & _ & _ & _ & z & _ & Ez).
           rewrite Ez in Hnull. discriminate.
        -- rewrite <- (Forall2_length HF), <- Hlen. apply filter_length_le.
      * destruct (cast_years_fails parse _ e Ecast) as [-> (r & Hr & Hn)].
        split; [exact Hb|]. cbn [andb]. apply existsb_exists.
        apply filter_In in Hr. destruct Hr as [Hr Hin].
        exists r. split; [exact Hr|]. rewrite Hin, Hn. reflexivity.
    + cbn [Standardization.rows andb]. repeat split; [exact Hb | lia].
  - destruct (Standardization.has_country df); [|discriminate].
    unfold Standardization.standardize_countries in Ec.
    unfold blank. destruct (Standardization.rows df) as [|r t]; [discriminate|].
    destruct (forallb _ (r :: t)) eqn:Ef; [|discriminate].
    injection Ec as <-. reflexivity.
Qed.



(** ** How many values lie beyond a quantile *)

Section QuantileCounts.
Import Frame Winsorization.

Lemma filter_length_perm {A : Type} (f : A -> bool) (l l' : list A) :
  Permutation l l' -> length (filter f l) = length (filter f l').
Proof.
  induction 1 as [|x s t _ IH|x y s|s t u _ IH1 _ IH2]; simpl.
  - reflexivity.
  - destruct (f x); simpl; congruence.
  - destruct (f x), (f y); reflexivity.
  - congruence.
Qed.

Lemma filter_length_mono {A : Type} (f g : A -> bool) (l : list A) :
  (forall x, f x = true -> g x = true) ->
  (length (filter f l) <= length (filter g l))%nat.
Proof.
  intros H. induction l as [|x t IH]; simpl; [lia|].
  destruct (f x) eqn:E.
  - rewrite (H x E). simpl. lia.
  - destruct (g x); simpl; lia.
Qed.

Lemma filter_length_bound {A : Type} (f : A -> bool) (l : list A) :
  (length (filter f l) <= length l)%nat.
Proof. induction l as [|x t IH]; simpl; [lia|]. destruct (f x); simpl; lia. Qed.

Lemma count_above_dropna (p : Q) (l : list (option Q)) :
  count_above p l = length (filter (fun v => negb (Qle_bool v p)) (dropna l)).
Proof.
  unfold count_above. induction l as [|[x|] t IH]; [reflexivity| |exact IH].
  cbn [filter dropna]. change (nan_ltb (Some p) (Some x)) with (negb (Qle_bool x p)).
  destruct (negb (Qle_bool x p)); cbn [length]; rewrite IH; reflexivity.
Qed.

Lemma count_below_dropna (p : Q) (l : list (option Q)) :
  count_below p l = length (filter (fun v => negb (Qle_bool p v)) (dropna l)).
Proof.
  unfold count_below. induction l as [|[x|] t IH]; [reflexivity| |exact IH].
  cbn [filter dropna]. change (nan_ltb (Some x) (Some p)) with (negb (Qle_bool p x)).
  destruct (negb (Qle_bool p x)); cbn [length]; rewrite IH; reflexivity.
Qed.

(** In a sorted list at most the values after position [i] exceed the
    value at position [i], and at most the [i] values before it lie
    below it. *)
Lemma sorted_above_count (xs : list Q) (d : Q) :
  StronglySorted (fun a b => Qle_bool a b = true) xs ->
  forall i, (i < length xs)%nat ->
    (length (filter (fun v => negb (Qle_bool v (nth i xs d))) xs)
     <= length xs - 1 - i)%nat.
Proof.
  induction 1 as [|x t Ht IH Hx]; intros i Hi; simpl in Hi; [lia|].
  rewrite Forall_forall in Hx.
  destruct i as [|i]; cbn [nth filter length].
  - assert (E : Qle_bool x x = true) by (apply Qle_bool_iff; lra).
    rewrite E. cbn [negb]. pose proof (filter_length_bound (fun v => negb (Qle_bool v x)) t).
    lia.
  - assert (E : Qle_bool x (nth i t d) = true) by (apply Hx, nth_In; lia).
    rewrite E. cbn [negb]. specialize (IH i ltac:(lia)). lia.
Qed.

Lemma sorted_below_count (xs : list Q) (d : Q) :
  StronglySorted (fun a b => Qle_bool a b = true) xs ->
  forall i, (i < length xs)%nat ->
    (length (filter (fun v => negb (Qle_bool (nth i xs d) v)) xs) <= i)%nat.
Proof.
  induction 1 as [|x t Ht IH Hx]; intros i Hi; simpl in Hi; [lia|].
  rewrite Forall_forall in Hx.
  destruct i as [|i]; cbn [nth filter].
  - assert (E : Qle_bool x x = true) by (apply Qle_bool_iff; lra).
    rewrite E. cbn [negb]. rewrite filter_none; [simpl; lia|].
    intros v Hv. rewrite (Hx v Hv). reflexivity.
  - specialize (IH i ltac:(lia)).
    destruct (negb (Qle_bool (nth i t d) x)); cbn [length]; lia.
Qed.

(** The values strictly above (below) the quantile of order [q], counted
    against the position of the quantile among the sorted values. *)
Lemma quantile_counts (q : Q) (l : list (option Q)) (p : Q) :
  (0 <= q)%Q -> (q <= 1)%Q ->
  quantile q l = Some p ->
  let n := length (dropna l) in
  let lo := Z.to_nat (Qfloor (q * inject_Z (Z.of_nat (n - 1)))) in
  (0 < n)%nat /\ (lo <= n - 1)%nat /\
  (count_above p l <= n - 1 - lo)%nat /\
  (count_below p l <= S lo)%nat.
Proof.
  intros H0 H1 Hq n lo. unfold quantile in Hq.
  pose proof (sorted_values (dropna l)) as Hs.
  pose proof (sort_values_perm Qle_bool (dropna l)) as Hp.
  assert (Hn : length (sort_values Qle_bool (dropna l)) = n)
    by (apply Permutation_length, Hp).
  destruct (sort_values Qle_bool (dropna l)) as [|x0 t] eqn:Ex; [discriminate|].
  set (xs := x0 :: t) in *.
  assert (Hq' : at_position xs x0 (q * inject_Z (Z.of_nat (length xs - 1))) = p)
    by (injection Hq as <-; reflexivity).
  clear Hq. rename Hq' into Hq. rewrite Hn in Hq.
  set (pos := (q * inject_Z (Z.of_nat (n - 1)))%Q) in *.
  assert (Hm : (0 <= inject_Z (Z.of_nat (n - 1)))%Q)
    by (change 0%Q with (inject_Z 0); rewrite <- Zle_Qle; lia).
  assert (G0 : (0 <= pos)%Q) by (unfold pos; nra).
  assert (G1 : (pos <= inject_Z (Z.of_nat (length xs - 1)))%Q)
    by (rewrite Hn; unfold pos; nra).
  assert (Hlen : (0 < length xs)%nat) by (simpl; lia).
  destruct (at_position_between xs x0 pos Hs G0 G1 Hlen) as (Hlh & Hhi & Ha & Hb).
  fold lo in Hlh, Hhi, Ha, Hb. rewrite Hq in Ha, Hb. rewrite Hn in Hlh, Hhi, Hb.
  set (hi := Nat.min (S lo) (n - 1)) in *.
  split; [lia|]. split; [lia|]. split.
  - rewrite count_above_dropna.
    rewrite (filter_length_perm _ _ _ (Permutation_sym Hp)).
    etransitivity;
      [apply (filter_length_mono _ (fun v => negb (Qle_bool v (nth lo xs x0))))|].
    + intros v Hv. apply negb_true_iff in Hv. apply negb_true_iff.
      destruct (Qle_bool v (nth lo xs x0)) eqn:E; [|reflexivity].
      apply Qle_bool_iff in E.
      assert (Qle_bool v p = true) by (apply Qle_bool_iff; lra). congruence.
    + pose proof (sorted_above_count xs x0 Hs lo ltac:(lia)). lia.
  - rewrite count_below_dropna.
    rewrite (filter_length_perm _ _ _ (Permutation_sym Hp)).
    etransitivity;
      [apply (filter_length_mono _ (fun v => negb (Qle_bool (nth hi xs x0) v)))|].
    + intros v Hv. apply negb_true_iff in Hv. apply negb_true_iff.
      destruct (Qle_bool (nth hi xs x0) v) eqn:E; [|reflexivity].
      apply Qle_bool_iff in E.
      assert (Qle_bool p v = true) by (apply Qle_bool_iff; lra). congruence.
    + pose proof (sorted_below_count xs x0 Hs hi ltac:(lia)). lia.
Qed.
End QuantileCounts.

Section QuantileOrders.
Import Frame Winsorization.

Lemma floor_of_share (a : Z) (b : positive) (m : Z) :
  Qfloor ((a # b) * inject_Z m) = (a * m / Z.pos b)%Z.
Proof.
  unfold Qfloor, Qmult, inject_Z. cbn [Qnum Qden]. rewrite Pos.mul_1_r. reflexivity.
Qed.
End QuantileOrders.

(** X28 — the winsorizer clips few values: the values of a column
    strictly above its 99th percentile number at most one hundredth of
    the observed values, rounded up to the next unit, and likewise those
    strictly below its 1st percentile; a column of up to a hundred values
    has at most one value clipped upwards. *)
Theorem X28_winsorizer_clips_few_values :
  forall (l : list (option Q)) (p01 p99 : Q),
    Winsorization.quantile (1#100) l = Some p01 ->
    Winsorization.quantile (99#100) l = Some p99 ->
    (100 * Winsorization.count_above p99 l <= length (Frame.dropna l) + 98)%nat /\
    (100 * Winsorization.count_below p01 l <= length (Frame.dropna l) + 99)%nat.
Proof.
  intros l p01 p99 E01 E99.
  destruct (quantile_counts (99#100) l p99 ltac:(lra) ltac:(lra) E99) as (Hn & Hlo & Ha & _).
  destruct (quantile_counts (1#100) l p01 ltac:(lra) ltac:(lra) E01) as (_ & Hlo' & _ & Hb).
  rewrite floor_of_share in Hlo, Ha, Hlo', Hb.
  set (n := length (Frame.dropna l)) in *.
  split.
  - assert (H : (99 * Z.of_nat (n - 1) < 100 * (99 * Z.of_nat (n - 1) / 100) + 100)%Z).
    { pose proof (Z.mod_pos_bound (99 * Z.of_nat (n - 1)) 100 ltac:(lia)).
      pose proof (Z.div_mod (99 * Z.of_nat (n - 1)) 100 ltac:(lia)). lia. }
    assert (H' : (0 <= 99 * Z.of_nat (n - 1) / 100)%Z)
      by (apply Z.div_pos; lia).
    lia.
  - assert (H : (100 * (1 * Z.of_nat (n - 1) / 100) <= 1 * Z.of_nat (n - 1))%Z).
    { pose proof (Z.mod_pos_bound (1 * Z.of_nat (n - 1)) 100 ltac:(lia)).
      pose proof (Z.div_mod (1 * Z.of_nat (n - 1)) 100 ltac:(lia)). lia. }
    assert (H' : (0 <= 1 * Z.of_nat (n - 1) / 100)%Z)
      by (apply Z.div_pos; lia).
    lia.
Qed.

Lemma X28_winsorizer_clips_few_witness :
  exists p01 p99,
    (100 * Winsorization.count_above p99 [Some 0%Q; Some (10#1)]
     <= length (Frame.dropna [Some 0%Q; Some (10#1)]) + 98)%nat /\
    (100 * Winsorization.count_below p01 [Some 0%Q; Some (10#1)]
     <= length (Frame.dropna [Some 0%Q; Some (10#1)]) + 99)%nat.
Proof.
  eexists. eexists.
  apply (X28_winsorizer_clips_few_values [Some 0%Q; Some (10#1)]);
    vm_compute; reflexivity.
Defined.

Section DummyFacts.
Import Frame Winsorization FeatureEngineering.

Lemma marked_flag_above (p : Q) (l : list (option Q)) :
  marked (flag_above (Some p) l) = Z.of_nat (count_above p l).
Proof.
  unfold marked, flag_above, count_above.
  induction l as [|c t IH]; [reflexivity|].
  cbn [map fold_right filter]. rewrite IH.
  destruct (nan_ltb (Some p) c); cbn [length]; lia.
Qed.

Lemma marked_no_threshold (l : list (option Q)) : marked (flag_above None l) = 0%Z.
Proof.
  unfold marked, flag_above. induction l as [|c t IH]; [reflexivity|].
  cbn [map fold_right]. rewrite IH. reflexivity.
Qed.

Lemma flag_above_cells (threshold : option Q) (l : list (option Q)) :
  Forall2 (fun c f => (f = 0 \/ f = 1)%Z /\ (c = None -> f = 0%Z))
          l (flag_above threshold l).
Proof.
  unfold flag_above. induction l as [|c t IH]; [constructor|].
  cbn [map]. constructor; [|exact IH]. split.
  - destruct (nan_ltb threshold c); auto.
  - intros ->. destruct threshold; reflexivity.
Qed.
End DummyFacts.

(** X29 — how many rows the dummies mark: a dummy is 0 or 1 on every row
    and 0 where the variable is missing; the high-GDP dummy (above the
    median) marks at most half of the observed rows, and the
    high-investment dummy (above the 75th percentile) at most a quarter of
    them, rounded up to the next unit. *)
Theorem X29_dummies_mark_bounded_share :
  forall (l : list (option Q)),
    Forall2 (fun c f => (f = 0 \/ f = 1)%Z /\ (c = None -> f = 0%Z))
            l (FeatureEngineering.high_gdp_dummy l) /\
    Forall2 (fun c f => (f = 0 \/ f = 1)%Z /\ (c = None -> f = 0%Z))
            l (FeatureEngineering.high_invest_dummy l) /\
    (2 * FeatureEngineering.marked (FeatureEngineering.high_gdp_dummy l)
     <= Z.of_nat (length (Frame.dropna l)))%Z /\
    (4 * FeatureEngineering.marked (FeatureEngineering.high_invest_dummy l)
     <= Z.of_nat (length (Frame.dropna l)) + 2)%Z.
Proof.
  intros l. split; [apply flag_above_cells|]. split; [apply flag_above_cells|].
  unfold FeatureEngineering.high_gdp_dummy, FeatureEngineering.high_invest_dummy,
    FeatureEngineering.median.
  split.
  - destruct (Winsorization.quantile (1#2) l) as [p|] eqn:E;
      [|rewrite marked_no_threshold; lia].
    rewrite marked_flag_above.
    destruct (quantile_counts (1#2) l p ltac:(lra) ltac:(lra) E) as (Hn & Hlo & Ha & _).
    rewrite floor_of_share in Hlo, Ha.
    set (n := length (Frame.dropna l)) in *.
    pose proof (Z.mod_pos_bound (1 * Z.of_nat (n - 1)) 2 ltac:(lia)).
    pose proof (Z.div_mod (1 * Z.of_nat (n - 1)) 2 ltac:(lia)).
    assert (H' : (0 <= 1 * Z.of_nat (n - 1) / 2)%Z) by (apply Z.div_pos; lia).
    lia.
  - destruct (Winsorization.quantile (3#4) l) as [p|] eqn:E;
      [|rewrite marked_no_threshold; lia].
    rewrite marked_flag_above.
    destruct (quantile_counts (3#4) l p ltac:(lra) ltac:(lra) E) as (Hn & Hlo & Ha & _).
    rewrite floor_of_share in Hlo, Ha.
    set (n := length (Frame.dropna l)) in *.
    pose proof (Z.mod_pos_bound (3 * Z.of_nat (n - 1)) 4 ltac:(lia)).
    pose proof (Z.div_mod (3 * Z.of_nat (n - 1)) 4 ltac:(lia)).
    assert (H' : (0 <= 3 * Z.of_nat (n - 1) / 4)%Z) by (apply Z.div_pos; lia).
    lia.
Qed.
